(** * Credential resolution and browser cookie extraction (src/lib/cookies.ts)

    A shallow embedding of the cookie module of the bird CLI: the Safari
    binarycookies parser, the Chrome value decryptor and store reader, the
    Firefox store reader and the credential resolver, followed by the
    properties of the specification that concern them. *)

From Stdlib Require Import ZArith List Lia Bool Strings.String Strings.Ascii Strings.Byte.
From Stdlib Require Import Sorting.Sorted Sorting.Permutation.
Import ListNotations.
Open Scope Z_scope.

(** ** JavaScript strings

    A JavaScript string is a sequence of UTF-16 code units. *)

Definition jsstring := list Z.

(** A string literal of the source (all of them are ASCII). *)
Definition js (s : string) : jsstring :=
  map (fun a => Z.of_N (N_of_ascii a)) (list_ascii_of_string s).

Fixpoint str_eqb (a b : jsstring) : bool :=
  match a, b with
  | [], [] => true
  | x :: a', y :: b' => (x =? y) && str_eqb a' b'
  | _, _ => false
  end.

(** Truthiness of a [string | null | undefined] value: a non-empty string. *)
Definition truthy (v : option jsstring) : bool :=
  match v with
  | Some (_ :: _) => true
  | _ => false
  end.

(** WhiteSpace and LineTerminator code units, as String.prototype.trim
    removes them. *)
Definition isWhiteSpace (c : Z) : bool :=
  ((9 <=? c) && (c <=? 13)) || (c =? 32) || (c =? 160) || (c =? 5760)
  || ((8192 <=? c) && (c <=? 8202)) || (c =? 8232) || (c =? 8233)
  || (c =? 8239) || (c =? 8287) || (c =? 12288) || (c =? 65279).

Fixpoint dropWhile {A} (p : A -> bool) (l : list A) : list A :=
  match l with
  | [] => []
  | x :: l' => if p x then dropWhile p l' else l
  end.

Fixpoint takeWhile {A} (p : A -> bool) (l : list A) : list A :=
  match l with
  | [] => []
  | x :: l' => if p x then x :: takeWhile p l' else []
  end.

Definition trim (s : jsstring) : jsstring :=
  rev (dropWhile isWhiteSpace (rev (dropWhile isWhiteSpace s))).

Fixpoint startsWith (s prefix : jsstring) {struct prefix} : bool :=
  match prefix, s with
  | [], _ => true
  | p :: prefix', c :: s' => (c =? p) && startsWith s' prefix'
  | _ :: _, [] => false
  end.

Definition endsWith (s suffix : jsstring) : bool :=
  startsWith (rev s) (rev suffix).

(** [s.split(sep)] for a separator of one code unit; the result is never
    empty. *)
Fixpoint split (sep : Z) (s : jsstring) : list jsstring :=
  match s with
  | [] => [[]]
  | c :: s' =>
      if c =? sep then [] :: split sep s'
      else match split sep s' with
           | [] => [[c]]
           | w :: ws => (c :: w) :: ws
           end
  end.

Fixpoint join (sep : jsstring) (l : list jsstring) : jsstring :=
  match l with
  | [] => []
  | [x] => x
  | x :: l' => x ++ sep ++ join sep l'
  end.

(** The functions of the runtime whose result depends on Unicode data or on
    the host locale.  [localeCompare] is a comparator: swapping its arguments
    flips its sign. *)
Class Platform := {
  toLowerCase : jsstring -> jsstring;
  localeCompare : jsstring -> jsstring -> comparison;
  localeCompare_antisym :
    forall a b, localeCompare b a = CompOpp (localeCompare a b)
}.

(** ** Buffers *)

Definition Buffer := list byte.

Definition byteZ (b : byte) : Z := Z.of_N (Byte.to_N b).

Definition blength (b : Buffer) : Z := Z.of_nat (List.length b).

(** [buffer[i]]: [None] is [undefined], the value of a read outside the
    buffer. *)
Definition byteAt (buffer : Buffer) (i : Z) : option byte :=
  if i <? 0 then None else nth_error buffer (Z.to_nat i).

Definition clampIndex (buffer : Buffer) (i : Z) : Z :=
  Z.max 0 (Z.min i (blength buffer)).

(** [buffer.subarray(start, end)]: both indices are clamped to the buffer. *)
Definition subarray (buffer : Buffer) (start end_ : Z) : Buffer :=
  let s := clampIndex buffer start in
  let e := clampIndex buffer end_ in
  firstn (Z.to_nat (e - s)) (skipn (Z.to_nat s) buffer).

Definition REPLACEMENT : Z := 65533.

(** A code point as UTF-16 code units. *)
Definition utf16 (cp : Z) : list Z :=
  if cp <? 65536 then [cp]
  else [55296 + (cp - 65536) / 1024; 56320 + (cp - 65536) mod 1024].

Definition inRange (lo hi b : Z) : bool := (lo <=? b) && (b <=? hi).

(** UTF-8 decoding as [buffer.toString('utf8')] does it: an ill-formed
    sequence yields one U+FFFD for its maximal valid prefix and decoding
    resumes at the offending byte. *)
Fixpoint utf8Decode (bs : list byte) : jsstring :=
  match bs with
  | [] => []
  | x :: r =>
      let b := byteZ x in
      if b <? 128 then b :: utf8Decode r
      else if inRange 194 223 b then
        match r with
        | [] => [REPLACEMENT]
        | y :: r1 =>
            if inRange 128 191 (byteZ y)
            then utf16 ((b - 192) * 64 + (byteZ y - 128)) ++ utf8Decode r1
            else REPLACEMENT :: utf8Decode r
        end
      else if inRange 224 239 b then
        let lo := if b =? 224 then 160 else 128 in
        let hi := if b =? 237 then 159 else 191 in
        match r with
        | [] => [REPLACEMENT]
        | y :: r1 =>
            if inRange lo hi (byteZ y) then
              match r1 with
              | [] => [REPLACEMENT]
              | z :: r2 =>
                  if inRange 128 191 (byteZ z)
                  then utf16 ((b - 224) * 4096 + (byteZ y - 128) * 64
                              + (byteZ z - 128)) ++ utf8Decode r2
                  else REPLACEMENT :: utf8Decode r1
              end
            else REPLACEMENT :: utf8Decode r
        end
      else if inRange 240 244 b then
        let lo := if b =? 240 then 144 else 128 in
        let hi := if b =? 244 then 143 else 191 in
        match r with
        | [] => [REPLACEMENT]
        | y :: r1 =>
            if inRange lo hi (byteZ y) then
              match r1 with
              | [] => [REPLACEMENT]
              | z :: r2 =>
                  if inRange 128 191 (byteZ z) then
                    match r2 with
                    | [] => [REPLACEMENT]
                    | t :: r3 =>
                        if inRange 128 191 (byteZ t)
                        then utf16 ((b - 240) * 262144 + (byteZ y - 128) * 4096
                                    + (byteZ z - 128) * 64 + (byteZ t - 128))
                             ++ utf8Decode r3
                        else REPLACEMENT :: utf8Decode r2
                    end
                  else REPLACEMENT :: utf8Decode r1
              end
            else REPLACEMENT :: utf8Decode r
        end
      else REPLACEMENT :: utf8Decode r
  end.

(** [buffer.toString('utf8', start, end)]. *)
Definition toStringUtf8 (buffer : Buffer) (start end_ : Z) : jsstring :=
  utf8Decode (subarray buffer start end_).

(** The value of a hexadecimal digit, either case. *)
Definition unhex (c : Z) : option Z :=
  if inRange 48 57 c then Some (c - 48)
  else if inRange 97 102 c then Some (c - 87)
  else if inRange 65 70 c then Some (c - 55)
  else None.

Definition byteOfZ (z : Z) : byte :=
  match Byte.of_N (Z.to_N z) with
  | Some b => b
  | None => x00
  end.

(** [Buffer.from(s, 'hex')]: pairs of digits are decoded until the first
    pair that is not hexadecimal; a trailing single digit is dropped.  The
    decoder reads each code unit as a byte, so a code unit above 255 counts
    by its low byte. *)
Fixpoint hexDecode (s : jsstring) : Buffer :=
  match s with
  | a :: b :: r =>
      match unhex (Z.land a 255), unhex (Z.land b 255) with
      | Some x, Some y => byteOfZ (16 * x + y) :: hexDecode r
      | _, _ => []
      end
  | _ => []
  end.

(** ** Results and outcomes

    A call of the runtime or of the host returns or throws an error, carried
    as its message.  The functions of the module whose loops run on fuel have
    a third outcome: the fuel is spent. *)

Inductive Result (A : Type) : Type :=
| Returned (a : A)
| Thrown (message : jsstring).

Arguments Returned {A} a.
Arguments Thrown {A} message.

Inductive Outcome (A : Type) : Type :=
| Done (a : A)
| Throw (message : jsstring)
| OutOfFuel.

Arguments Done {A} a.
Arguments Throw {A} message.
Arguments OutOfFuel {A}.

Definition RangeError : jsstring := js "The value of offset is out of range.".

Definition readUInt32BE (buffer : Buffer) (offset : Z) : Result Z :=
  match byteAt buffer offset, byteAt buffer (offset + 1),
        byteAt buffer (offset + 2), byteAt buffer (offset + 3) with
  | Some b0, Some b1, Some b2, Some b3 =>
      Returned (byteZ b0 * 16777216 + byteZ b1 * 65536 + byteZ b2 * 256 + byteZ b3)
  | _, _, _, _ => Thrown RangeError
  end.

Definition readUInt32LE (buffer : Buffer) (offset : Z) : Result Z :=
  match byteAt buffer offset, byteAt buffer (offset + 1),
        byteAt buffer (offset + 2), byteAt buffer (offset + 3) with
  | Some b0, Some b1, Some b2, Some b3 =>
      Returned (byteZ b0 + byteZ b1 * 256 + byteZ b2 * 65536 + byteZ b3 * 16777216)
  | _, _, _, _ => Thrown RangeError
  end.

(** ** The data model *)

Record TwitterCookies := {
  authToken : option jsstring;
  ct0 : option jsstring;
  cookieHeader : option jsstring;
  source : option jsstring
}.

Record CookieExtractionResult := {
  cookies : TwitterCookies;
  warnings : list jsstring
}.

Inductive CookieSource := safari | chrome | firefox.

Definition noCookies : TwitterCookies :=
  {| authToken := None; ct0 := None; cookieHeader := None; source := None |}.

Definition setAuthToken (v : jsstring) (c : TwitterCookies) : TwitterCookies :=
  {| authToken := Some v; ct0 := ct0 c;
     cookieHeader := cookieHeader c; source := source c |}.

Definition setCt0 (v : jsstring) (c : TwitterCookies) : TwitterCookies :=
  {| authToken := authToken c; ct0 := Some v;
     cookieHeader := cookieHeader c; source := source c |}.

Definition setCookieHeader (v : jsstring) (c : TwitterCookies) : TwitterCookies :=
  {| authToken := authToken c; ct0 := ct0 c;
     cookieHeader := Some v; source := source c |}.

Definition setSource (v : jsstring) (c : TwitterCookies) : TwitterCookies :=
  {| authToken := authToken c; ct0 := ct0 c;
     cookieHeader := cookieHeader c; source := Some v |}.

Definition normalizeValue (value : option jsstring) : option jsstring :=
  match value with
  | Some s =>
      match trim s with
      | [] => None
      | trimmed => Some trimmed
      end
  | None => None
  end.

(** ** The cookie jar

    A jar is a plain object used as a map from names to values.  Its own
    properties are kept in insertion order; an assignment to an existing name
    keeps the name's place. *)

Definition Jar := list (jsstring * jsstring).

Fixpoint jarUpdate (name value : jsstring) (jar : Jar) : Jar :=
  match jar with
  | [] => [(name, value)]
  | (k, x) :: rest =>
      if str_eqb k name then (k, value) :: rest
      else (k, x) :: jarUpdate name value rest
  end.

(** [jar[name] = value] for a string [value].  The name ["__proto__"] reaches
    the setter of Object.prototype, which ignores a value that is not an
    object: no property is created. *)
Definition jarSet (name value : jsstring) (jar : Jar) : Jar :=
  if str_eqb name (js "__proto__") then jar else jarUpdate name value jar.

Definition isDigit (c : Z) : bool := inRange 48 57 c.

Definition decimalValue (s : jsstring) : Z :=
  fold_left (fun acc c => acc * 10 + (c - 48)) s 0.

(** The array index a property name denotes, if it is one: a canonical
    decimal numeral below 2^32 - 1. *)
Definition arrayIndex (name : jsstring) : option Z :=
  match name with
  | [] => None
  | c :: rest =>
      if forallb isDigit name
         && (negb (c =? 48) || match rest with [] => true | _ => false end)
         && (Z.of_nat (List.length name) <=? 10)
         && (decimalValue name <=? 4294967294)
      then Some (decimalValue name)
      else None
  end.

Definition isArrayIndex (name : jsstring) : bool :=
  match arrayIndex name with Some _ => true | None => false end.

Fixpoint insertBy {A} (le : A -> A -> bool) (x : A) (l : list A) : list A :=
  match l with
  | [] => [x]
  | y :: l' => if le x y then x :: l else y :: insertBy le x l'
  end.

(** A stable sort, as Array.prototype.sort is. *)
Definition sortBy {A} (le : A -> A -> bool) (l : list A) : list A :=
  fold_right (insertBy le) [] l.

Definition indexLe (a b : jsstring * jsstring) : bool :=
  match arrayIndex (fst a), arrayIndex (fst b) with
  | Some i, Some j => i <=? j
  | _, _ => true
  end.

(** [Object.entries(jar)]: array indices in ascending order, then the other
    names in insertion order. *)
Definition objectEntries (jar : Jar) : list (jsstring * jsstring) :=
  sortBy indexLe (filter (fun e => isArrayIndex (fst e)) jar)
  ++ filter (fun e => negb (isArrayIndex (fst e))) jar.

Definition nonEmpty (s : jsstring) : bool :=
  match s with [] => false | _ :: _ => true end.

Definition nameLe `{Platform} (a b : jsstring * jsstring) : bool :=
  match localeCompare (fst a) (fst b) with
  | Gt => false
  | _ => true
  end.

Definition cookiePair (e : jsstring * jsstring) : jsstring :=
  fst e ++ js "=" ++ snd e.

Definition sortedEntries `{Platform} (jar : Jar) : list (jsstring * jsstring) :=
  sortBy nameLe (filter (fun e => nonEmpty (snd e)) (objectEntries jar)).

Definition serializeCookieJar `{Platform} (jar : Jar) : jsstring :=
  join (js "; ") (map cookiePair (sortedEntries jar)).

(** ** The state an extraction works on

    The jar and the cookies object of one extraction call, and a count of the
    indexed reads that fell outside their buffer (such a read yields
    [undefined] and does not throw). *)

Record Heap := {
  hJar : Jar;
  hCookies : TwitterCookies;
  hOob : nat
}.

Definition M (A : Type) : Type := Heap -> Outcome A * Heap.

Definition ret {A} (a : A) : M A := fun h => (Done a, h).

Definition bind {A B} (m : M A) (k : A -> M B) : M B :=
  fun h =>
    match m h with
    | (Done a, h') => k a h'
    | (Throw e, h') => (Throw e, h')
    | (OutOfFuel, h') => (OutOfFuel, h')
    end.

Definition outOfFuel {A} : M A := fun h => (OutOfFuel, h).

(** A call of the runtime or of the host, inside an extraction. *)
Definition call {A} (r : Result A) : M A :=
  fun h =>
    match r with
    | Returned a => (Done a, h)
    | Thrown e => (Throw e, h)
    end.

Notation "x <- m ;; k" := (bind m (fun x => k))
  (at level 61, m at next level, right associativity).
Notation "m ;;; k" := (bind m (fun _ => k))
  (at level 61, right associativity).

Fixpoint forEach {A} (l : list A) (body : A -> M unit) : M unit :=
  match l with
  | [] => ret tt
  | x :: l' => body x ;;; forEach l' body
  end.

Definition index (buffer : Buffer) (i : Z) : M (option byte) :=
  fun h =>
    match byteAt buffer i with
    | Some b => (Done (Some b), h)
    | None => (Done None,
               {| hJar := hJar h; hCookies := hCookies h; hOob := S (hOob h) |})
    end.

(** The three extractors share these lines:
    [jar[name] = value; if (name === 'auth_token' && !cookies.authToken) ...
     else if (name === 'ct0' && !cookies.ct0) ...]. *)
Definition storeCookie (name value : jsstring) : M unit :=
  fun h =>
    let c := hCookies h in
    (Done tt,
     {| hJar := jarSet name value (hJar h);
        hCookies :=
          if str_eqb name (js "auth_token") && negb (truthy (authToken c))
          then setAuthToken value c
          else if str_eqb name (js "ct0") && negb (truthy (ct0 c))
          then setCt0 value c
          else c;
        hOob := hOob h |}).

(** ** The Safari container parser

    The numbers of the parser are lengths, unsigned 32-bit values and sums of
    two or three of them: all below 2^53, where the arithmetic of JavaScript
    numbers is exact, so they are integers here. *)

Definition SAFARI_COOKIE_DOMAINS : list jsstring := [js "x.com"; js "twitter.com"].

Definition SAFARI_PAGE_SIGNATURE : Buffer := [x00; x00; x01; x00].

Definition matchesSafariDomain `{Platform} (domain : option jsstring) : bool :=
  match domain with
  | None | Some [] => false
  | Some d =>
      let normalized :=
        toLowerCase (if startsWith d (js ".") then tl d else d) in
      existsb (fun target =>
                 str_eqb normalized target
                 || endsWith normalized (js "." ++ target))
              SAFARI_COOKIE_DOMAINS
  end.

Definition isNul (b : option byte) : bool :=
  match b with
  | Some x => byteZ x =? 0
  | None => false
  end.

(** [while (cursor < end && buffer[cursor] !== 0) cursor += 1] *)
Fixpoint scanNul (fuel : nat) (buffer : Buffer) (cursor end_ : Z) : M Z :=
  if cursor <? end_ then
    b <- index buffer cursor ;;
    if isNul b then ret cursor
    else match fuel with
         | O => outOfFuel
         | S fuel' => scanNul fuel' buffer (cursor + 1) end_
         end
  else ret cursor.

Definition readSafariCString (fuel : nat) (buffer : Buffer) (start end_ : Z)
  : M (option jsstring) :=
  if (start <? 0) || (end_ <=? start) then ret None
  else
    cursor <- scanNul fuel buffer start end_ ;;
    if end_ <=? cursor then ret None
    else ret (Some (toStringUtf8 buffer start cursor)).

(** The name and value a record contributes to the jar, once its three
    strings are read. *)
Definition safariCookieEntry `{Platform} (domain name value : option jsstring)
  : option (jsstring * jsstring) :=
  if negb (truthy name) || negb (truthy value) || negb (matchesSafariDomain domain)
  then None
  else match name, normalizeValue value with
       | Some n, Some normalizedValue => Some (n, normalizedValue)
       | _, _ => None
       end.

Definition parseSafariCookieRecord `{Platform} (fuel : nat) (page : Buffer) (offset : Z)
  : M unit :=
  if (offset <? 0) || (blength page <? offset + 4) then ret tt
  else
    recordSize <- call (readUInt32LE page offset) ;;
    let recordEnd := offset + recordSize in
    if (recordSize <=? 0) || (blength page <? recordEnd) then ret tt
    else
      let headerStart := offset + 4 in
      let headerSize := 4 + 4 + 4 + 4 + 4 + 4 + 4 in
      if recordEnd <? headerStart + headerSize then ret tt
      else
        domainOffset <- call (readUInt32LE page (headerStart + 12)) ;;
        nameOffset <- call (readUInt32LE page (headerStart + 16)) ;;
        valueOffset <- call (readUInt32LE page (headerStart + 24)) ;;
        domain <- readSafariCString fuel page (offset + domainOffset) recordEnd ;;
        name <- readSafariCString fuel page (offset + nameOffset) recordEnd ;;
        value <- readSafariCString fuel page (offset + valueOffset) recordEnd ;;
        match safariCookieEntry domain name value with
        | None => ret tt
        | Some (n, normalizedValue) => storeCookie n normalizedValue
        end.

(** The loop that collects the record offsets of a page; [None] is the
    [return] taken when the table runs past the page. *)
Fixpoint readRecordOffsets (fuel : nat) (page : Buffer) (cookieCount i cursor : Z)
  (offsets : list Z) : M (option (list Z)) :=
  if i <? cookieCount then
    if blength page <? cursor + 4 then ret None
    else match fuel with
         | O => outOfFuel
         | S fuel' =>
             offset <- call (readUInt32LE page cursor) ;;
             readRecordOffsets fuel' page cookieCount (i + 1) (cursor + 4)
                               (offsets ++ [offset])
         end
  else ret (Some offsets).

Definition buffer_eqb (a b : Buffer) : bool :=
  str_eqb (map byteZ a) (map byteZ b).

Definition parseSafariCookiePage `{Platform} (fuel : nat) (page : Buffer) : M unit :=
  if blength page <? 12 then ret tt
  else if negb (buffer_eqb (subarray page 0 4) SAFARI_PAGE_SIGNATURE) then ret tt
  else
    cookieCount <- call (readUInt32LE page 4) ;;
    if cookieCount =? 0 then ret tt
    else
      r <- readRecordOffsets fuel page cookieCount 0 8 [] ;;
      match r with
      | None => ret tt
      | Some offsets => forEach offsets (parseSafariCookieRecord fuel page)
      end.

(** The loop that collects the page sizes, with the cursor it ends at. *)
Fixpoint readPageSizes (fuel : nat) (data : Buffer) (pageCount i cursor : Z)
  (pageSizes : list Z) : M (option (list Z * Z)) :=
  if i <? pageCount then
    if blength data <? cursor + 4 then ret None
    else match fuel with
         | O => outOfFuel
         | S fuel' =>
             pageSize <- call (readUInt32BE data cursor) ;;
             readPageSizes fuel' data pageCount (i + 1) (cursor + 4)
                           (pageSizes ++ [pageSize])
         end
  else ret (Some (pageSizes, cursor)).

Fixpoint parsePages `{Platform} (fuel : nat) (data : Buffer) (pageSizes : list Z)
  (cursor : Z) : M unit :=
  match pageSizes with
  | [] => ret tt
  | pageSize :: rest =>
      if blength data <? cursor + pageSize then ret tt
      else
        parseSafariCookiePage fuel (subarray data cursor (cursor + pageSize)) ;;;
        parsePages fuel data rest (cursor + pageSize)
  end.

Definition parseSafariCookies `{Platform} (fuel : nat) (data : Buffer) : M unit :=
  if blength data <? 8 then ret tt
  else if negb (str_eqb (toStringUtf8 data 0 4) (js "cook")) then ret tt
  else
    pageCount <- call (readUInt32BE data 4) ;;
    r <- readPageSizes fuel data pageCount 0 8 [] ;;
    match r with
    | None => ret tt
    | Some (pageSizes, cursor) => parsePages fuel data pageSizes cursor
    end.

(** Every loop of the parser advances through the buffer, so the length of
    the file bounds the iterations of each. *)
Definition safariFuel (data : Buffer) : nat := S (List.length data).

(** ** The host

    What the module reads from outside: the environment, the file system, the
    sqlite3 and security commands and the cipher of node:crypto.  A call that
    can throw returns a [Result]. *)

Record World := {
  (** [process.env[key]] *)
  env : jsstring -> option jsstring;
  (** the result of [getSafariCookiesPath()] *)
  getSafariCookiesPath : option jsstring;
  (** the temporary copy of the Safari file, read whole *)
  readCookieFile : jsstring -> Result Buffer;
  (** [join(home, 'Library', ..., profileDir, 'Cookies')] *)
  chromeProfilePath : jsstring -> jsstring;
  existsSync : jsstring -> bool;
  (** the temporary copy of a Chrome database and the sqlite3 query on it *)
  chromeQuery : jsstring -> Result jsstring;
  (** the result of [getFirefoxCookiesPath(profile)]; readdirSync can throw
      in it *)
  getFirefoxCookiesPath : option jsstring -> Result (option jsstring);
  (** the temporary copy of a Firefox database and the sqlite3 query on it *)
  firefoxQuery : jsstring -> Result jsstring;
  (** the output of the security command for "Chrome Safe Storage" *)
  keychain : Result jsstring;
  (** PBKDF2 (salt "saltysalt", 1003 rounds, 16 bytes, SHA-1) of the
      passphrase, then AES-128-CBC decryption with the IV of sixteen spaces
      and padding removal *)
  decipher : jsstring -> Buffer -> Result Buffer
}.

(** ** The Chrome value decryptor *)

Definition isHexDigit (c : Z) : bool :=
  inRange 48 57 c || inRange 97 102 c || inRange 65 70 c.

(** [s.match(/[a-f0-9]{32,}/i)]: the match at the leftmost position where
    one exists, extended as far as it goes. *)
Fixpoint matchHexRun (s : jsstring) : option jsstring :=
  match s with
  | [] => None
  | _ :: s' =>
      let run := takeWhile isHexDigit s in
      if 32 <=? Z.of_nat (List.length run) then Some run else matchHexRun s'
  end.

Definition isPrintable (c : Z) : bool := inRange 32 126 c.

(** [s.replace(/[^\x20-\x7E]/g, '')] *)
Definition stripNonPrintable (s : jsstring) : jsstring := filter isPrintable s.

Definition tryCatch {A} (body : Result A) (handler : jsstring -> Result A)
  : Result A :=
  match body with
  | Thrown e => handler e
  | Returned a => Returned a
  end.

Definition isVersionTag (version : jsstring) : bool :=
  str_eqb version (js "v10") || str_eqb version (js "v11").

(** The body of the [try] block of decryptCookieValue. *)
Definition decryptCookieValueBody (w : World) (encryptedHex : jsstring)
  : Result (option jsstring) :=
  let encryptedValue := hexDecode encryptedHex in
  if blength encryptedValue <? 4 then Returned None
  else
    let version := toStringUtf8 encryptedValue 0 3 in
    if negb (isVersionTag version) then Returned (Some (utf8Decode encryptedValue))
    else
      match keychain w with
      | Thrown e => Thrown e
      | Returned output =>
          let keyOutput := trim output in
          if negb (nonEmpty keyOutput) then Returned None
          else
            let encryptedData :=
              subarray encryptedValue 3 (blength encryptedValue) in
            match decipher w keyOutput encryptedData with
            | Thrown e => Thrown e
            | Returned decrypted =>
                let decryptedStr := utf8Decode decrypted in
                match matchHexRun decryptedStr with
                | Some hexMatch => Returned (Some hexMatch)
                | None => Returned (Some (stripNonPrintable decryptedStr))
                end
            end
      end.

Definition decryptCookieValue (w : World) (encryptedHex : jsstring)
  : Result (option jsstring) :=
  tryCatch (decryptCookieValueBody w encryptedHex) (fun _ => Returned None).

(** ** The three extractors *)

Definition newHeap : Heap := {| hJar := []; hCookies := noCookies; hOob := 0 |}.

(** The lines that end the [try] block of each extractor: the header is
    set when the jar has a property, the source when a token was found. *)
Definition finishExtraction `{Platform} (label : jsstring) : M unit :=
  fun h =>
    let c := hCookies h in
    let c1 :=
      match hJar h with
      | [] => c
      | _ :: _ => setCookieHeader (serializeCookieJar (hJar h)) c
      end in
    let c2 :=
      if truthy (authToken c1) || truthy (ct0 c1) then setSource label c1 else c1 in
    (Done tt, {| hJar := hJar h; hCookies := c2; hOob := hOob h |}).

(** The [try]/[catch] of an extractor, run on a fresh jar and cookies object,
    and the warning it adds when no token was found. *)
Definition runExtraction (body : M unit) (failure nothingFound : jsstring)
  : Outcome CookieExtractionResult :=
  let conclude (c : TwitterCookies) (ws : list jsstring) :=
    {| cookies := c;
       warnings :=
         if negb (truthy (authToken c)) && negb (truthy (ct0 c))
         then ws ++ [nothingFound] else ws |} in
  match body newHeap with
  | (Done _, h) => Done (conclude (hCookies h) [])
  | (Throw message, h) => Done (conclude (hCookies h) [failure ++ message])
  | (OutOfFuel, _) => OutOfFuel
  end.

Definition safariTry `{Platform} (w : World) (cookiesPath : jsstring) : M unit :=
  data <- call (readCookieFile w cookiesPath) ;;
  parseSafariCookies (safariFuel data) data ;;;
  finishExtraction (js "Safari").

Definition extractCookiesFromSafari `{Platform} (w : World)
  : Outcome CookieExtractionResult :=
  match getSafariCookiesPath w with
  | None | Some [] =>
      Done {| cookies := noCookies;
              warnings := [js "Safari cookies database not found."] |}
  | Some cookiesPath =>
      runExtraction (safariTry w cookiesPath)
        (js "Failed to read Safari cookies: ")
        (js "No Twitter cookies found in Safari. Make sure you are logged into x.com in Safari.")
  end.

Definition getChromeCookiesPath (w : World) (profile : option jsstring) : jsstring :=
  chromeProfilePath w
    (match profile with
     | Some (c :: p) => c :: p
     | _ => js "Default"
     end).

Definition chromeRow (w : World) (line : jsstring) : M unit :=
  match split 124 line with
  | name :: encryptedHex :: _ =>
      if negb (nonEmpty name) || negb (nonEmpty encryptedHex) then ret tt
      else
        decryptedValue <- call (decryptCookieValue w encryptedHex) ;;
        match decryptedValue with
        | Some (c :: v) => storeCookie name (c :: v)
        | _ => ret tt
        end
  | _ => ret tt
  end.

Definition profileLabel (browser : jsstring) (profile : option jsstring) : jsstring :=
  match profile with
  | Some (c :: p) => browser ++ js " profile " ++ [34] ++ (c :: p) ++ [34]
  | _ => browser ++ js " default profile"
  end.

(** The rows of a sqlite3 answer, run through the body of the loop. *)
Definition forEachRow (output : jsstring) (row : jsstring -> M unit) : M unit :=
  let result := trim output in
  if nonEmpty result then forEach (split 10 result) row else ret tt.

Definition chromeTry `{Platform} (w : World) (profile : option jsstring)
  (cookiesPath : jsstring) : M unit :=
  output <- call (chromeQuery w cookiesPath) ;;
  forEachRow output (chromeRow w) ;;;
  finishExtraction (profileLabel (js "Chrome") profile).

Definition extractCookiesFromChrome `{Platform} (w : World) (profile : option jsstring)
  : Outcome CookieExtractionResult :=
  let cookiesPath := getChromeCookiesPath w profile in
  if negb (existsSync w cookiesPath) then
    Done {| cookies := noCookies;
            warnings := [js "Chrome cookies database not found at: " ++ cookiesPath] |}
  else
    runExtraction (chromeTry w profile cookiesPath)
      (js "Failed to read Chrome cookies: ")
      (js "No Twitter cookies found in Chrome. Make sure you are logged into x.com in Chrome.").

Definition firefoxRow (line : jsstring) : M unit :=
  match split 124 line with
  | name :: value :: _ =>
      if negb (nonEmpty name) || negb (nonEmpty value) then ret tt
      else storeCookie name value
  | _ => ret tt
  end.

Definition firefoxTry `{Platform} (w : World) (profile : option jsstring)
  (cookiesPath : jsstring) : M unit :=
  output <- call (firefoxQuery w cookiesPath) ;;
  forEachRow output firefoxRow ;;;
  finishExtraction (profileLabel (js "Firefox") profile).

Definition extractCookiesFromFirefox `{Platform} (w : World) (profile : option jsstring)
  : Outcome CookieExtractionResult :=
  match getFirefoxCookiesPath w profile with
  | Thrown e => Throw e
  | Returned None | Returned (Some []) =>
      Done {| cookies := noCookies;
              warnings := [js "Firefox cookies database not found."] |}
  | Returned (Some cookiesPath) =>
      runExtraction (firefoxTry w profile cookiesPath)
        (js "Failed to read Firefox cookies: ")
        (js "No Twitter cookies found in Firefox. Make sure you are logged into x.com in Firefox and the profile exists.")
  end.

(** ** The credential resolver *)

Inductive CookieSourceOption :=
| NoSource
| OneSource (s : CookieSource)
| SourceList (l : list CookieSource).

Record Options := {
  optAuthToken : option jsstring;
  optCt0 : option jsstring;
  optCookieSource : CookieSourceOption;
  chromeProfile : option jsstring;
  firefoxProfile : option jsstring
}.

(** Step 1: the explicit arguments. *)
Definition applyArguments (options : Options) : TwitterCookies :=
  let c1 :=
    if truthy (optAuthToken options)
    then {| authToken := optAuthToken options; ct0 := None;
            cookieHeader := None; source := Some (js "CLI argument") |}
    else noCookies in
  if truthy (optCt0 options)
  then {| authToken := authToken c1; ct0 := optCt0 options;
          cookieHeader := None;
          source := if truthy (source c1) then source c1
                    else Some (js "CLI argument") |}
  else c1.

(** [for (const key of keys) { const value = normalizeValue(process.env[key]);
    if (value) { ...; break; } }]: the key and value the loop stops at. *)
Fixpoint firstEnv (w : World) (keys : list jsstring) : option (jsstring * jsstring) :=
  match keys with
  | [] => None
  | key :: rest =>
      match normalizeValue (env w key) with
      | Some value => Some (key, value)
      | None => firstEnv w rest
      end
  end.

Definition envAuthKeys : list jsstring := [js "AUTH_TOKEN"; js "TWITTER_AUTH_TOKEN"].
Definition envCt0Keys : list jsstring := [js "CT0"; js "TWITTER_CT0"].

(** Step 2: the environment, for the fields the arguments left empty. *)
Definition applyEnvironment (w : World) (c : TwitterCookies) : TwitterCookies :=
  let c1 :=
    if negb (truthy (authToken c)) then
      match firstEnv w envAuthKeys with
      | Some (key, value) => setSource (js "env " ++ key) (setAuthToken value c)
      | None => c
      end
    else c in
  if negb (truthy (ct0 c1)) then
    match firstEnv w envCt0Keys with
    | Some (key, value) =>
        let c2 := setCt0 value c1 in
        if negb (truthy (source c2)) then setSource (js "env " ++ key) c2 else c2
    | None => c1
    end
  else c1.

Definition directHeader (c : TwitterCookies) : jsstring :=
  js "auth_token=" ++ match authToken c with Some a => a | None => [] end
  ++ js "; ct0=" ++ match ct0 c with Some t => t | None => [] end.

Definition sourcesToTry (options : Options) : list CookieSource :=
  match optCookieSource options with
  | SourceList l => l
  | OneSource s => [s]
  | NoSource => [safari; chrome; firefox]
  end.

Definition extractFrom `{Platform} (w : World) (options : Options) (s : CookieSource)
  : Outcome CookieExtractionResult :=
  match s with
  | safari => extractCookiesFromSafari w
  | chrome => extractCookiesFromChrome w (chromeProfile options)
  | firefox => extractCookiesFromFirefox w (firefoxProfile options)
  end.

(** What resolveCredentials yields, with the browser extractors it called,
    in the order of the calls. *)
Record Resolution := {
  outcome : Outcome CookieExtractionResult;
  probed : list CookieSource
}.

Definition isComplete (c : TwitterCookies) : bool :=
  truthy (authToken c) && truthy (ct0 c).

(** The end of resolveCredentials, reached when the loop over the sources
    finishes. *)
Definition validation (c : TwitterCookies) (ws : list jsstring) : CookieExtractionResult :=
  let ws1 :=
    if negb (truthy (authToken c))
    then ws ++ [js "Missing auth_token - provide via --auth-token, AUTH_TOKEN env var, or login to x.com in Safari/Chrome/Firefox"]
    else ws in
  let ws2 :=
    if negb (truthy (ct0 c))
    then ws1 ++ [js "Missing ct0 - provide via --ct0, CT0 env var, or login to x.com in Safari/Chrome/Firefox"]
    else ws1 in
  {| cookies := if isComplete c then setCookieHeader (directHeader c) c else c;
     warnings := ws2 |}.

(** The loop over the sources. *)
Fixpoint cascade `{Platform} (w : World) (options : Options) (c : TwitterCookies)
  (sources : list CookieSource) (ws : list jsstring) (calls : list CookieSource)
  : Resolution :=
  match sources with
  | [] => {| outcome := Done (validation c ws); probed := calls |}
  | s :: rest =>
      match extractFrom w options s with
      | Done r =>
          let ws' := ws ++ warnings r in
          if isComplete (cookies r)
          then {| outcome := Done {| cookies := cookies r; warnings := ws' |};
                  probed := calls ++ [s] |}
          else cascade w options c rest ws' (calls ++ [s])
      | Throw e => {| outcome := Throw e; probed := calls ++ [s] |}
      | OutOfFuel => {| outcome := OutOfFuel; probed := calls ++ [s] |}
      end
  end.

(** The cookies object as steps 1 and 2 leave it. *)
Definition beforeCascade (w : World) (options : Options) : TwitterCookies :=
  applyEnvironment w (applyArguments options).

Definition resolveCredentials `{Platform} (w : World) (options : Options) : Resolution :=
  let c := beforeCascade w options in
  if isComplete c
  then {| outcome := Done {| cookies := setCookieHeader (directHeader c) c;
                             warnings := [] |};
          probed := [] |}
  else cascade w options c (sourcesToTry options) [] [].

(** ** Notions used in the statements *)

(** The tokens and the label that steps 1 and 2 leave, in closed form. *)
Definition tokenFrom (w : World) (argument : option jsstring) (keys : list jsstring)
  : option jsstring :=
  if truthy argument then argument else option_map snd (firstEnv w keys).

Definition labelFrom (w : World) (options : Options) : option jsstring :=
  if truthy (optAuthToken options) then Some (js "CLI argument")
  else match firstEnv w envAuthKeys with
       | Some (key, _) => Some (js "env " ++ key)
       | None =>
           if truthy (optCt0 options) then Some (js "CLI argument")
           else match firstEnv w envCt0Keys with
                | Some (key, _) => Some (js "env " ++ key)
                | None => None
                end
       end.

(** A source that is called, returns, and lacks a token. *)
Definition incomplete `{Platform} (w : World) (options : Options) (s : CookieSource)
  : Prop :=
  exists r, extractFrom w options s = Done r /\ isComplete (cookies r) = false.

(** The warnings of a source that returns. *)
Definition warningsOf `{Platform} (w : World) (options : Options) (s : CookieSource)
  : list jsstring :=
  match extractFrom w options s with
  | Done r => warnings r
  | _ => []
  end.

(** A run of hexadecimal digits inside [text] that cannot be extended. *)
Definition maximalHexRun (text run : jsstring) : Prop :=
  exists before after,
    text = before ++ run ++ after
    /\ forallb isHexDigit run = true
    /\ (before = [] \/ exists b x, before = b ++ [x] /\ isHexDigit x = false)
    /\ (after = [] \/ exists x a, after = x :: a /\ isHexDigit x = false).

(** [text] has a run of at least 32 hexadecimal digits. *)
Definition hasHexRun (text : jsstring) : Prop :=
  exists before run after,
    text = before ++ run ++ after
    /\ forallb isHexDigit run = true
    /\ (32 <= List.length run)%nat.

(** A buffer that starts with "v10" or "v11". *)
Definition versionPrefixed (encryptedValue : Buffer) : Prop :=
  firstn 3 encryptedValue = list_byte_of_string "v10"
  \/ firstn 3 encryptedValue = list_byte_of_string "v11".

(** The recovery step in the words of the specification: the longest run of
    at least 32 lowercase hexadecimal digits, or else the text without what
    is not printable ASCII. *)
Definition isLowerHexDigit (c : Z) : bool := inRange 48 57 c || inRange 97 102 c.

Fixpoint longestRun (p : Z -> bool) (s : jsstring) : jsstring :=
  match s with
  | [] => []
  | _ :: s' =>
      let here := takeWhile p s in
      let later := longestRun p s' in
      if (List.length later <=? List.length here)%nat then here else later
  end.

Definition spec_recoverValue (text : jsstring) : jsstring :=
  let run := longestRun isLowerHexDigit text in
  if (32 <=? List.length run)%nat then run else stripNonPrintable text.

(** [stores h h'] holds when [h'] is [h] after some cookies with non-empty
    values were stored; a computation is [quiet] when it returns, on every
    heap, after such stores only. *)
Inductive stores : Heap -> Heap -> Prop :=
| stores_refl h : stores h h
| stores_step h name value h' :
    value <> [] -> stores (snd (storeCookie name value h)) h' -> stores h h'.

Definition quiet {A} (m : M A) : Prop :=
  forall h, exists a h', m h = (Done a, h') /\ stores h h'.

(** A computation is [pure] when it returns and leaves the heap as it is. *)
Definition pure {A} (m : M A) : Prop := forall h, exists a, m h = (Done a, h).

(** A domain without its leading dot, if it has one. *)
Definition stripLeadingDot (domain : jsstring) : jsstring :=
  match domain with
  | 46 :: rest => rest
  | _ => domain
  end.

(** The allow-list: the domain, without a leading dot and in lower case, is
    a target or ends with a dot and a target. *)
Definition allowListed `{Platform} (domain : jsstring) : Prop :=
  exists target,
    In target SAFARI_COOKIE_DOMAINS
    /\ (toLowerCase (stripLeadingDot domain) = target
        \/ exists sub, toLowerCase (stripLeadingDot domain) = sub ++ js "." ++ target).

(** [jar[name]], for a name that is an own property or is absent. *)
Fixpoint jarGet (name : jsstring) (jar : Jar) : option jsstring :=
  match jar with
  | [] => None
  | (k, v) :: rest => if str_eqb k name then Some v else jarGet name rest
  end.

(** The name and value a Chrome row contributes: its value decrypts to a
    string that is not empty. *)
Definition chromeEntry (w : World) (line : jsstring) : option (jsstring * jsstring) :=
  match split 124 line with
  | name :: encryptedHex :: _ =>
      if nonEmpty name && nonEmpty encryptedHex then
        match decryptCookieValue w encryptedHex with
        | Returned (Some (c :: v)) => Some (name, c :: v)
        | _ => None
        end
      else None
  | _ => None
  end.

(** The rows of a sqlite3 answer. *)
Definition rowsOf (output : jsstring) : list jsstring :=
  if nonEmpty (trim output) then split 10 (trim output) else [].

Fixpoint keep {A} (l : list (option A)) : list A :=
  match l with
  | [] => []
  | Some a :: l' => a :: keep l'
  | None :: l' => keep l'
  end.

Definition chromeEntries (w : World) (lines : list jsstring)
  : list (jsstring * jsstring) :=
  keep (map (chromeEntry w) lines).

(** The heap after the entries are stored, first to last. *)
Definition storeAll (entries : list (jsstring * jsstring)) (h : Heap) : Heap :=
  fold_left (fun h e => snd (storeCookie (fst e) (snd e) h)) entries h.

Definition named (name : jsstring) (e : jsstring * jsstring) : bool :=
  str_eqb (fst e) name.

Definition absentOrTruthy (v : option jsstring) : Prop :=
  v = None \/ truthy v = true.

(** What holds of a heap between the start of an extraction and its last
    lines: no header and no label yet, tokens that are absent or not empty, a
    jar with an entry once a token is found, and no empty value in it. *)
Definition heapInv (h : Heap) : Prop :=
  cookieHeader (hCookies h) = None
  /\ source (hCookies h) = None
  /\ absentOrTruthy (authToken (hCookies h))
  /\ absentOrTruthy (ct0 (hCookies h))
  /\ (authToken (hCookies h) <> None \/ ct0 (hCookies h) <> None -> hJar h <> [])
  /\ Forall (fun e => snd e <> []) (hJar h).

(** The heap that ends an extraction which found the jar and the cookies of
    [h]. *)
Definition finished `{Platform} (label : jsstring) (h : Heap) : Heap :=
  snd (finishExtraction label h).

Definition leP {A} (le : A -> A -> bool) (a b : A) : Prop := le a b = true.

(** The order of the names in a serialized jar. *)
Definition byName `{Platform} (a b : jsstring * jsstring) : Prop :=
  localeCompare (fst a) (fst b) <> Gt.

(** The header an extraction sets for a jar. *)
Definition jarHeader `{Platform} (jar : Jar) : option jsstring :=
  match jar with
  | [] => None
  | _ :: _ => Some (serializeCookieJar jar)
  end.

(** The [try] block that the extractor of a source runs, when the store of
    the source is found. *)
Definition tryBlockOf `{Platform} (w : World) (options : Options) (s : CookieSource)
  : option (M unit) :=
  match s with
  | safari =>
      match getSafariCookiesPath w with
      | Some (c :: p) => Some (safariTry w (c :: p))
      | _ => None
      end
  | chrome =>
      let cookiesPath := getChromeCookiesPath w (chromeProfile options) in
      if existsSync w cookiesPath
      then Some (chromeTry w (chromeProfile options) cookiesPath)
      else None
  | firefox =>
      match getFirefoxCookiesPath w (firefoxProfile options) with
      | Returned (Some (c :: p)) =>
          Some (firefoxTry w (firefoxProfile options) (c :: p))
      | _ => None
      end
  end.

(** The jar that the extractor of a source ends with. *)
Definition discoveredJar `{Platform} (w : World) (options : Options) (s : CookieSource)
  : Jar :=
  match tryBlockOf w options s with
  | Some body => hJar (snd (body newHeap))
  | None => []
  end.

(** What holds of the heap an extraction ends with. *)
Definition goodEnd `{Platform} (h : Heap) : Prop :=
  cookieHeader (hCookies h) = jarHeader (hJar h)
  /\ (authToken (hCookies h) <> None \/ ct0 (hCookies h) <> None -> hJar h <> [])
  /\ Forall (fun e => snd e <> []) (hJar h).

(** The bytes of a region before its first NUL byte, when it has one. *)
Fixpoint untilNul (bytes : list byte) : option (list byte) :=
  match bytes with
  | [] => None
  | b :: rest =>
      if byteZ b =? 0 then Some [] else option_map (cons b) (untilNul rest)
  end.

(** The C string of a buffer that starts at [start] and ends before [end_]:
    the text before the first NUL byte of the region. *)
Definition cstringAt (buffer : Buffer) (start end_ : Z) : option jsstring :=
  if start <? 0 then None
  else option_map utf8Decode (untilNul (subarray buffer start end_)).

(** The little-endian 32-bit field of a page at an index, when the page has
    its four bytes. *)
Definition fieldAt (page : Buffer) (o : Z) : option Z :=
  match readUInt32LE page o with
  | Returned v => Some v
  | Thrown _ => None
  end.

(** The domain, name and value strings of the record of a page at [offset],
    by the layout of a record: its size at 0, the offsets of the domain, the
    name and the value at 16, 20 and 28, each string running from its offset
    to its NUL byte inside the record.  There is no record when the size
    is below the 32 bytes of these fields or the record does not lie in the
    page. *)
Definition recordStrings (page : Buffer) (offset : Z)
  : option (option jsstring * option jsstring * option jsstring) :=
  match fieldAt page offset, fieldAt page (offset + 16),
        fieldAt page (offset + 20), fieldAt page (offset + 28) with
  | Some recordSize, Some domainOffset, Some nameOffset, Some valueOffset =>
      if (0 <=? offset) && (32 <=? recordSize) && (offset + recordSize <=? blength page)
      then Some (cstringAt page (offset + domainOffset) (offset + recordSize),
                 cstringAt page (offset + nameOffset) (offset + recordSize),
                 cstringAt page (offset + valueOffset) (offset + recordSize))
      else None
  | _, _, _, _ => None
  end.

(** ** Concrete inputs

    A platform to evaluate the definitions with, which lowers the ASCII
    letters and orders names by code unit, and the builders of Safari files
    that tests/cookies.test.ts uses. *)

Definition asciiLower (c : Z) : Z := if inRange 65 90 c then c + 32 else c.

Fixpoint codeUnitCompare (a b : jsstring) : comparison :=
  match a, b with
  | [], [] => Eq
  | [], _ :: _ => Lt
  | _ :: _, [] => Gt
  | x :: a', y :: b' =>
      match x ?= y with
      | Eq => codeUnitCompare a' b'
      | c => c
      end
  end.

Definition asciiPlatform : Platform.
Proof.
  refine {| toLowerCase := map asciiLower;
            localeCompare := codeUnitCompare;
            localeCompare_antisym := _ |}.
  induction a as [|x a IH]; intros [|y b]; simpl; try reflexivity.
  rewrite (Z.compare_antisym x y).
  destruct (x ?= y); simpl; auto.
Defined.

Definition le32 (n : Z) : Buffer :=
  [byteOfZ (n mod 256); byteOfZ ((n / 256) mod 256);
   byteOfZ ((n / 65536) mod 256); byteOfZ ((n / 16777216) mod 256)].

Definition be32 (n : Z) : Buffer := rev (le32 n).

Definition buildSafariCookieRecord (domain name value : string) : Buffer :=
  let domain := list_byte_of_string domain in
  let name := list_byte_of_string name in
  let path := list_byte_of_string "/" in
  let value := list_byte_of_string value in
  let headerSize := 56 in
  let domainOffset := headerSize in
  let nameOffset := domainOffset + blength domain + 1 in
  let pathOffset := nameOffset + blength name + 1 in
  let valueOffset := pathOffset + blength path + 1 in
  let recordSize := valueOffset + blength value + 1 in
  le32 recordSize ++ le32 0 ++ le32 0 ++ le32 0
  ++ le32 domainOffset ++ le32 nameOffset ++ le32 pathOffset ++ le32 valueOffset
  ++ repeat x00 24
  ++ domain ++ [x00] ++ name ++ [x00] ++ path ++ [x00] ++ value ++ [x00].

Fixpoint recordOffsets (cursor : Z) (records : list Buffer) : list Z :=
  match records with
  | [] => []
  | record :: rest => cursor :: recordOffsets (cursor + blength record) rest
  end.

Definition buildSafariCookiesFile (records : list Buffer) : Buffer :=
  let cookieCount := Z.of_nat (List.length records) in
  let headerSize := 4 + 4 + 4 * cookieCount + 4 in
  let page :=
    be32 256 ++ le32 cookieCount
    ++ List.concat (map le32 (recordOffsets headerSize records))
    ++ le32 0 ++ List.concat records in
  list_byte_of_string "cook" ++ be32 1 ++ be32 (blength page) ++ page.

(** A host with no environment, no browser store and no keychain entry. *)
Definition emptyWorld : World :=
  {| env := fun _ => None;
     getSafariCookiesPath := None;
     readCookieFile := fun _ => Thrown (js "ENOENT");
     chromeProfilePath := fun profileDir => js "/Chrome/" ++ profileDir ++ js "/Cookies";
     existsSync := fun _ => false;
     chromeQuery := fun _ => Thrown (js "ENOENT");
     getFirefoxCookiesPath := fun _ => Returned None;
     firefoxQuery := fun _ => Thrown (js "ENOENT");
     keychain := Returned [];
     decipher := fun _ _ => Thrown (js "bad decrypt") |}.

Definition sampleSafariFile : Buffer :=
  buildSafariCookiesFile
    [buildSafariCookieRecord ".x.com" "auth_token" "safari_auth";
     buildSafariCookieRecord ".x.com" "ct0" "safari_ct0";
     buildSafariCookieRecord ".example.com" "sid" "other"].

Definition safariAuthOnlyFile : Buffer :=
  buildSafariCookiesFile
    [buildSafariCookieRecord ".x.com" "auth_token" "safari_auth"].

(** The host of the cascade scenario: Safari holds a session token only,
    Chrome holds both tokens (unencrypted rows), Firefox is absent. *)
Definition cascadeWorld : World :=
  {| env := fun _ => None;
     getSafariCookiesPath := Some (js "/Library/Cookies/Cookies.binarycookies");
     readCookieFile := fun _ => Returned safariAuthOnlyFile;
     chromeProfilePath := fun profileDir => js "/Chrome/" ++ profileDir ++ js "/Cookies";
     existsSync := fun _ => true;
     chromeQuery := fun _ =>
       Returned (js "auth_token|746573745f61757468" ++ [10] ++ js "ct0|746573745f637430");
     getFirefoxCookiesPath := fun _ => Returned None;
     firefoxQuery := fun _ => Thrown (js "ENOENT");
     keychain := Returned [];
     decipher := fun _ _ => Thrown (js "bad decrypt") |}.

Definition noOptions : Options :=
  {| optAuthToken := None; optCt0 := None; optCookieSource := NoSource;
     chromeProfile := None; firefoxProfile := None |}.

(** The host of the priority test: both tokens are in the environment. *)
Definition envWorld : World :=
  {| env := fun key =>
       if str_eqb key (js "AUTH_TOKEN") then Some (js "env_auth")
       else if str_eqb key (js "CT0") then Some (js "env_ct0")
       else None;
     getSafariCookiesPath := None;
     readCookieFile := fun _ => Thrown (js "ENOENT");
     chromeProfilePath := fun profileDir => js "/Chrome/" ++ profileDir ++ js "/Cookies";
     existsSync := fun _ => false;
     chromeQuery := fun _ => Thrown (js "ENOENT");
     getFirefoxCookiesPath := fun _ => Returned None;
     firefoxQuery := fun _ => Thrown (js "ENOENT");
     keychain := Returned [];
     decipher := fun _ _ => Thrown (js "bad decrypt") |}.

(** The cascade scenario with a session token in the environment. *)
Definition cascadeEnvWorld : World :=
  {| env := fun key =>
       if str_eqb key (js "AUTH_TOKEN") then Some (js "env_auth") else None;
     getSafariCookiesPath := getSafariCookiesPath cascadeWorld;
     readCookieFile := readCookieFile cascadeWorld;
     chromeProfilePath := chromeProfilePath cascadeWorld;
     existsSync := existsSync cascadeWorld;
     chromeQuery := chromeQuery cascadeWorld;
     getFirefoxCookiesPath := getFirefoxCookiesPath cascadeWorld;
     firefoxQuery := firefoxQuery cascadeWorld;
     keychain := keychain cascadeWorld;
     decipher := decipher cascadeWorld |}.

(** A host where only Firefox has a store, with a session token and no CSRF
    token. *)
Definition firefoxPartialWorld : World :=
  {| env := fun _ => None;
     getSafariCookiesPath := None;
     readCookieFile := fun _ => Thrown (js "ENOENT");
     chromeProfilePath := fun profileDir => js "/Chrome/" ++ profileDir ++ js "/Cookies";
     existsSync := fun _ => false;
     chromeQuery := fun _ => Thrown (js "ENOENT");
     getFirefoxCookiesPath := fun _ => Returned (Some (js "/firefox/cookies.sqlite"));
     firefoxQuery := fun _ => Returned (js "auth_token|firefox_auth");
     keychain := Returned [];
     decipher := fun _ _ => Thrown (js "bad decrypt") |}.

Definition cliOptions : Options :=
  {| optAuthToken := Some (js "cli_auth"); optCt0 := Some (js "cli_ct0");
     optCookieSource := NoSource; chromeProfile := None; firefoxProfile := None |}.

Definition cliAuthOptions : Options :=
  {| optAuthToken := Some (js "cli_auth"); optCt0 := None;
     optCookieSource := NoSource; chromeProfile := None; firefoxProfile := None |}.

Definition cliCt0Options : Options :=
  {| optAuthToken := None; optCt0 := Some (js "cli_ct0");
     optCookieSource := NoSource; chromeProfile := None; firefoxProfile := None |}.

(** A host whose keychain holds a passphrase and whose cipher yields
    [plaintext]. *)
Definition decipheringWorld (plaintext : Buffer) : World :=
  {| env := fun _ => None;
     getSafariCookiesPath := None;
     readCookieFile := fun _ => Thrown (js "ENOENT");
     chromeProfilePath := fun profileDir => js "/Chrome/" ++ profileDir ++ js "/Cookies";
     existsSync := fun _ => true;
     chromeQuery := fun _ => Returned [];
     getFirefoxCookiesPath := fun _ => Returned None;
     firefoxQuery := fun _ => Thrown (js "ENOENT");
     keychain := Returned (js "peanuts" ++ [10]);
     decipher := fun _ _ => Returned plaintext |}.

(** "v10" and one byte, in hexadecimal. *)
Definition prefixedHex : jsstring := js "76313000".

Definition paddedPlaintext : Buffer :=
  [x01; x02] ++ list_byte_of_string "0123456789abcdef0123456789abcdef01234567".

Definition upperPlaintext : Buffer :=
  list_byte_of_string "xABCDEF0123456789ABCDEF0123456789".

Definition twoRunsPlaintext : Buffer :=
  list_byte_of_string
    "0123456789abcdef0123456789abcdef-aaaaaaaaaabbbbbbbbbbccccccccccdddddddddd".

(** A host where only Chrome has a store, whose query answers [output]. *)
Definition chromeWorld (output : jsstring) : World :=
  {| env := fun _ => None;
     getSafariCookiesPath := None;
     readCookieFile := fun _ => Thrown (js "ENOENT");
     chromeProfilePath := fun profileDir => js "/Chrome/" ++ profileDir ++ js "/Cookies";
     existsSync := fun _ => true;
     chromeQuery := fun _ => Returned output;
     getFirefoxCookiesPath := fun _ => Returned None;
     firefoxQuery := fun _ => Thrown (js "ENOENT");
     keychain := Returned [];
     decipher := fun _ _ => Thrown (js "bad decrypt") |}.

(** Rows for auth_token = "aaaa" and ct0 = "ct00", and the same rows
    followed by a second auth_token row, of value "bbbb". *)
Definition plainRows : jsstring :=
  js "auth_token|61616161" ++ [10] ++ js "ct0|63743030".

Definition duplicateRows : jsstring :=
  plainRows ++ [10] ++ js "auth_token|62626262".

(** A Safari file whose only record, for x.com, has a blank name. *)
Definition blankNameFile : Buffer :=
  buildSafariCookiesFile [buildSafariCookieRecord ".x.com" " " "v"].

(** A container whose header announces 2^32 - 1 pages and holds one page
    size, and the sample file cut in the middle of its second record. *)
Definition protoNameFile : Buffer :=
  buildSafariCookiesFile [buildSafariCookieRecord ".x.com" "__proto__" "v"].

Definition hugeCountFile : Buffer :=
  list_byte_of_string "cook" ++ be32 4294967295 ++ be32 16.

Definition truncatedFile : Buffer := firstn 130 sampleSafariFile.

(** What the Chrome extractor returns in the cascade scenario. *)
Definition chromeResult : CookieExtractionResult :=
  {| cookies :=
       {| authToken := Some (js "test_auth");
          ct0 := Some (js "test_ct0");
          cookieHeader := Some (js "auth_token=test_auth; ct0=test_ct0");
          source := Some (js "Chrome default profile") |};
     warnings := [] |}.

(** ** Notions used in the further properties *)

Definition missingAuthTokenWarning : jsstring :=
  js "Missing auth_token - provide via --auth-token, AUTH_TOKEN env var, or login to x.com in Safari/Chrome/Firefox".

Definition missingCt0Warning : jsstring :=
  js "Missing ct0 - provide via --ct0, CT0 env var, or login to x.com in Safari/Chrome/Firefox".

(** The label an extractor gives to the cookies of a source. *)
Definition sourceLabel (options : Options) (s : CookieSource) : jsstring :=
  match s with
  | safari => js "Safari"
  | chrome => profileLabel (js "Chrome") (chromeProfile options)
  | firefox => profileLabel (js "Firefox") (firefoxProfile options)
  end.

(** The name and value a Firefox row contributes. *)
Definition firefoxEntry (line : jsstring) : option (jsstring * jsstring) :=
  match split 124 line with
  | name :: value :: _ =>
      if nonEmpty name && nonEmpty value then Some (name, value) else None
  | _ => None
  end.

Definition firefoxEntries (lines : list jsstring) : list (jsstring * jsstring) :=
  keep (map firefoxEntry lines).

(** The names of a jar. *)
Definition jarNames (jar : Jar) : list jsstring := map fst jar.

(** The two warnings an extractor can add after its [try] block. *)
Definition failurePrefix (s : CookieSource) : jsstring :=
  match s with
  | safari => js "Failed to read Safari cookies: "
  | chrome => js "Failed to read Chrome cookies: "
  | firefox => js "Failed to read Firefox cookies: "
  end.

Definition nothingFoundWarning (s : CookieSource) : jsstring :=
  match s with
  | safari =>
      js "No Twitter cookies found in Safari. Make sure you are logged into x.com in Safari."
  | chrome =>
      js "No Twitter cookies found in Chrome. Make sure you are logged into x.com in Chrome."
  | firefox =>
      js "No Twitter cookies found in Firefox. Make sure you are logged into x.com in Firefox and the profile exists."
  end.

(** A token was found. *)
Definition tokenFound (c : TwitterCookies) : Prop :=
  authToken c <> None \/ ct0 c <> None.

(** An environment whose variables are set to blank strings, and a host
    with this environment whose browsers answer as those of [cascadeWorld]. *)
Definition blankEnvironment (key : jsstring) : option jsstring :=
  if str_eqb key (js "AUTH_TOKEN") then Some (js "   ")
  else if str_eqb key (js "CT0") then Some []
  else if str_eqb key (js "TWITTER_CT0") then Some [9; 10]
  else None.

Definition blankEnvWorld : World :=
  {| env := blankEnvironment;
     getSafariCookiesPath := getSafariCookiesPath cascadeWorld;
     readCookieFile := readCookieFile cascadeWorld;
     chromeProfilePath := chromeProfilePath cascadeWorld;
     existsSync := existsSync cascadeWorld;
     chromeQuery := chromeQuery cascadeWorld;
     getFirefoxCookiesPath := getFirefoxCookiesPath cascadeWorld;
     firefoxQuery := firefoxQuery cascadeWorld;
     keychain := keychain cascadeWorld;
     decipher := decipher cascadeWorld |}.

(** A host where the search for the Firefox profile throws. *)
Definition firefoxThrowingWorld : World :=
  {| env := fun _ => None;
     getSafariCookiesPath := None;
     readCookieFile := fun _ => Thrown (js "ENOENT");
     chromeProfilePath := fun profileDir => js "/Chrome/" ++ profileDir ++ js "/Cookies";
     existsSync := fun _ => false;
     chromeQuery := fun _ => Thrown (js "ENOENT");
     getFirefoxCookiesPath := fun _ => Thrown (js "EACCES: permission denied, scandir");
     firefoxQuery := fun _ => Thrown (js "ENOENT");
     keychain := Returned [];
     decipher := fun _ _ => Thrown (js "bad decrypt") |}.

(** Values in hexadecimal: "abc" (three bytes), "test_auth", and "v1.0". *)
Definition shortHex : jsstring := js "616263".

Definition legacyHex : jsstring := js "746573745f61757468".

(** A host where only Firefox has a store, whose query answers [output]. *)
Definition firefoxWorld (output : jsstring) : World :=
  {| env := fun _ => None;
     getSafariCookiesPath := None;
     readCookieFile := fun _ => Thrown (js "ENOENT");
     chromeProfilePath := fun profileDir => js "/Chrome/" ++ profileDir ++ js "/Cookies";
     existsSync := fun _ => false;
     chromeQuery := fun _ => Thrown (js "ENOENT");
     getFirefoxCookiesPath := fun _ => Returned (Some (js "/firefox/cookies.sqlite"));
     firefoxQuery := fun _ => Returned output;
     keychain := Returned [];
     decipher := fun _ _ => Thrown (js "bad decrypt") |}.

(** Firefox rows with two values for ct0, and a row without a value. *)
Definition firefoxRows : jsstring :=
  js "ct0|first" ++ [10] ++ js "auth_token|token" ++ [10] ++ js "guest_id|"
  ++ [10] ++ js "ct0|second".

(** What holds of the names of a jar during an extraction: no name twice,
    no name "__proto__", and the name of each token that was found. *)
Definition namesInv (h : Heap) : Prop :=
  NoDup (jarNames (hJar h))
  /\ ~ In (js "__proto__") (jarNames (hJar h))
  /\ (authToken (hCookies h) <> None -> In (js "auth_token") (jarNames (hJar h)))
  /\ (ct0 (hCookies h) <> None -> In (js "ct0") (jarNames (hJar h))).

(** localeCompare tells apart the names of a list: no two different names
    of the list compare as equal; and it is transitive on them. *)
Definition tellsApart `{Platform} (names : list jsstring) : Prop :=
  forall a b, In a names -> In b names -> localeCompare a b = Eq -> a = b.

Definition transitiveOn `{Platform} (names : list jsstring) : Prop :=
  forall a b c,
    In a names -> In b names -> In c names ->
    localeCompare a b <> Gt -> localeCompare b c <> Gt -> localeCompare a c <> Gt.

(** A jar with four cookies, and the same cookies stored in another order. *)
Definition fourCookies : Jar :=
  [(js "ct0", js "c"); (js "auth_token", js "a"); (js "kdt", js "k"); (js "7", js "n")].

Definition fourCookiesShuffled : Jar :=
  [(js "kdt", js "k"); (js "7", js "n"); (js "ct0", js "c"); (js "auth_token", js "a")].

(** [l] lies in [buffer] from index [o] on. *)
Definition placed (buffer : Buffer) (o : Z) (l : Buffer) : Prop :=
  exists pre post, buffer = pre ++ l ++ post /\ blength pre = o.

(** A cookie as the builders of tests/cookies.test.ts take it: the domain,
    the name and the value, each as its UTF-8 bytes. *)
Definition builtRecord (c : string * string * string) : Buffer :=
  buildSafariCookieRecord (fst (fst c)) (snd (fst c)) (snd c).

Definition recordSize (c : string * string * string) : Z :=
  56 + blength (list_byte_of_string (fst (fst c))) + 1
  + blength (list_byte_of_string (snd (fst c))) + 1 + 2
  + blength (list_byte_of_string (snd c)) + 1.

Definition decoded (s : string) : jsstring := utf8Decode (list_byte_of_string s).

(** What the record built for a cookie contributes to the jar. *)
Definition recordEntry `{Platform} (c : string * string * string)
  : option (jsstring * jsstring) :=
  safariCookieEntry (Some (decoded (fst (fst c)))) (Some (decoded (snd (fst c))))
                    (Some (decoded (snd c))).

Definition builtEntries `{Platform} (cs : list (string * string * string))
  : list (jsstring * jsstring) :=
  keep (map recordEntry cs).

Definition nulFree (s : string) : Prop := ~ In x00 (list_byte_of_string s).

Definition wellFormed (c : string * string * string) : Prop :=
  nulFree (fst (fst c)) /\ nulFree (snd (fst c)) /\ nulFree (snd c).

(** Two C strings, one after the other. *)
Definition twoCStrings : Buffer :=
  list_byte_of_string "ct0" ++ [x00] ++ list_byte_of_string "abc" ++ [x00].

Definition sampleCookies : list (string * string * string) :=
  [(".x.com", "auth_token", "safari_auth"); (".x.com", "ct0", "safari_ct0");
   (".example.com", "sid", "other")]%string.

Definition authOnlyCookies : list (string * string * string) :=
  [(".x.com", "auth_token", "safari_auth")]%string.

(** [s.includes(sub)] *)
Fixpoint includes (s sub : jsstring) : bool :=
  startsWith s sub
  || match s with
     | [] => false
     | _ :: s' => includes s' sub
     end.

(** [value || ''] *)
Definition orEmpty (value : option jsstring) : jsstring :=
  match value with
  | Some (c :: s) => c :: s
  | _ => []
  end.

(** ** The places of the browser stores

    The functions that look for the stores, over the calls they make
    besides [process.env] and [existsSync]. *)

Module Paths.

(** An entry of [readdirSync(dir, { withFileTypes: true })]. *)
Record Dirent := {
  name : jsstring;
  isDirectory : bool
}.

(** What the search for the stores reads besides the environment and
    existsSync: [process.platform], [join] of node:path and [readdirSync]. *)
Record FileSystem := {
  platform : jsstring;
  join : list jsstring -> jsstring;
  readdirSync : jsstring -> Result (list Dirent)
}.

Definition getFirefoxProfilesRoot (w : World) (fs : FileSystem) : option jsstring :=
  let home := orEmpty (env w (js "HOME")) in
  if str_eqb (platform fs) (js "darwin") then
    Some (join fs [home; js "Library"; js "Application Support"; js "Firefox";
                   js "Profiles"])
  else if str_eqb (platform fs) (js "linux") then
    Some (join fs [home; js ".mozilla"; js "firefox"])
  else if str_eqb (platform fs) (js "win32") then
    match env w (js "APPDATA") with
    | Some (c :: appData) =>
        Some (join fs [c :: appData; js "Mozilla"; js "Firefox"; js "Profiles"])
    | _ => None
    end
  else None.

Definition cookiesIn (w : World) (fs : FileSystem) (profilesRoot dir : jsstring)
  : option jsstring :=
  let candidate := join fs [profilesRoot; dir; js "cookies.sqlite"] in
  if existsSync w candidate then Some candidate else None.

Definition isDefaultRelease (entry : Dirent) : bool :=
  isDirectory entry && includes (name entry) (js "default-release").

Definition pickFirefoxProfile (w : World) (fs : FileSystem) (profilesRoot : jsstring)
  (profile : option jsstring) : Result (option jsstring) :=
  match profile with
  | Some (c :: p) => Returned (cookiesIn w fs profilesRoot (c :: p))
  | _ =>
      match readdirSync fs profilesRoot with
      | Thrown e => Thrown e
      | Returned entries =>
          let defaultRelease := find isDefaultRelease entries in
          let targetDir :=
            match defaultRelease with
            | Some entry => Some (name entry)
            | None => option_map name (find isDirectory entries)
            end in
          match targetDir with
          | Some (c :: d) => Returned (cookiesIn w fs profilesRoot (c :: d))
          | _ => Returned None
          end
      end
  end.

Definition getFirefoxCookiesPath (w : World) (fs : FileSystem) (profile : option jsstring)
  : Result (option jsstring) :=
  match getFirefoxProfilesRoot w fs with
  | Some (c :: profilesRoot) =>
      if existsSync w (c :: profilesRoot)
      then pickFirefoxProfile w fs (c :: profilesRoot) profile
      else Returned None
  | _ => Returned None
  end.

Definition getSafariCookiesPath (w : World) (fs : FileSystem) : option jsstring :=
  if negb (str_eqb (platform fs) (js "darwin")) then None
  else
    let home := orEmpty (env w (js "HOME")) in
    let candidates :=
      [join fs [home; js "Library"; js "Cookies"; js "Cookies.binarycookies"];
       join fs [home; js "Library"; js "Containers"; js "com.apple.Safari"; js "Data";
                js "Library"; js "Cookies"; js "Cookies.binarycookies"]] in
    find (existsSync w) candidates.

Definition getChromeCookiesPath (w : World) (fs : FileSystem) (profile : option jsstring)
  : jsstring :=
  let home := orEmpty (env w (js "HOME")) in
  let profileDir := match profile with
                    | Some (c :: p) => c :: p
                    | _ => js "Default"
                    end in
  join fs [home; js "Library"; js "Application Support"; js "Google"; js "Chrome";
           profileDir; js "Cookies"].

End Paths.

(** The host whose stores are found by the functions of [Paths]. *)
Definition hostWorld (fs : Paths.FileSystem) (w : World) : World :=
  {| env := env w;
     getSafariCookiesPath := Paths.getSafariCookiesPath w fs;
     readCookieFile := readCookieFile w;
     chromeProfilePath := fun profileDir =>
       Paths.join fs [orEmpty (env w (js "HOME")); js "Library";
                      js "Application Support"; js "Google"; js "Chrome";
                      profileDir; js "Cookies"];
     existsSync := existsSync w;
     chromeQuery := chromeQuery w;
     getFirefoxCookiesPath := Paths.getFirefoxCookiesPath w fs;
     firefoxQuery := firefoxQuery w;
     keychain := keychain w;
     decipher := decipher w |}.

(** A Linux host: a [join] that separates with a slash, a profiles directory
    with a file and two profiles, and every path reported as existing. *)
Definition linuxProfiles : list Paths.Dirent :=
  [ {| Paths.name := js "notes.txt"; Paths.isDirectory := false |};
    {| Paths.name := js "abc.default"; Paths.isDirectory := true |};
    {| Paths.name := js "xyz.default-release"; Paths.isDirectory := true |} ].

Definition linuxFiles : Paths.FileSystem :=
  {| Paths.platform := js "linux";
     Paths.join := fun parts => join (js "/") parts;
     Paths.readdirSync := fun _ => Returned linuxProfiles |}.

Definition linuxWorld : World :=
  {| env := fun key => if str_eqb key (js "HOME") then Some (js "/home/u") else None;
     getSafariCookiesPath := None;
     readCookieFile := fun _ => Thrown (js "ENOENT");
     chromeProfilePath := fun profileDir => js "/Chrome/" ++ profileDir ++ js "/Cookies";
     existsSync := fun _ => true;
     chromeQuery := fun _ => Thrown (js "ENOENT");
     getFirefoxCookiesPath := fun _ => Returned None;
     firefoxQuery := fun _ => Thrown (js "ENOENT");
     keychain := Returned [];
     decipher := fun _ _ => Thrown (js "bad decrypt") |}.

(** * Properties *)

(** ** Strings and values *)

Lemma str_eqb_eq a b : str_eqb a b = true <-> a = b.
Proof.
  revert b; induction a as [|x a IH]; intros [|y b]; simpl;
    try (split; [discriminate | congruence]); [tauto|].
  rewrite andb_true_iff, Z.eqb_eq, IH. split.
  - intros [-> ->]; reflexivity.
  - intros E; injection E; auto.
Qed.

Lemma str_eqb_refl a : str_eqb a a = true.
Proof. apply str_eqb_eq; reflexivity. Qed.

Lemma truthy_inv v : truthy v = true -> exists c s, v = Some (c :: s).
Proof. destruct v as [[|c s]|]; simpl; try discriminate; eauto. Qed.

Lemma normalizeValue_truthy v x : normalizeValue v = Some x -> truthy (Some x) = true.
Proof.
  destruct v as [s|]; simpl; [|discriminate].
  destruct (trim s); [discriminate|]. intros E; injection E as <-; reflexivity.
Qed.

(** ** The resolver before the cascade *)

Lemma firstEnv_truthy w keys key value :
  firstEnv w keys = Some (key, value) -> truthy (Some value) = true.
Proof.
  induction keys as [|k keys IH]; simpl; [discriminate|].
  destruct (normalizeValue (env w k)) eqn:E; auto.
  intros E'; injection E' as <- <-. eapply normalizeValue_truthy; eauto.
Qed.

Lemma beforeCascade_closed w options :
  beforeCascade w options =
  {| authToken := tokenFrom w (optAuthToken options) envAuthKeys;
     ct0 := tokenFrom w (optCt0 options) envCt0Keys;
     cookieHeader := None;
     source := labelFrom w options |}.
Proof.
  unfold beforeCascade, applyEnvironment, applyArguments, tokenFrom, labelFrom.
  destruct (firstEnv w envAuthKeys) as [[ka va]|];
    destruct (firstEnv w envCt0Keys) as [[kc vc]|];
    destruct (truthy (optAuthToken options)) eqn:Ea;
    destruct (truthy (optCt0 options)) eqn:Ec;
    simpl; rewrite ?Ea, ?Ec; simpl; rewrite ?Ea, ?Ec; simpl;
    try reflexivity.
Qed.

Lemma tokenFrom_None_or_truthy w argument keys :
  tokenFrom w argument keys = None \/ truthy (tokenFrom w argument keys) = true.
Proof.
  unfold tokenFrom. destruct (truthy argument) eqn:E; auto.
  destruct (firstEnv w keys) as [[k v]|] eqn:F; simpl; auto.
  right. exact (firstEnv_truthy _ _ _ _ F).
Qed.

Lemma isComplete_inv c :
  isComplete c = true ->
  exists a t, authToken c = Some a /\ ct0 c = Some t /\ a <> [] /\ t <> [].
Proof.
  unfold isComplete. rewrite andb_true_iff. intros [Ha Ht].
  apply truthy_inv in Ha as (x & a & Ha). apply truthy_inv in Ht as (y & t & Ht).
  exists (x :: a), (y :: t). repeat split; auto; discriminate.
Qed.

(** ** The cascade *)

Section Cascade.
Context `{Platform}.
Variable w : World.
Variable options : Options.

Lemma cascade_skips c skipped rest ws calls :
  Forall (incomplete w options) skipped ->
  cascade w options c (skipped ++ rest) ws calls =
  cascade w options c rest (ws ++ flat_map (warningsOf w options) skipped)
          (calls ++ skipped).
Proof.
  intros F; revert ws calls; induction F as [|s skipped (r & Er & Ec) F IH];
    intros ws calls; simpl.
  - rewrite !app_nil_r; reflexivity.
  - rewrite Er, Ec, IH. unfold warningsOf at 2. rewrite Er.
    rewrite <- !app_assoc. reflexivity.
Qed.

Lemma cascade_from c s rest ws calls r :
  extractFrom w options s = Done r ->
  isComplete (cookies r) = true ->
  cascade w options c (s :: rest) ws calls =
  {| outcome := Done {| cookies := cookies r; warnings := ws ++ warnings r |};
     probed := calls ++ [s] |}.
Proof. intros Er Ec; simpl; rewrite Er, Ec; reflexivity. Qed.

End Cascade.

(** ** The resolver *)

Section Resolver.
Context `{Platform}.
Variable w : World.
Variable options : Options.

Lemma beforeCascade_complete a t :
  authToken (beforeCascade w options) = Some a ->
  ct0 (beforeCascade w options) = Some t ->
  isComplete (beforeCascade w options) = true.
Proof.
  rewrite beforeCascade_closed; unfold isComplete; simpl. intros Ea Et.
  destruct (tokenFrom_None_or_truthy w (optAuthToken options) envAuthKeys) as [E|E];
    [congruence|].
  destruct (tokenFrom_None_or_truthy w (optCt0 options) envCt0Keys) as [E'|E'];
    [congruence|].
  rewrite E, E'; reflexivity.
Qed.

Lemma validation_incomplete c ws :
  isComplete c = false -> cookies (validation c ws) = c.
Proof. intros E; unfold validation; simpl; rewrite E; reflexivity. Qed.

(** Where the cookies of a resolution come from: the arguments and the
    environment, or one browser source that has both tokens. *)
Lemma resolveCredentials_origin res :
  outcome (resolveCredentials w options) = Done res ->
  (isComplete (beforeCascade w options) = true
   /\ res = {| cookies := setCookieHeader (directHeader (beforeCascade w options))
                                          (beforeCascade w options);
               warnings := [] |})
  \/ (isComplete (beforeCascade w options) = false
      /\ cookies res = beforeCascade w options)
  \/ (isComplete (beforeCascade w options) = false
      /\ exists s r, In s (sourcesToTry options)
                     /\ extractFrom w options s = Done r
                     /\ isComplete (cookies r) = true
                     /\ cookies res = cookies r).
Proof.
  unfold resolveCredentials.
  destruct (isComplete (beforeCascade w options)) eqn:Ec; simpl.
  - intros E; injection E as <-; left; auto.
  - intros E; right.
    assert (G : forall l ws calls,
               outcome (cascade w options (beforeCascade w options) l ws calls)
               = Done res ->
               cookies res = beforeCascade w options
               \/ exists s r, In s l /\ extractFrom w options s = Done r
                              /\ isComplete (cookies r) = true
                              /\ cookies res = cookies r).
    { induction l as [|s l IH]; intros ws calls; simpl.
      - intros E'; injection E' as <-; left.
        apply validation_incomplete; assumption.
      - destruct (extractFrom w options s) as [r| |] eqn:Er; simpl;
          try discriminate.
        destruct (isComplete (cookies r)) eqn:Ecr; simpl.
        + intros E'; injection E' as <-; right; exists s, r; simpl; auto.
        + intros E'; destruct (IH _ _ E') as [G|(s' & r' & I & G)]; auto.
          right; exists s', r'; auto. }
    destruct (G _ _ _ E) as [G'|G']; auto.
Qed.

End Resolver.

(** C4.  When both tokens are filled by the explicit arguments and the
    environment, resolveCredentials returns at once: no browser extractor is
    called, there is no warning, and the cookie header is
    "auth_token=<authToken>; ct0=<ct0>". *)
Theorem resolveCredentials_direct `{Platform} (w : World) (options : Options)
  (a t : jsstring) :
  authToken (beforeCascade w options) = Some a ->
  ct0 (beforeCascade w options) = Some t ->
  resolveCredentials w options =
  {| outcome :=
       Done {| cookies :=
                 {| authToken := Some a;
                    ct0 := Some t;
                    cookieHeader := Some (js "auth_token=" ++ a ++ js "; ct0=" ++ t);
                    source := source (beforeCascade w options) |};
               warnings := [] |};
     probed := [] |}.
Proof.
  intros Ea Et. unfold resolveCredentials.
  rewrite (beforeCascade_complete w options a t Ea Et).
  unfold setCookieHeader, directHeader. rewrite Ea, Et. reflexivity.
Qed.

(** C10.  When the cascade is exhausted, the returned cookies are the ones
    the explicit arguments and the environment established: no value found by
    a browser source appears in them, and the cookie header is null. *)
Theorem resolveCredentials_exhausted `{Platform} (w : World) (options : Options) :
  isComplete (beforeCascade w options) = false ->
  Forall (incomplete w options) (sourcesToTry options) ->
  resolveCredentials w options =
  {| outcome :=
       Done {| cookies :=
                 {| authToken := tokenFrom w (optAuthToken options) envAuthKeys;
                    ct0 := tokenFrom w (optCt0 options) envCt0Keys;
                    cookieHeader := None;
                    source := source (beforeCascade w options) |};
               warnings :=
                 warnings (validation (beforeCascade w options)
                             (flat_map (warningsOf w options) (sourcesToTry options))) |};
     probed := sourcesToTry options |}.
Proof.
  intros Ec F. unfold resolveCredentials. rewrite Ec.
  rewrite <- (app_nil_r (sourcesToTry options)) at 1.
  rewrite cascade_skips by assumption. cbn [cascade app].
  replace {| authToken := tokenFrom w (optAuthToken options) envAuthKeys;
             ct0 := tokenFrom w (optCt0 options) envCt0Keys;
             cookieHeader := None;
             source := source (beforeCascade w options) |}
    with (beforeCascade w options)
    by (rewrite beforeCascade_closed at 1; rewrite beforeCascade_closed; reflexivity).
  pose proof (validation_incomplete (beforeCascade w options)
                (flat_map (warningsOf w options) (sourcesToTry options)) Ec) as V.
  destruct (validation _ _) as [c ws]; simpl in V; subst c; reflexivity.
Qed.

(** C1.  The first source of the cascade whose result has both tokens
    supplies the whole of the returned cookies; the sources before it, which
    lack a token, contribute their warnings only. *)
Theorem resolveCredentials_first_complete `{Platform} (w : World) (options : Options)
  (skipped rest : list CookieSource) (s : CookieSource) (r : CookieExtractionResult) :
  isComplete (beforeCascade w options) = false ->
  sourcesToTry options = skipped ++ s :: rest ->
  Forall (incomplete w options) skipped ->
  extractFrom w options s = Done r ->
  isComplete (cookies r) = true ->
  resolveCredentials w options =
  {| outcome :=
       Done {| cookies := cookies r;
               warnings := flat_map (warningsOf w options) skipped ++ warnings r |};
     probed := skipped ++ [s] |}.
Proof.
  intros Ec Es F Er Ecr. unfold resolveCredentials. rewrite Ec, Es.
  rewrite cascade_skips by assumption.
  rewrite (cascade_from w options _ s rest _ _ r Er Ecr). reflexivity.
Qed.

(** C5, amended.  The cookies that resolveCredentials returns are those of a
    browser source that has both tokens, or else they carry, for each token,
    the explicit argument when it is given and the first environment variable
    otherwise; in that case the label is "CLI argument" when the session
    token is explicit, and when the CSRF token is explicit and no environment
    variable gives a session token. *)
Theorem resolveCredentials_priority `{Platform} (w : World) (options : Options)
  (res : CookieExtractionResult) :
  outcome (resolveCredentials w options) = Done res ->
  (authToken (cookies res) = tokenFrom w (optAuthToken options) envAuthKeys
   /\ ct0 (cookies res) = tokenFrom w (optCt0 options) envCt0Keys
   /\ (truthy (optAuthToken options) = true ->
       source (cookies res) = Some (js "CLI argument"))
   /\ (truthy (optCt0 options) = true -> firstEnv w envAuthKeys = None ->
       source (cookies res) = Some (js "CLI argument")))
  \/ (isComplete (beforeCascade w options) = false
      /\ exists s r, In s (sourcesToTry options)
                     /\ extractFrom w options s = Done r
                     /\ isComplete (cookies r) = true
                     /\ cookies res = cookies r).
Proof.
  intros E.
  assert (L : (truthy (optAuthToken options) = true ->
               labelFrom w options = Some (js "CLI argument"))
              /\ (truthy (optCt0 options) = true -> firstEnv w envAuthKeys = None ->
                  labelFrom w options = Some (js "CLI argument"))).
  { unfold labelFrom. split.
    - intros ->; reflexivity.
    - intros -> ->. destruct (truthy (optAuthToken options)); reflexivity. }
  destruct (resolveCredentials_origin w options res E)
    as [[_ ->]|[[_ ->]|G]]; auto; left;
    rewrite beforeCascade_closed; simpl; tauto.
Qed.

Lemma resolveCredentials_direct_witness :
  resolveCredentials (H := asciiPlatform) envWorld cliOptions =
  {| outcome :=
       Done {| cookies :=
                 {| authToken := Some (js "cli_auth");
                    ct0 := Some (js "cli_ct0");
                    cookieHeader := Some (js "auth_token=cli_auth; ct0=cli_ct0");
                    source := Some (js "CLI argument") |};
               warnings := [] |};
     probed := [] |}.
Proof.
  exact (resolveCredentials_direct (H := asciiPlatform) envWorld cliOptions
           (js "cli_auth") (js "cli_ct0") eq_refl eq_refl).
Defined.

Lemma resolveCredentials_exhausted_witness :
  resolveCredentials (H := asciiPlatform) firefoxPartialWorld cliCt0Options =
  {| outcome :=
       Done {| cookies :=
                 {| authToken := None;
                    ct0 := Some (js "cli_ct0");
                    cookieHeader := None;
                    source := Some (js "CLI argument") |};
               warnings :=
                 [js "Safari cookies database not found.";
                  js "Chrome cookies database not found at: /Chrome/Default/Cookies";
                  js "Missing auth_token - provide via --auth-token, AUTH_TOKEN env var, or login to x.com in Safari/Chrome/Firefox"] |};
     probed := [safari; chrome; firefox] |}.
Proof.
  refine (eq_trans
            (resolveCredentials_exhausted (H := asciiPlatform)
               firefoxPartialWorld cliCt0Options eq_refl _) _).
  - repeat constructor; eexists; split; vm_compute; reflexivity.
  - vm_compute; reflexivity.
Defined.

Lemma resolveCredentials_first_complete_witness :
  resolveCredentials (H := asciiPlatform) cascadeWorld noOptions =
  {| outcome :=
       Done {| cookies :=
                 {| authToken := Some (js "test_auth");
                    ct0 := Some (js "test_ct0");
                    cookieHeader := Some (js "auth_token=test_auth; ct0=test_ct0");
                    source := Some (js "Chrome default profile") |};
               warnings := [] |};
     probed := [safari; chrome] |}.
Proof.
  refine (eq_trans
            (resolveCredentials_first_complete (H := asciiPlatform)
               cascadeWorld noOptions [safari] [firefox] chrome chromeResult
               eq_refl eq_refl _ _ eq_refl) _).
  - repeat constructor; eexists; split; vm_compute; reflexivity.
  - vm_compute; reflexivity.
  - vm_compute; reflexivity.
Defined.

Lemma resolveCredentials_priority_witness :
  exists res,
    outcome (resolveCredentials (H := asciiPlatform) envWorld cliOptions) = Done res
    /\ authToken (cookies res) = Some (js "cli_auth")
    /\ ct0 (cookies res) = Some (js "cli_ct0")
    /\ source (cookies res) = Some (js "CLI argument").
Proof.
  eexists; split; [vm_compute; reflexivity|].
  destruct (resolveCredentials_priority (H := asciiPlatform) envWorld cliOptions _ eq_refl)
    as [(Ea & Et & Es & _)|(Ec & _)].
  - split; [exact Ea | split; [exact Et | exact (Es eq_refl)]].
  - discriminate Ec.
Defined.

(** C5 as stated fails.  An explicit CSRF token with the session token taken
    from the environment is returned under the label of the environment
    variable; an explicit session token is replaced, with its label, by a
    browser source that has both tokens. *)
Lemma resolveCredentials_priority_counterexample :
  (optCt0 cliCt0Options = Some (js "cli_ct0")
   /\ env envWorld (js "CT0") = Some (js "env_ct0")
   /\ exists res,
        outcome (resolveCredentials (H := asciiPlatform) envWorld cliCt0Options) = Done res
        /\ ct0 (cookies res) = Some (js "cli_ct0")
        /\ source (cookies res) = Some (js "env AUTH_TOKEN")
        /\ source (cookies res) <> Some (js "CLI argument"))
  /\ (optAuthToken cliAuthOptions = Some (js "cli_auth")
      /\ env cascadeEnvWorld (js "AUTH_TOKEN") = Some (js "env_auth")
      /\ exists res,
           outcome (resolveCredentials (H := asciiPlatform) cascadeEnvWorld cliAuthOptions)
           = Done res
           /\ authToken (cookies res) = Some (js "test_auth")
           /\ authToken (cookies res) <> Some (js "cli_auth")
           /\ source (cookies res) <> Some (js "CLI argument")).
Proof.
  split; (split; [reflexivity | split; [reflexivity|]]);
    eexists; (split; [vm_compute; reflexivity|]);
    repeat split; try reflexivity; vm_compute; discriminate.
Qed.

(** ** Buffers *)

Lemma subarray_prefix b n :
  0 <= n <= blength b -> subarray b 0 n = firstn (Z.to_nat n) b.
Proof.
  intros Hn. unfold subarray, clampIndex.
  replace (Z.max 0 (Z.min 0 (blength b))) with 0 by lia.
  replace (Z.max 0 (Z.min n (blength b))) with n by lia.
  rewrite Z.sub_0_r. reflexivity.
Qed.

Lemma subarray_suffix b n :
  0 <= n <= blength b -> subarray b n (blength b) = skipn (Z.to_nat n) b.
Proof.
  intros Hn. unfold subarray, clampIndex.
  replace (Z.max 0 (Z.min n (blength b))) with n by lia.
  replace (Z.max 0 (Z.min (blength b) (blength b))) with (blength b) by lia.
  apply firstn_all2. rewrite length_skipn. unfold blength in *. lia.
Qed.

Lemma blength_subarray b s e : blength (subarray b s e) <= blength b.
Proof.
  unfold subarray, blength. rewrite length_firstn, length_skipn. lia.
Qed.

Lemma firstn_length_le {A} n (l p : list A) :
  firstn n l = p -> (List.length p <= List.length l)%nat.
Proof. intros <-. rewrite length_firstn. lia. Qed.

(** ** The Chrome value decryptor *)

Lemma takeWhile_dropWhile {A} (p : A -> bool) l :
  l = takeWhile p l ++ dropWhile p l.
Proof.
  induction l as [|x l IH]; simpl; [reflexivity|].
  destruct (p x); simpl; [f_equal; exact IH | reflexivity].
Qed.

Lemma takeWhile_forallb {A} (p : A -> bool) l : forallb p (takeWhile p l) = true.
Proof.
  induction l as [|x l IH]; simpl; [reflexivity|].
  destruct (p x) eqn:E; simpl; [rewrite E; exact IH | reflexivity].
Qed.

Lemma dropWhile_head {A} (p : A -> bool) l x rest :
  dropWhile p l = x :: rest -> p x = false.
Proof.
  induction l as [|y l IH]; simpl; [discriminate|].
  destruct (p y) eqn:E; [exact IH|]. intros E'; injection E' as <- _; exact E.
Qed.

Lemma takeWhile_app_length {A} (p : A -> bool) run post :
  forallb p run = true ->
  (List.length run <= List.length (takeWhile p (run ++ post)))%nat.
Proof.
  induction run as [|x run IH]; simpl; [lia|].
  rewrite andb_true_iff; intros [-> F]. simpl. specialize (IH F). lia.
Qed.

Lemma matchHexRun_Some text run :
  matchHexRun text = Some run ->
  maximalHexRun text run /\ (32 <= List.length run)%nat.
Proof.
  revert run; induction text as [|c text IH]; intros run; [discriminate|].
  cbn [matchHexRun].
  destruct (32 <=? Z.of_nat (List.length (takeWhile isHexDigit (c :: text)))) eqn:E.
  - intros E'.
    assert (R : run = takeWhile isHexDigit (c :: text)) by congruence.
    subst run; clear E'. apply Z.leb_le in E. split; [|lia].
    exists [], (dropWhile isHexDigit (c :: text)). repeat split.
    + apply takeWhile_dropWhile.
    + apply takeWhile_forallb.
    + left; reflexivity.
    + destruct (dropWhile isHexDigit (c :: text)) as [|x a] eqn:D; [left; reflexivity|].
      right; exists x, a; split; [reflexivity|]. eapply dropWhile_head; eauto.
  - intros M. apply Z.leb_gt in E.
    destruct (IH _ M) as ((before & after & Et & Fr & Hb & Ha) & L). split; [|exact L].
    exists (c :: before), after. repeat split; auto.
    + simpl; rewrite Et; reflexivity.
    + right. destruct Hb as [->|(b & x & -> & Hx)].
      * exists [], c; split; [reflexivity|].
        destruct (isHexDigit c) eqn:Hc; [|reflexivity]. exfalso.
        simpl in Et. subst text. simpl in E. rewrite Hc in E. simpl in E.
        pose proof (takeWhile_app_length isHexDigit run after Fr). lia.
      * exists (c :: b), x; split; [reflexivity | exact Hx].
Qed.

Lemma matchHexRun_None text : matchHexRun text = None -> ~ hasHexRun text.
Proof.
  induction text as [|c text IH]; intros M (before & run & after & Et & Fr & L).
  - destruct before; [|discriminate]. destruct run; [simpl in L; lia | discriminate].
  - cbn [matchHexRun] in M.
    destruct (32 <=? Z.of_nat (List.length (takeWhile isHexDigit (c :: text)))) eqn:E;
      [discriminate|]. apply Z.leb_gt in E.
    destruct before as [|x before].
    + simpl in Et. rewrite Et in E.
      pose proof (takeWhile_app_length isHexDigit run after Fr). lia.
    + injection Et as _ Et. apply (IH M). exists before, run, after; auto.
Qed.

Lemma decryptCookieValue_returns w encryptedHex :
  exists v, decryptCookieValue w encryptedHex = Returned v.
Proof.
  unfold decryptCookieValue, tryCatch.
  destruct (decryptCookieValueBody w encryptedHex); eauto.
Qed.

Lemma versionPrefixed_tag encryptedValue :
  versionPrefixed encryptedValue ->
  3 <= blength encryptedValue
  /\ isVersionTag (toStringUtf8 encryptedValue 0 3) = true.
Proof.
  intros V.
  assert (L : 3 <= blength encryptedValue).
  { unfold blength. destruct V as [V|V]; apply firstn_length_le in V; simpl in V; lia. }
  split; [exact L|]. unfold toStringUtf8.
  rewrite subarray_prefix by lia. change (Z.to_nat 3) with 3%nat.
  destruct V as [-> | ->]; reflexivity.
Qed.

(** What the [try] block computes for a prefixed value of four bytes or
    more, in terms of the keychain and the cipher. *)
Lemma decryptCookieValueBody_prefixed w encryptedHex :
  versionPrefixed (hexDecode encryptedHex) ->
  4 <= blength (hexDecode encryptedHex) ->
  decryptCookieValueBody w encryptedHex =
  match keychain w with
  | Thrown e => Thrown e
  | Returned output =>
      if negb (nonEmpty (trim output)) then Returned None
      else match decipher w (trim output) (skipn 3 (hexDecode encryptedHex)) with
           | Thrown e => Thrown e
           | Returned decrypted =>
               match matchHexRun (utf8Decode decrypted) with
               | Some hexMatch => Returned (Some hexMatch)
               | None => Returned (Some (stripNonPrintable (utf8Decode decrypted)))
               end
           end
  end.
Proof.
  intros V L. unfold decryptCookieValueBody.
  destruct (versionPrefixed_tag _ V) as [_ T]. rewrite T.
  destruct (Z.ltb_spec (blength (hexDecode encryptedHex)) 4); [lia|].
  rewrite subarray_suffix by lia. reflexivity.
Qed.

(** C8.  For an input with the "v10" or "v11" prefix, the decryptor returns
    null, and does not throw, when the keychain query throws or gives an
    empty passphrase, or when key derivation and decryption throw. *)
Theorem decryptCookieValue_failure (w : World) (encryptedHex : jsstring) :
  versionPrefixed (hexDecode encryptedHex) ->
  (exists e, keychain w = Thrown e)
  \/ (exists output, keychain w = Returned output /\ trim output = [])
  \/ (exists output e,
        keychain w = Returned output
        /\ decipher w (trim output) (skipn 3 (hexDecode encryptedHex)) = Thrown e) ->
  decryptCookieValue w encryptedHex = Returned None.
Proof.
  intros V F. unfold decryptCookieValue.
  destruct (Z.ltb_spec (blength (hexDecode encryptedHex)) 4) as [L|L].
  - unfold decryptCookieValueBody.
    destruct (Z.ltb_spec (blength (hexDecode encryptedHex)) 4); [reflexivity | lia].
  - rewrite decryptCookieValueBody_prefixed by assumption.
    destruct F as [(e & ->)|[(output & -> & E)|(output & e & -> & E)]].
    + reflexivity.
    + rewrite E; reflexivity.
    + destruct (negb (nonEmpty (trim output))); [reflexivity|].
      rewrite E; reflexivity.
Qed.

(** C3, amended.  For a prefixed input that decrypts, the decryptor returns
    a run of at least 32 hexadecimal digits of either case that cannot be
    extended, when the decrypted text has a run of 32 such digits, and
    otherwise the text without the code units outside printable ASCII. *)
Theorem decryptCookieValue_recovery (w : World) (encryptedHex output : jsstring)
  (decrypted : Buffer) :
  versionPrefixed (hexDecode encryptedHex) ->
  4 <= blength (hexDecode encryptedHex) ->
  keychain w = Returned output ->
  trim output <> [] ->
  decipher w (trim output) (skipn 3 (hexDecode encryptedHex)) = Returned decrypted ->
  (exists run,
      decryptCookieValue w encryptedHex = Returned (Some run)
      /\ maximalHexRun (utf8Decode decrypted) run
      /\ (32 <= List.length run)%nat)
  \/ (~ hasHexRun (utf8Decode decrypted)
      /\ decryptCookieValue w encryptedHex
         = Returned (Some (stripNonPrintable (utf8Decode decrypted)))).
Proof.
  intros V L K T D. unfold decryptCookieValue.
  rewrite decryptCookieValueBody_prefixed by assumption. rewrite K.
  destruct (trim output) eqn:Et; [congruence|]. cbn [nonEmpty negb].
  rewrite D. destruct (matchHexRun (utf8Decode decrypted)) as [run|] eqn:M.
  - left; exists run. destruct (matchHexRun_Some _ _ M); auto.
  - right; split; [apply matchHexRun_None; exact M | reflexivity].
Qed.

Lemma decryptCookieValue_failure_witness :
  decryptCookieValue emptyWorld prefixedHex = Returned None.
Proof.
  apply (decryptCookieValue_failure emptyWorld prefixedHex).
  - left; reflexivity.
  - right; left; exists []; split; reflexivity.
Defined.

Lemma decryptCookieValue_recovery_witness :
  (exists run,
      decryptCookieValue (decipheringWorld paddedPlaintext) prefixedHex
      = Returned (Some run)
      /\ maximalHexRun (utf8Decode paddedPlaintext) run
      /\ (32 <= List.length run)%nat)
  \/ (~ hasHexRun (utf8Decode paddedPlaintext)
      /\ decryptCookieValue (decipheringWorld paddedPlaintext) prefixedHex
         = Returned (Some (stripNonPrintable (utf8Decode paddedPlaintext)))).
Proof.
  apply (decryptCookieValue_recovery (decipheringWorld paddedPlaintext) prefixedHex
           (js "peanuts" ++ [10]) paddedPlaintext).
  - left; reflexivity.
  - vm_compute; discriminate.
  - reflexivity.
  - vm_compute; discriminate.
  - reflexivity.
Defined.

Example decryptCookieValue_padded :
  decryptCookieValue (decipheringWorld paddedPlaintext) prefixedHex
  = Returned (Some (js "0123456789abcdef0123456789abcdef01234567")).
Proof. vm_compute; reflexivity. Qed.

(** C3 as stated fails: the digits A-F count, so a text without any run of
    32 lowercase digits is still cut down to its run of uppercase ones. *)
Lemma decryptCookieValue_recovery_counterexample :
  versionPrefixed (hexDecode prefixedHex)
  /\ decipher (decipheringWorld upperPlaintext) (js "peanuts")
       (skipn 3 (hexDecode prefixedHex)) = Returned upperPlaintext
  /\ spec_recoverValue (utf8Decode upperPlaintext)
     = js "xABCDEF0123456789ABCDEF0123456789"
  /\ decryptCookieValue (decipheringWorld upperPlaintext) prefixedHex
     = Returned (Some (js "ABCDEF0123456789ABCDEF0123456789"))
  /\ decryptCookieValue (decipheringWorld upperPlaintext) prefixedHex
     <> Returned (Some (spec_recoverValue (utf8Decode upperPlaintext))).
Proof.
  split; [left; reflexivity|].
  repeat split; try (vm_compute; reflexivity).
  vm_compute; discriminate.
Qed.

(** The run returned is the leftmost one of 32 digits or more, which need
    not be the longest. *)
Example decryptCookieValue_leftmost_run :
  decryptCookieValue (decipheringWorld twoRunsPlaintext) prefixedHex
  = Returned (Some (js "0123456789abcdef0123456789abcdef"))
  /\ longestRun isHexDigit (utf8Decode twoRunsPlaintext)
     = js "aaaaaaaaaabbbbbbbbbbccccccccccdddddddddd".
Proof. split; vm_compute; reflexivity. Qed.

(** ** Extractions *)

Lemma stores_trans h1 h2 h3 : stores h1 h2 -> stores h2 h3 -> stores h1 h3.
Proof.
  induction 1; auto. intros S. eapply stores_step; eauto.
Qed.

Lemma stores_oob h h' : stores h h' -> hOob h' = hOob h.
Proof. induction 1; [reflexivity | rewrite IHstores; reflexivity]. Qed.

Lemma quiet_ret {A} (a : A) : quiet (ret a).
Proof. intros h; exists a, h; split; [reflexivity | constructor]. Qed.

Lemma quiet_bind {A B} (m : M A) (k : A -> M B) :
  quiet m -> (forall a, quiet (k a)) -> quiet (bind m k).
Proof.
  intros Qm Qk h. destruct (Qm h) as (a & h1 & E & S1).
  destruct (Qk a h1) as (b & h2 & E' & S2).
  exists b, h2. unfold bind. rewrite E. split; [exact E' | eapply stores_trans; eauto].
Qed.

Lemma quiet_storeCookie name value : value <> [] -> quiet (storeCookie name value).
Proof.
  intros V h. exists tt, (snd (storeCookie name value h)). split; [reflexivity|].
  eapply stores_step; [exact V | constructor].
Qed.

Lemma quiet_forEach {A} (l : list A) (body : A -> M unit) :
  (forall x, quiet (body x)) -> quiet (forEach l body).
Proof.
  intros Q; induction l as [|x l IH]; simpl; [apply quiet_ret|].
  apply quiet_bind; auto.
Qed.

Lemma byteAt_in buffer i :
  0 <= i < blength buffer -> exists x, byteAt buffer i = Some x.
Proof.
  intros Hi. unfold byteAt. destruct (Z.ltb_spec i 0); [lia|].
  destruct (nth_error buffer (Z.to_nat i)) eqn:E; eauto.
  apply nth_error_None in E. unfold blength in Hi. lia.
Qed.

Lemma readUInt32LE_in buffer offset :
  0 <= offset -> offset + 4 <= blength buffer ->
  exists v, readUInt32LE buffer offset = Returned v.
Proof.
  intros H0 H4. unfold readUInt32LE.
  destruct (byteAt_in buffer offset) as (b0 & ->); [lia|].
  destruct (byteAt_in buffer (offset + 1)) as (b1 & ->); [lia|].
  destruct (byteAt_in buffer (offset + 2)) as (b2 & ->); [lia|].
  destruct (byteAt_in buffer (offset + 3)) as (b3 & ->); [lia|].
  eauto.
Qed.

Lemma readUInt32BE_in buffer offset :
  0 <= offset -> offset + 4 <= blength buffer ->
  exists v, readUInt32BE buffer offset = Returned v.
Proof.
  intros H0 H4. unfold readUInt32BE.
  destruct (byteAt_in buffer offset) as (b0 & ->); [lia|].
  destruct (byteAt_in buffer (offset + 1)) as (b1 & ->); [lia|].
  destruct (byteAt_in buffer (offset + 2)) as (b2 & ->); [lia|].
  destruct (byteAt_in buffer (offset + 3)) as (b3 & ->); [lia|].
  eauto.
Qed.

Lemma quiet_call {A B} (r : Result A) (k : A -> M B) :
  (exists a, r = Returned a) -> (forall a, quiet (k a)) -> quiet (bind (call r) k).
Proof.
  intros (a & ->) Q. apply quiet_bind; [|exact Q].
  intros h; exists a, h; split; [reflexivity | constructor].
Qed.

Lemma pure_quiet {A} (m : M A) : pure m -> quiet m.
Proof. intros P h. destruct (P h) as (a & E). exists a, h; split; [exact E | constructor]. Qed.

Lemma pure_ret {A} (a : A) : pure (ret a).
Proof. intros h; exists a; reflexivity. Qed.

Lemma pure_bind {A B} (m : M A) (k : A -> M B) :
  pure m -> (forall a, pure (k a)) -> pure (bind m k).
Proof.
  intros Pm Pk h. destruct (Pm h) as (a & E). destruct (Pk a h) as (b & E').
  exists b. unfold bind. rewrite E. exact E'.
Qed.

Lemma pure_index {B} buffer i (k : option byte -> M B) :
  0 <= i < blength buffer -> (forall b, pure (k b)) -> pure (bind (index buffer i) k).
Proof.
  intros Hi Q. apply pure_bind; [|exact Q].
  intros h. unfold index. destruct (byteAt_in buffer i Hi) as (x & ->).
  exists (Some x); reflexivity.
Qed.

(** The unfoldings of the loops that run on fuel. *)
Lemma scanNul_eq fuel buffer cursor end_ :
  scanNul fuel buffer cursor end_ =
  if cursor <? end_ then
    bind (index buffer cursor) (fun b =>
      if isNul b then ret cursor
      else match fuel with
           | O => outOfFuel
           | S fuel' => scanNul fuel' buffer (cursor + 1) end_
           end)
  else ret cursor.
Proof. destruct fuel; reflexivity. Qed.

Lemma readRecordOffsets_eq fuel page cookieCount i cursor offsets :
  readRecordOffsets fuel page cookieCount i cursor offsets =
  if i <? cookieCount then
    if blength page <? cursor + 4 then ret None
    else match fuel with
         | O => outOfFuel
         | S fuel' =>
             bind (call (readUInt32LE page cursor)) (fun offset =>
               readRecordOffsets fuel' page cookieCount (i + 1) (cursor + 4)
                                 (offsets ++ [offset]))
         end
  else ret (Some offsets).
Proof. destruct fuel; reflexivity. Qed.

Lemma readPageSizes_eq fuel data pageCount i cursor pageSizes :
  readPageSizes fuel data pageCount i cursor pageSizes =
  if i <? pageCount then
    if blength data <? cursor + 4 then ret None
    else match fuel with
         | O => outOfFuel
         | S fuel' =>
             bind (call (readUInt32BE data cursor)) (fun pageSize =>
               readPageSizes fuel' data pageCount (i + 1) (cursor + 4)
                             (pageSizes ++ [pageSize]))
         end
  else ret (Some (pageSizes, cursor)).
Proof. destruct fuel; reflexivity. Qed.

(** ** The Safari parser returns *)

Section SafariParser.
Context `{Platform}.

Lemma pure_scanNul fuel buffer : forall cursor end_,
  0 <= cursor -> end_ <= blength buffer -> end_ - cursor <= Z.of_nat fuel ->
  pure (scanNul fuel buffer cursor end_).
Proof.
  induction fuel as [|fuel IH]; intros cursor end_ H0 He Hf;
    rewrite scanNul_eq; destruct (Z.ltb_spec cursor end_);
    try apply pure_ret.
  - lia.
  - apply pure_index; [lia|]. intros b.
    destruct (isNul b); [apply pure_ret|]. apply IH; lia.
Qed.

Lemma pure_readSafariCString fuel buffer start end_ :
  end_ <= blength buffer -> blength buffer <= Z.of_nat fuel ->
  pure (readSafariCString fuel buffer start end_).
Proof.
  intros He Hf. unfold readSafariCString.
  destruct (Z.ltb_spec start 0); simpl; [apply pure_ret|].
  destruct (Z.leb_spec end_ start); [apply pure_ret|].
  apply pure_bind; [apply pure_scanNul; lia|].
  intros cursor. destruct (end_ <=? cursor); apply pure_ret.
Qed.

Lemma quiet_readSafariCString fuel buffer start end_ :
  end_ <= blength buffer -> blength buffer <= Z.of_nat fuel ->
  quiet (readSafariCString fuel buffer start end_).
Proof. intros He Hf. apply pure_quiet, pure_readSafariCString; assumption. Qed.

Lemma normalizeValue_nonempty value v : normalizeValue value = Some v -> v <> [].
Proof.
  intros E. apply normalizeValue_truthy in E. destruct v; [discriminate E | discriminate].
Qed.

Lemma quiet_parseSafariCookieRecord fuel page offset :
  blength page <= Z.of_nat fuel ->
  quiet (parseSafariCookieRecord fuel page offset).
Proof.
  intros Hf. unfold parseSafariCookieRecord.
  destruct (Z.ltb_spec offset 0); simpl; [apply quiet_ret|].
  destruct (Z.ltb_spec (blength page) (offset + 4)); [apply quiet_ret|].
  apply quiet_call; [apply readUInt32LE_in; lia|]. intros recordSize.
  destruct (Z.leb_spec recordSize 0); simpl; [apply quiet_ret|].
  destruct (Z.ltb_spec (blength page) (offset + recordSize)); [apply quiet_ret|].
  destruct (Z.ltb_spec (offset + recordSize) (offset + 4 + 28)); [apply quiet_ret|].
  apply quiet_call; [apply readUInt32LE_in; lia|]. intros domainOffset.
  apply quiet_call; [apply readUInt32LE_in; lia|]. intros nameOffset.
  apply quiet_call; [apply readUInt32LE_in; lia|]. intros valueOffset.
  apply quiet_bind; [apply quiet_readSafariCString; lia|]. intros domain.
  apply quiet_bind; [apply quiet_readSafariCString; lia|]. intros name.
  apply quiet_bind; [apply quiet_readSafariCString; lia|]. intros value.
  destruct (safariCookieEntry domain name value) as [[n v]|] eqn:E;
    [|apply quiet_ret].
  apply quiet_storeCookie. unfold safariCookieEntry in E.
  destruct (negb (truthy name) || negb (truthy value)
            || negb (matchesSafariDomain domain)); [discriminate|].
  destruct name; [|discriminate].
  destruct (normalizeValue value) eqn:N; [|discriminate].
  injection E as _ <-. eapply normalizeValue_nonempty; eauto.
Qed.

Lemma quiet_readRecordOffsets fuel page cookieCount :
  forall i cursor offsets,
    0 <= cursor -> blength page - cursor <= Z.of_nat fuel ->
    quiet (readRecordOffsets fuel page cookieCount i cursor offsets).
Proof.
  induction fuel as [|fuel IH]; intros i cursor offsets H0 Hf;
    rewrite readRecordOffsets_eq; destruct (i <? cookieCount);
    try apply quiet_ret;
    destruct (Z.ltb_spec (blength page) (cursor + 4)); try apply quiet_ret.
  - lia.
  - apply quiet_call; [apply readUInt32LE_in; lia|]. intros offset.
    apply IH; lia.
Qed.

Lemma quiet_readPageSizes fuel data pageCount :
  forall i cursor pageSizes,
    0 <= cursor -> blength data - cursor <= Z.of_nat fuel ->
    quiet (readPageSizes fuel data pageCount i cursor pageSizes).
Proof.
  induction fuel as [|fuel IH]; intros i cursor pageSizes H0 Hf;
    rewrite readPageSizes_eq; destruct (i <? pageCount);
    try apply quiet_ret;
    destruct (Z.ltb_spec (blength data) (cursor + 4)); try apply quiet_ret.
  - lia.
  - apply quiet_call; [apply readUInt32BE_in; lia|]. intros pageSize.
    apply IH; lia.
Qed.

Lemma quiet_parseSafariCookiePage fuel page :
  blength page <= Z.of_nat fuel -> quiet (parseSafariCookiePage fuel page).
Proof.
  intros Hf. unfold parseSafariCookiePage.
  destruct (Z.ltb_spec (blength page) 12); [apply quiet_ret|].
  destruct (negb (buffer_eqb (subarray page 0 4) SAFARI_PAGE_SIGNATURE));
    [apply quiet_ret|].
  apply quiet_call; [apply readUInt32LE_in; lia|]. intros cookieCount.
  destruct (cookieCount =? 0); [apply quiet_ret|].
  apply quiet_bind; [apply quiet_readRecordOffsets; lia|].
  intros [offsets|]; [|apply quiet_ret].
  apply quiet_forEach. intros offset.
  apply quiet_parseSafariCookieRecord; exact Hf.
Qed.

Lemma quiet_parsePages fuel data pageSizes :
  blength data <= Z.of_nat fuel ->
  forall cursor, quiet (parsePages fuel data pageSizes cursor).
Proof.
  intros Hf. induction pageSizes as [|pageSize rest IH]; intros cursor; simpl;
    [apply quiet_ret|].
  destruct (blength data <? cursor + pageSize); [apply quiet_ret|].
  apply quiet_bind; [|intros _; apply IH].
  apply quiet_parseSafariCookiePage.
  pose proof (blength_subarray data cursor (cursor + pageSize)). lia.
Qed.

Lemma quiet_parseSafariCookies fuel data :
  blength data <= Z.of_nat fuel -> quiet (parseSafariCookies fuel data).
Proof.
  intros Hf. unfold parseSafariCookies.
  destruct (Z.ltb_spec (blength data) 8); [apply quiet_ret|].
  destruct (negb (str_eqb (toStringUtf8 data 0 4) (js "cook")));
    [apply quiet_ret|].
  apply quiet_call; [apply readUInt32BE_in; lia|]. intros pageCount.
  apply quiet_bind; [apply quiet_readPageSizes; lia|].
  intros [[pageSizes cursor]|]; [|apply quiet_ret].
  apply quiet_parsePages; exact Hf.
Qed.

End SafariParser.

(** ** UTF-8 decoding and ASCII *)

Lemma utf16_head cp :
  128 <= cp -> exists u rest, utf16 cp = u :: rest /\ 128 <= u.
Proof.
  intros Hc. unfold utf16. destruct (Z.ltb_spec cp 65536).
  - exists cp, []; auto.
  - eexists _, _; split; [reflexivity|].
    assert (0 <= (cp - 65536) / 1024) by (apply Z.div_pos; lia). lia.
Qed.

Lemma inRange_true lo hi b : inRange lo hi b = true -> lo <= b <= hi.
Proof. unfold inRange. rewrite andb_true_iff, !Z.leb_le. auto. Qed.

Ltac head_of_utf16 :=
  match goal with
  | |- exists u rest, utf16 ?cp ++ ?r = u :: rest /\ 128 <= u =>
      let Hcp := fresh in
      assert (Hcp : 128 <= cp);
      [ repeat match goal with
               | E : inRange _ _ _ = true |- _ => apply inRange_true in E
               | E : (_ =? _) = true |- _ => apply Z.eqb_eq in E
               | E : (_ =? _) = false |- _ => apply Z.eqb_neq in E
               | E : (_ <? _) = false |- _ => apply Z.ltb_ge in E
               end; lia
      | destruct (utf16_head cp Hcp) as (u & rest & -> & Hu);
        exists u, (rest ++ r); split; [reflexivity | exact Hu] ]
  | |- exists u rest, REPLACEMENT :: ?r = u :: rest /\ 128 <= u =>
      exists REPLACEMENT, r; split; [reflexivity | unfold REPLACEMENT; lia]
  | |- exists u rest, [REPLACEMENT] = u :: rest /\ 128 <= u =>
      exists REPLACEMENT, []; split; [reflexivity | unfold REPLACEMENT; lia]
  end.

(** A byte below 128 decodes to itself; any other byte starts a sequence
    whose first code unit is 128 or more. *)
Lemma utf8Decode_head x r :
  (byteZ x < 128 /\ utf8Decode (x :: r) = byteZ x :: utf8Decode r)
  \/ (128 <= byteZ x /\ exists u rest, utf8Decode (x :: r) = u :: rest /\ 128 <= u).
Proof.
  cbn [utf8Decode]. cbv zeta.
  destruct (Z.ltb_spec (byteZ x) 128) as [L|L]; [left; auto|].
  right; split; [exact L|].
  apply Z.ltb_ge in L.
  destruct (inRange 194 223 (byteZ x)) eqn:R2.
  { destruct r as [|y r1]; [head_of_utf16|].
    destruct (inRange 128 191 (byteZ y)) eqn:Ry; head_of_utf16. }
  destruct (inRange 224 239 (byteZ x)) eqn:R3.
  { destruct r as [|y r1]; [head_of_utf16|].
    destruct (byteZ x =? 224) eqn:E0; destruct (byteZ x =? 237) eqn:E1;
      match goal with
      | |- context [inRange ?lo ?hi (byteZ y)] =>
          destruct (inRange lo hi (byteZ y)) eqn:Ry
      end; try head_of_utf16;
      (destruct r1 as [|z r2]; [head_of_utf16|]);
      destruct (inRange 128 191 (byteZ z)) eqn:Rz; head_of_utf16. }
  destruct (inRange 240 244 (byteZ x)) eqn:R4; [|head_of_utf16].
  destruct r as [|y r1]; [head_of_utf16|].
  destruct (byteZ x =? 240) eqn:E0; destruct (byteZ x =? 244) eqn:E1;
    match goal with
    | |- context [inRange ?lo ?hi (byteZ y)] =>
        destruct (inRange lo hi (byteZ y)) eqn:Ry
    end; try head_of_utf16;
    (destruct r1 as [|z r2]; [head_of_utf16|]);
    (destruct (inRange 128 191 (byteZ z)) eqn:Rz; [|head_of_utf16]);
    (destruct r2 as [|t r3]; [head_of_utf16|]);
    destruct (inRange 128 191 (byteZ t)) eqn:Rt; head_of_utf16.
Qed.

(** A text of ASCII code units is decoded from the bytes of the same
    values only. *)
Lemma utf8Decode_ascii bs : forall s,
  utf8Decode bs = s -> Forall (fun c => c < 128) s -> map byteZ bs = s.
Proof.
  induction bs as [|x r IH]; intros s E F.
  - subst s; reflexivity.
  - destruct (utf8Decode_head x r) as [(L & E')|(L & u & rest & E' & Hu)];
      rewrite E' in E; subst s.
    + inversion F; subst. simpl. f_equal. apply IH; auto.
    + inversion F; subst. lia.
Qed.

Lemma byteZ_inj a b : byteZ a = byteZ b -> a = b.
Proof.
  unfold byteZ. intros E. apply N2Z.inj in E.
  pose proof (Byte.of_to_N a) as Ea. rewrite E, Byte.of_to_N in Ea. congruence.
Qed.

Lemma map_byteZ_inj a : forall b, map byteZ a = map byteZ b -> a = b.
Proof.
  induction a as [|x a IH]; intros [|y b]; simpl; try discriminate; auto.
  intros E; injection E as E1 E2. f_equal; [apply byteZ_inj | apply IH]; auto.
Qed.

Lemma toStringUtf8_literal data n (literal : string) :
  0 <= n <= blength data ->
  Forall (fun c => c < 128) (js literal) ->
  map byteZ (list_byte_of_string literal) = js literal ->
  toStringUtf8 data 0 n = js literal ->
  firstn (Z.to_nat n) data = list_byte_of_string literal.
Proof.
  intros Hn F Eb E. unfold toStringUtf8 in E. rewrite subarray_prefix in E by lia.
  apply utf8Decode_ascii in E; [|exact F].
  apply map_byteZ_inj. congruence.
Qed.

(** Well-formed sequences, and ill-formed ones with their replacement
    characters. *)
Example utf8Decode_samples :
  utf8Decode [xe2; x82; xac] = [8364]
  /\ utf8Decode [xf0; x9f; x98; x80] = [55357; 56832]
  /\ utf8Decode [xc0; x80] = [REPLACEMENT; REPLACEMENT]
  /\ utf8Decode [xed; xa0; x80] = [REPLACEMENT; REPLACEMENT; REPLACEMENT]
  /\ utf8Decode [xe2; x82; x41] = [REPLACEMENT; 65]
  /\ utf8Decode [xe2; x82] = [REPLACEMENT].
Proof. repeat split; reflexivity. Qed.

(** C7.  On every byte buffer the Safari container parser returns: it does
    not throw, no read falls outside a buffer, and the heap it leaves differs
    from the one it started on by stored cookies only.  A buffer that does
    not start with "cook" leaves the heap as it was. *)
Theorem parseSafariCookies_safe `{Platform} (data : Buffer) (h : Heap) :
  exists h',
    parseSafariCookies (safariFuel data) data h = (Done tt, h')
    /\ hOob h' = hOob h
    /\ stores h h'
    /\ (firstn 4 data <> list_byte_of_string "cook" -> h' = h).
Proof.
  destruct (quiet_parseSafariCookies (safariFuel data) data) with (h := h)
    as ([] & h' & E & S).
  { unfold safariFuel, blength. lia. }
  exists h'. split; [exact E|]. split; [apply stores_oob; exact S|].
  split; [exact S|]. intros Magic.
  unfold parseSafariCookies in E.
  destruct (Z.ltb_spec (blength data) 8); [injection E as <-; reflexivity|].
  destruct (str_eqb (toStringUtf8 data 0 4) (js "cook")) eqn:C;
    [|injection E as <-; reflexivity].
  exfalso; apply Magic. apply str_eqb_eq in C.
  apply (toStringUtf8_literal data 4 "cook").
  - lia.
  - unfold js; simpl; repeat constructor.
  - reflexivity.
  - exact C.
Qed.

(** ** The Safari record filter *)

Lemma startsWith_spec s prefix :
  startsWith s prefix = true <-> exists rest, s = prefix ++ rest.
Proof.
  revert s; induction prefix as [|p prefix IH]; intros s; simpl.
  - split; [intros _; exists s; reflexivity | destruct s; reflexivity].
  - destruct s as [|c s].
    + split; [discriminate | intros (rest & E); discriminate].
    + rewrite andb_true_iff, Z.eqb_eq, IH. split.
      * intros (-> & rest & ->); eauto.
      * intros (rest & E); injection E as -> ->; eauto.
Qed.

Lemma endsWith_spec s suffix :
  endsWith s suffix = true <-> exists before, s = before ++ suffix.
Proof.
  unfold endsWith. rewrite startsWith_spec. split.
  - intros (rest & E). exists (rev rest).
    rewrite <- (rev_involutive s), E, rev_app_distr, rev_involutive. reflexivity.
  - intros (before & ->). exists (rev before). apply rev_app_distr.
Qed.

Lemma stripLeadingDot_code domain :
  (if startsWith domain (js ".") then tl domain else domain) = stripLeadingDot domain.
Proof.
  destruct domain as [|c d]; [reflexivity|].
  unfold js; simpl. destruct (Z.eqb_spec c 46) as [->|N]; simpl; [reflexivity|].
  unfold stripLeadingDot. destruct c as [|p|p]; try reflexivity.
  repeat (destruct p as [p|p|]; try reflexivity). congruence.
Qed.

Lemma matchesSafariDomain_spec `{Platform} domain :
  matchesSafariDomain domain = true <->
  exists d, domain = Some d /\ d <> [] /\ allowListed d.
Proof.
  unfold matchesSafariDomain, allowListed. destruct domain as [[|c d]|].
  - split; [discriminate | intros (d & E & N & _); congruence].
  - rewrite stripLeadingDot_code, existsb_exists. split.
    + intros (target & I & E). exists (c :: d).
      split; [reflexivity|]. split; [discriminate|].
      exists target; split; [exact I|].
      apply orb_true_iff in E as [E|E].
      * left; apply str_eqb_eq; exact E.
      * right; apply endsWith_spec; exact E.
    + intros (d' & E & _ & target & I & G). injection E as <-.
      exists target; split; [exact I|]. apply orb_true_iff.
      destruct G as [G|G]; [left; apply str_eqb_eq | right; apply endsWith_spec]; exact G.
  - split; [discriminate | intros (d & E & _); discriminate].
Qed.


(** ** Rows and the jar *)

Lemma chromeRow_entry w line h :
  chromeRow w line h =
  match chromeEntry w line with
  | Some (n, v) => storeCookie n v h
  | None => (Done tt, h)
  end.
Proof.
  unfold chromeRow, chromeEntry.
  destruct (split 124 line) as [|name [|encryptedHex rest]]; try reflexivity.
  destruct (nonEmpty name); simpl; [|reflexivity].
  destruct (nonEmpty encryptedHex); simpl; [|reflexivity].
  destruct (decryptCookieValue_returns w encryptedHex) as (v & ->).
  unfold bind, call. destruct v as [[|c v]|]; reflexivity.
Qed.

Lemma forEach_chromeRow w lines : forall h,
  forEach lines (chromeRow w) h = (Done tt, storeAll (chromeEntries w lines) h).
Proof.
  induction lines as [|line lines IH]; intros h; [reflexivity|].
  cbn [forEach]. unfold bind at 1. rewrite chromeRow_entry.
  unfold chromeEntries; cbn [map keep].
  destruct (chromeEntry w line) as [[n v]|]; cbn [keep]; [|apply IH].
  change (storeCookie n v h) with (Done tt, snd (storeCookie n v h)).
  cbv iota beta. rewrite IH. reflexivity.
Qed.

Lemma chromeEntries_nonempty w lines :
  Forall (fun e => snd e <> []) (chromeEntries w lines).
Proof.
  unfold chromeEntries. induction lines as [|line lines IH]; simpl; [constructor|].
  destruct (chromeEntry w line) as [[n v]|] eqn:E; [|exact IH].
  constructor; [|exact IH]. unfold chromeEntry in E.
  destruct (split 124 line) as [|name [|hex rest]]; try discriminate.
  destruct (nonEmpty name && nonEmpty hex); [|discriminate].
  destruct (decryptCookieValue w hex) as [[[|c x]|]|]; try discriminate.
  injection E as _ <-. discriminate.
Qed.

Lemma jarGet_jarUpdate name n v jar :
  jarGet name (jarUpdate n v jar) = if str_eqb n name then Some v else jarGet name jar.
Proof.
  induction jar as [|[k x] jar IH]; simpl.
  - reflexivity.
  - destruct (str_eqb k n) eqn:E; simpl.
    + apply str_eqb_eq in E; subst k. destruct (str_eqb n name); reflexivity.
    + rewrite IH. destruct (str_eqb k name) eqn:E'; [|reflexivity].
      apply str_eqb_eq in E'; subst k.
      destruct (str_eqb n name) eqn:E''; [|reflexivity].
      apply str_eqb_eq in E''; subst n. rewrite str_eqb_refl in E. discriminate.
Qed.

Lemma jarGet_jarSet name n v jar :
  name <> js "__proto__" ->
  jarGet name (jarSet n v jar) = if str_eqb n name then Some v else jarGet name jar.
Proof.
  intros N. unfold jarSet. destruct (str_eqb n (js "__proto__")) eqn:E.
  - apply str_eqb_eq in E; subst n.
    destruct (str_eqb (js "__proto__") name) eqn:E'; [|reflexivity].
    apply str_eqb_eq in E'; congruence.
  - apply jarGet_jarUpdate.
Qed.

Lemma storeAll_app es e h :
  storeAll (es ++ [e]) h = snd (storeCookie (fst e) (snd e) (storeAll es h)).
Proof. unfold storeAll. rewrite fold_left_app. reflexivity. Qed.

(** No store gives the jar an entry named "__proto__". *)
Lemma storeAll_proto es h :
  jarGet (js "__proto__") (hJar (storeAll es h)) = jarGet (js "__proto__") (hJar h).
Proof.
  induction es as [|e es IH] using rev_ind; [reflexivity|].
  rewrite storeAll_app. cbn [hJar storeCookie snd]. rewrite <- IH.
  unfold jarSet. destruct (str_eqb (fst e) (js "__proto__")) eqn:E; [reflexivity|].
  rewrite jarGet_jarUpdate, E. reflexivity.
Qed.

(** The jar keeps, for each name, the value stored last. *)
Lemma storeAll_jar name es h :
  name <> js "__proto__" ->
  jarGet name (hJar (storeAll es h)) =
  match find (named name) (rev es) with
  | Some e => Some (snd e)
  | None => jarGet name (hJar h)
  end.
Proof.
  intros N. induction es as [|e es IH] using rev_ind; [reflexivity|].
  rewrite storeAll_app, rev_app_distr. cbn [rev app find hJar storeCookie snd].
  rewrite jarGet_jarSet by exact N. unfold named at 1.
  destruct (str_eqb (fst e) name); [reflexivity | exact IH].
Qed.

(** A token slot keeps the value stored first under its name. *)
Lemma storeAll_authToken es : forall h,
  Forall (fun e => snd e <> []) es ->
  authToken (hCookies (storeAll es h)) =
  if truthy (authToken (hCookies h)) then authToken (hCookies h)
  else match find (named (js "auth_token")) es with
       | Some e => Some (snd e)
       | None => authToken (hCookies h)
       end.
Proof.
  induction es as [|[n v] es IH]; intros h F.
  - simpl. destruct (truthy (authToken (hCookies h))); reflexivity.
  - inversion F as [|? ? Hv F']; subst. cbn [storeAll fold_left].
    change (fold_left _ es ?x) with (storeAll es x).
    rewrite IH by exact F'. cbn [storeCookie snd fst hCookies find].
    change (named (js "auth_token") (n, v)) with (str_eqb n (js "auth_token")).
    destruct (truthy (authToken (hCookies h))) eqn:T.
    + rewrite andb_false_r. cbn [negb].
      destruct (str_eqb n (js "ct0") && negb (truthy (ct0 (hCookies h))));
        cbn [setCt0 authToken]; rewrite T; reflexivity.
    + rewrite andb_true_r. cbn [negb].
      destruct (str_eqb n (js "auth_token")) eqn:E.
      * cbn [setAuthToken authToken]. simpl in Hv.
        destruct v; [congruence | reflexivity].
      * destruct (str_eqb n (js "ct0") && negb (truthy (ct0 (hCookies h))));
          cbn [setCt0 authToken]; rewrite T; reflexivity.
Qed.

Lemma storeAll_ct0 es : forall h,
  Forall (fun e => snd e <> []) es ->
  ct0 (hCookies (storeAll es h)) =
  if truthy (ct0 (hCookies h)) then ct0 (hCookies h)
  else match find (named (js "ct0")) es with
       | Some e => Some (snd e)
       | None => ct0 (hCookies h)
       end.
Proof.
  induction es as [|[n v] es IH]; intros h F.
  - simpl. destruct (truthy (ct0 (hCookies h))); reflexivity.
  - inversion F as [|? ? Hv F']; subst. cbn [storeAll fold_left].
    change (fold_left _ es ?x) with (storeAll es x).
    rewrite IH by exact F'. cbn [storeCookie snd fst hCookies find].
    change (named (js "ct0") (n, v)) with (str_eqb n (js "ct0")).
    destruct (str_eqb n (js "auth_token")) eqn:Ea.
    + assert (Ec : str_eqb n (js "ct0") = false).
      { apply str_eqb_eq in Ea; subst n. reflexivity. }
      rewrite Ec. cbn [andb].
      destruct (negb (truthy (authToken (hCookies h))));
        cbn [setAuthToken ct0]; destruct (truthy (ct0 (hCookies h))); reflexivity.
    + cbn [andb]. destruct (truthy (ct0 (hCookies h))) eqn:T.
      * rewrite andb_false_r. rewrite T. reflexivity.
      * rewrite andb_true_r. destruct (str_eqb n (js "ct0")) eqn:E.
        -- cbn [setCt0 ct0]. simpl in Hv. destruct v; [congruence | reflexivity].
        -- rewrite T; reflexivity.
Qed.

(** ** The strings of a Safari record *)

Lemma byteZ_zero b : byteZ b = 0 <-> b = x00.
Proof.
  split; [|intros ->; reflexivity]. intros E. apply byteZ_inj. rewrite E. reflexivity.
Qed.

Lemma untilNul_spec l : forall bytes,
  untilNul l = Some bytes <-> exists rest, l = bytes ++ x00 :: rest /\ ~ In x00 bytes.
Proof.
  induction l as [|b l IH]; intros bytes; simpl.
  - split; [discriminate|]. intros (rest & E & _). destruct bytes; discriminate.
  - destruct (Z.eqb_spec (byteZ b) 0) as [Z|Z].
    + apply byteZ_zero in Z. subst b. split.
      * intros E; injection E as <-. exists l. split; [reflexivity | intros []].
      * intros (rest & E & N). destruct bytes as [|x bytes]; [reflexivity|].
        injection E as <- _. exfalso; apply N; left; reflexivity.
    + split.
      * destruct (untilNul l) as [bs|] eqn:U; [|discriminate].
        intros E; injection E as <-.
        destruct (proj1 (IH bs) eq_refl) as (rest & -> & N).
        exists rest. split; [reflexivity|].
        intros [I|I]; [apply Z, byteZ_zero; auto | auto].
      * intros (rest & E & N). destruct bytes as [|x bytes].
        -- injection E as -> _. exfalso; apply Z; reflexivity.
        -- injection E as <- ->.
           rewrite (proj2 (IH bytes)); [reflexivity|].
           exists rest. split; [reflexivity|]. intros I; apply N; right; exact I.
Qed.

Lemma skipn_nth {A} (l : list A) : forall n b,
  nth_error l n = Some b -> skipn n l = b :: skipn (S n) l.
Proof.
  induction l as [|a l IH]; intros [|n] b E; simpl in *; try discriminate.
  - injection E as ->. reflexivity.
  - apply IH; exact E.
Qed.

Lemma subarray_in b s e :
  0 <= s <= e -> e <= blength b ->
  subarray b s e = firstn (Z.to_nat (e - s)) (skipn (Z.to_nat s) b).
Proof.
  intros Hs He. unfold subarray, clampIndex.
  replace (Z.max 0 (Z.min s (blength b))) with s by lia.
  replace (Z.max 0 (Z.min e (blength b))) with e by lia.
  reflexivity.
Qed.

Lemma subarray_cons buffer cursor end_ :
  0 <= cursor < end_ -> end_ <= blength buffer ->
  exists b, byteAt buffer cursor = Some b
            /\ subarray buffer cursor end_ = b :: subarray buffer (cursor + 1) end_.
Proof.
  intros Hc He. destruct (byteAt_in buffer cursor) as (b & E); [lia|].
  exists b. split; [exact E|].
  rewrite !subarray_in by lia.
  unfold byteAt in E. destruct (Z.ltb_spec cursor 0); [lia|].
  rewrite (skipn_nth _ _ _ E).
  replace (Z.to_nat (end_ - cursor)) with (S (Z.to_nat (end_ - (cursor + 1)))) by lia.
  replace (Z.to_nat (cursor + 1)) with (S (Z.to_nat cursor)) by lia.
  reflexivity.
Qed.

Lemma subarray_empty buffer cursor : subarray buffer cursor cursor = [].
Proof. unfold subarray. rewrite Z.sub_diag. reflexivity. Qed.

Lemma scanNul_run fuel buffer : forall cursor end_ h,
  0 <= cursor <= end_ -> end_ <= blength buffer -> end_ - cursor <= Z.of_nat fuel ->
  scanNul fuel buffer cursor end_ h =
  (Done (match untilNul (subarray buffer cursor end_) with
         | Some bytes => cursor + blength bytes
         | None => end_
         end), h).
Proof.
  induction fuel as [|fuel IH]; intros cursor end_ h Hc He Hf;
    rewrite scanNul_eq; destruct (Z.ltb_spec cursor end_) as [L|L].
  - lia.
  - replace end_ with cursor by lia. rewrite subarray_empty. reflexivity.
  - destruct (subarray_cons buffer cursor end_) as (b & Eb & ->); [lia | lia |].
    unfold bind, index. rewrite Eb. cbn [isNul untilNul].
    destruct (byteZ b =? 0).
    + unfold ret, blength. simpl. rewrite Z.add_0_r. reflexivity.
    + rewrite IH by lia.
      destruct (untilNul (subarray buffer (cursor + 1) end_)); simpl; [|reflexivity].
      f_equal. f_equal. unfold blength. simpl List.length. lia.
  - replace end_ with cursor by lia. rewrite subarray_empty. reflexivity.
Qed.

Lemma subarray_take buffer start end_ bytes rest :
  0 <= start <= end_ -> end_ <= blength buffer ->
  subarray buffer start end_ = bytes ++ rest ->
  subarray buffer start (start + blength bytes) = bytes.
Proof.
  intros Hs He E.
  assert (L : blength bytes <= end_ - start).
  { apply (f_equal (@List.length byte)) in E.
    rewrite subarray_in, length_firstn, length_skipn, length_app in E by lia.
    unfold blength in *. lia. }
  rewrite subarray_in in * by (unfold blength in *; lia).
  replace (start + blength bytes - start) with (blength bytes) by lia.
  unfold blength. rewrite Nat2Z.id.
  replace (List.length bytes) with (Nat.min (List.length bytes) (Z.to_nat (end_ - start)))
    by (unfold blength in L; lia).
  rewrite <- firstn_firstn, E, firstn_app, Nat.sub_diag, firstn_all. simpl.
  apply app_nil_r.
Qed.

Lemma readSafariCString_run fuel buffer start end_ h :
  end_ <= blength buffer -> blength buffer <= Z.of_nat fuel ->
  readSafariCString fuel buffer start end_ h =
  (Done (if start <? 0 then None
         else option_map utf8Decode (untilNul (subarray buffer start end_))), h).
Proof.
  intros He Hf. unfold readSafariCString.
  destruct (Z.ltb_spec start 0) as [L|L]; simpl; [reflexivity|].
  destruct (Z.leb_spec end_ start) as [G|G].
  - unfold subarray. replace (Z.to_nat _) with O; [reflexivity|].
    unfold clampIndex. lia.
  - unfold bind. rewrite scanNul_run by lia.
    destruct (untilNul (subarray buffer start end_)) as [bytes|] eqn:U.
    + destruct (proj1 (untilNul_spec _ _) U) as (rest & E & N).
      assert (Lb : blength bytes < end_ - start).
      { apply (f_equal (@List.length byte)) in E.
        rewrite subarray_in, length_firstn, length_skipn, length_app in E by lia.
        simpl in E. unfold blength in *. lia. }
      destruct (Z.leb_spec end_ (start + blength bytes)); [lia|].
      unfold toStringUtf8. rewrite (subarray_take _ _ _ _ _ (conj L (Z.lt_le_incl _ _ G)) He E).
      reflexivity.
    + rewrite Z.leb_refl. reflexivity.
Qed.

Lemma byteAt_out buffer i : i < 0 \/ blength buffer <= i -> byteAt buffer i = None.
Proof.
  intros Hi. unfold byteAt. destruct (Z.ltb_spec i 0); [reflexivity|].
  apply nth_error_None. unfold blength in Hi. lia.
Qed.

Lemma fieldAt_out page o : o < 0 \/ blength page < o + 4 -> fieldAt page o = None.
Proof.
  intros Ho. unfold fieldAt, readUInt32LE.
  destruct (Z.ltb_spec o 0) as [L|L].
  - rewrite (byteAt_out page o) by lia. reflexivity.
  - rewrite (byteAt_out page (o + 3)) by lia.
    destruct (byteAt page o), (byteAt page (o + 1)), (byteAt page (o + 2)); reflexivity.
Qed.

Lemma fieldAt_in page o :
  0 <= o -> o + 4 <= blength page ->
  exists v, readUInt32LE page o = Returned v /\ fieldAt page o = Some v.
Proof.
  intros H0 H4. destruct (readUInt32LE_in page o H0 H4) as (v & E).
  exists v. unfold fieldAt. rewrite E. auto.
Qed.

Lemma readSafariCString_cstringAt fuel buffer start end_ h :
  end_ <= blength buffer -> blength buffer <= Z.of_nat fuel ->
  readSafariCString fuel buffer start end_ h = (Done (cstringAt buffer start end_), h).
Proof. apply readSafariCString_run. Qed.

Section SafariRecord.
Context `{Platform}.

(** The parser applies the record filter to the strings of the record. *)
Lemma parseSafariCookieRecord_run fuel page offset h :
  blength page <= Z.of_nat fuel ->
  parseSafariCookieRecord fuel page offset h
  = (Done tt,
     match recordStrings page offset with
     | Some (domain, name, value) =>
         match safariCookieEntry domain name value with
         | Some (n, v) => snd (storeCookie n v h)
         | None => h
         end
     | None => h
     end).
Proof.
  intros Hf. unfold parseSafariCookieRecord, recordStrings.
  destruct (Z.ltb_spec offset 0) as [L0|L0]; cbn [orb].
  { rewrite (fieldAt_out page offset) by lia. reflexivity. }
  destruct (Z.ltb_spec (blength page) (offset + 4)) as [L4|L4].
  { rewrite (fieldAt_out page offset) by lia. reflexivity. }
  destruct (fieldAt_in page offset) as (recordSize & Er & Fr); [lia | lia |].
  unfold bind at 1. unfold call at 1. rewrite Er, Fr.
  destruct (Z.leb_spec 0 offset) as [_|]; [|lia]. cbn [andb].
  destruct (Z.leb_spec recordSize 0) as [Ls|Ls]; cbn [orb].
  { destruct (Z.leb_spec 32 recordSize); [lia|]. cbn [andb].
    destruct (fieldAt page (offset + 16)), (fieldAt page (offset + 20)),
      (fieldAt page (offset + 28)); reflexivity. }
  destruct (Z.ltb_spec (blength page) (offset + recordSize)) as [Le|Le].
  { destruct (Z.leb_spec (offset + recordSize) (blength page)); [lia|].
    rewrite andb_false_r.
    destruct (fieldAt page (offset + 16)), (fieldAt page (offset + 20)),
      (fieldAt page (offset + 28)); reflexivity. }
  cbv zeta.
  destruct (Z.ltb_spec (offset + recordSize) (offset + 4 + (4 + 4 + 4 + 4 + 4 + 4 + 4)))
    as [Lh|Lh].
  { destruct (Z.leb_spec 32 recordSize); [lia|]. cbn [andb].
    destruct (fieldAt page (offset + 16)), (fieldAt page (offset + 20)),
      (fieldAt page (offset + 28)); reflexivity. }
  destruct (Z.leb_spec 32 recordSize); [|lia].
  destruct (Z.leb_spec (offset + recordSize) (blength page)); [|lia]. cbn [andb].
  replace (offset + 4 + 12) with (offset + 16) by lia.
  replace (offset + 4 + 16) with (offset + 20) by lia.
  replace (offset + 4 + 24) with (offset + 28) by lia.
  destruct (fieldAt_in page (offset + 16)) as (dO & Ed & Fd); [lia | lia |].
  destruct (fieldAt_in page (offset + 20)) as (nO & En & Fn); [lia | lia |].
  destruct (fieldAt_in page (offset + 28)) as (vO & Ev & Fv); [lia | lia |].
  rewrite Fd, Fn, Fv.
  unfold bind at 1. unfold call at 1. rewrite Ed.
  unfold bind at 1. unfold call at 1. rewrite En.
  unfold bind at 1. unfold call at 1. rewrite Ev.
  unfold bind at 1. rewrite readSafariCString_cstringAt by lia.
  unfold bind at 1. rewrite readSafariCString_cstringAt by lia.
  unfold bind at 1. rewrite readSafariCString_cstringAt by lia.
  destruct (safariCookieEntry _ _ _) as [[n v]|]; reflexivity.
Qed.

(** C6, amended.  A record contributes its name and its trimmed value
    exactly when the name is present and not empty, the value is present
    and not empty once trimmed, and the domain is present, not empty and
    on the allow-list; parseSafariCookieRecord stores the contribution of
    the strings of the record at its offset, and leaves the heap as it is
    when there is none; a stored name other than "__proto__" gets its
    value in the jar, and a store under the name "__proto__" changes
    nothing. *)
Theorem safariCookieEntry_spec :
  (forall domain name value n v,
      safariCookieEntry domain name value = Some (n, v) <->
      (name = Some n /\ n <> []
       /\ (exists raw, value = Some raw /\ trim raw = v) /\ v <> []
       /\ exists d, domain = Some d /\ d <> [] /\ allowListed d))
  /\ (forall fuel page offset h,
         blength page <= Z.of_nat fuel ->
         parseSafariCookieRecord fuel page offset h
         = (Done tt,
            match recordStrings page offset with
            | Some (domain, name, value) =>
                match safariCookieEntry domain name value with
                | Some (n, v) => snd (storeCookie n v h)
                | None => h
                end
            | None => h
            end))
  /\ (forall n v h,
         n <> js "__proto__" -> jarGet n (hJar (snd (storeCookie n v h))) = Some v)
  /\ (forall v h, snd (storeCookie (js "__proto__") v h) = h).
Proof.
  split; [|split; [|split]].
  - intros domain name value n v. unfold safariCookieEntry.
    pose proof (matchesSafariDomain_spec domain) as D.
    destruct (matchesSafariDomain domain).
    + destruct name as [[|c nm]|]; simpl.
      * split; [discriminate | intros (E & N & _); congruence].
      * destruct value as [[|x raw]|]; simpl.
        -- split; [discriminate|].
           intros (_ & _ & (raw & E & T) & N & _). injection E as <-.
           exfalso; apply N; rewrite <- T; reflexivity.
        -- destruct (trim (x :: raw)) as [|y t] eqn:T.
           ++ split; [discriminate|].
              intros (_ & _ & (raw' & E & T') & N & _). injection E as <-.
              congruence.
           ++ split.
              ** intros E; injection E as <- <-.
                 repeat split; try discriminate; eauto. apply D; reflexivity.
              ** intros (E & _ & (raw' & E' & T') & _).
                 injection E as <-. injection E' as <-. congruence.
        -- split; [discriminate | intros (_ & _ & (raw & E & _) & _); discriminate].
      * split; [discriminate | intros (E & _); discriminate].
    + rewrite !orb_true_r. split; [discriminate|].
      intros (_ & _ & _ & _ & G). apply D in G. discriminate.
  - apply parseSafariCookieRecord_run.
  - intros n v h N. cbn [storeCookie snd hJar].
    rewrite jarGet_jarSet by exact N. rewrite str_eqb_refl. reflexivity.
  - intros v [jar c oob]. reflexivity.
Qed.

End SafariRecord.

(** ** What the stores keep true *)

Lemma heapInv_new : heapInv newHeap.
Proof.
  unfold heapInv, absentOrTruthy; simpl. repeat split; auto.
  intros [N|N]; congruence.
Qed.

Lemma jarUpdate_nonempty name value jar : jarUpdate name value jar <> [].
Proof.
  destruct jar as [|[k x] jar]; simpl; [discriminate|].
  destruct (str_eqb k name); discriminate.
Qed.

Lemma jarSet_nonempty name value jar : jar <> [] -> jarSet name value jar <> [].
Proof.
  intros N. unfold jarSet. destruct (str_eqb name (js "__proto__")); [exact N|].
  apply jarUpdate_nonempty.
Qed.

Lemma jarSet_values name value jar :
  value <> [] ->
  Forall (fun e => snd e <> []) jar ->
  Forall (fun e => snd e <> []) (jarSet name value jar).
Proof.
  intros V F. unfold jarSet. destruct (str_eqb name (js "__proto__")); [exact F|].
  induction F as [|[k x] jar Hx F IH]; simpl.
  - constructor; [exact V | constructor].
  - destruct (str_eqb k name); constructor; auto.
Qed.

Lemma heapInv_store name value h :
  value <> [] -> heapInv h -> heapInv (snd (storeCookie name value h)).
Proof.
  intros V (Hh & Hs & Ha & Hc & Hj & Hv). unfold heapInv.
  cbn [storeCookie snd hJar hCookies].
  assert (Tv : truthy (Some value) = true) by (destruct value; [congruence | reflexivity]).
  assert (J : str_eqb name (js "auth_token") = true \/ str_eqb name (js "ct0") = true ->
              jarSet name value (hJar h) <> []).
  { intros E. unfold jarSet.
    assert (P : str_eqb name (js "__proto__") = false).
    { destruct E as [E|E]; apply str_eqb_eq in E; subst name; reflexivity. }
    rewrite P. apply jarUpdate_nonempty. }
  destruct (str_eqb name (js "auth_token") && negb (truthy (authToken (hCookies h)))) eqn:Ea;
    [|destruct (str_eqb name (js "ct0") && negb (truthy (ct0 (hCookies h)))) eqn:Ec];
    cbn [setAuthToken setCt0 authToken ct0 cookieHeader source];
    repeat split; auto using jarSet_values; try (right; exact Tv).
  - intros _. apply andb_true_iff in Ea as [Ea _]. auto.
  - intros _. apply andb_true_iff in Ec as [Ec _]. auto.
  - intros N. apply jarSet_nonempty. auto.
Qed.

Lemma stores_inv h h' : stores h h' -> heapInv h -> heapInv h'.
Proof.
  induction 1 as [|h name value h' V S IH]; auto.
  intros I. apply IH. apply heapInv_store; assumption.
Qed.

Lemma stores_storeAll es : forall h,
  Forall (fun e => snd e <> []) es -> stores h (storeAll es h).
Proof.
  induction es as [|[n v] es IH]; intros h F; [constructor|].
  inversion F; subst. eapply stores_step; [eassumption|]. apply IH; assumption.
Qed.

Section Finish.
Context `{Platform}.

Lemma finishExtraction_run label h :
  finishExtraction label h = (Done tt, finished label h).
Proof. reflexivity. Qed.

Lemma finished_fields label h :
  heapInv h ->
  hJar (finished label h) = hJar h
  /\ authToken (hCookies (finished label h)) = authToken (hCookies h)
  /\ ct0 (hCookies (finished label h)) = ct0 (hCookies h)
  /\ cookieHeader (hCookies (finished label h)) =
     match hJar h with
     | [] => None
     | _ :: _ => Some (serializeCookieJar (hJar h))
     end.
Proof.
  intros (Hh & _). unfold finished, finishExtraction. cbn [snd hJar hCookies].
  destruct (hJar h) as [|e jar];
    match goal with
    | |- context [if ?c then _ else _] => destruct c
    end; cbn [setSource setCookieHeader authToken ct0 cookieHeader]; auto.
Qed.

(** C9, amended.  Among the rows of a Chrome answer whose value decrypts,
    the first row of a credential name fills the token field and later
    rows of that name leave the field as it is; the jar, and with it the
    cookie header, holds for every name other than "__proto__" the value of
    the last such row, and has no entry named "__proto__": a row of that
    name adds nothing to the jar. *)
Theorem chromeTry_duplicates (w : World) (profile : option jsstring)
  (cookiesPath output : jsstring) :
  chromeQuery w cookiesPath = Returned output ->
  exists h,
    chromeTry w profile cookiesPath newHeap = (Done tt, h)
    /\ authToken (hCookies h)
       = option_map snd (find (named (js "auth_token"))
                              (chromeEntries w (rowsOf output)))
    /\ ct0 (hCookies h)
       = option_map snd (find (named (js "ct0")) (chromeEntries w (rowsOf output)))
    /\ (forall name, name <> js "__proto__" ->
          jarGet name (hJar h)
          = option_map snd (find (named name)
                                 (rev (chromeEntries w (rowsOf output)))))
    /\ jarGet (js "__proto__") (hJar h) = None
    /\ cookieHeader (hCookies h)
       = match hJar h with
         | [] => None
         | _ :: _ => Some (serializeCookieJar (hJar h))
         end.
Proof.
  intros Q. set (entries := chromeEntries w (rowsOf output)).
  assert (F : Forall (fun e => snd e <> []) entries) by apply chromeEntries_nonempty.
  assert (I : heapInv (storeAll entries newHeap)).
  { eapply stores_inv; [apply stores_storeAll; exact F | apply heapInv_new]. }
  exists (finished (profileLabel (js "Chrome") profile) (storeAll entries newHeap)).
  destruct (finished_fields (profileLabel (js "Chrome") profile) _ I)
    as (Ej & Ea & Ec & Eh).
  split.
  - unfold chromeTry. unfold bind at 1. unfold call. rewrite Q.
    unfold bind at 1.
    assert (R : forEachRow output (chromeRow w) newHeap
                = (Done tt, storeAll entries newHeap)).
    { unfold forEachRow, entries, rowsOf.
      destruct (nonEmpty (trim output)); [apply forEach_chromeRow | reflexivity]. }
    rewrite R. apply finishExtraction_run.
  - rewrite Ea, Ec, Eh, Ej.
    rewrite storeAll_authToken, storeAll_ct0 by exact F. cbn.
    split; [destruct (find _ entries); reflexivity|].
    split; [destruct (find _ entries); reflexivity|].
    split; [|split; [rewrite storeAll_proto; reflexivity | reflexivity]].
    intros name N. rewrite storeAll_jar by exact N.
    destruct (find _ (rev entries)); reflexivity.
Qed.

End Finish.

(** ** Serialization *)

Section Sorting.
Variable A : Type.
Variable le : A -> A -> bool.
Hypothesis le_total : forall a b, le a b = false -> le b a = true.

Lemma insertBy_perm x l : Permutation (insertBy le x l) (x :: l).
Proof.
  induction l as [|y l IH]; simpl; [reflexivity|].
  destruct (le x y); [reflexivity|].
  rewrite IH. apply perm_swap.
Qed.

Lemma sortBy_perm l : Permutation (sortBy le l) l.
Proof.
  induction l as [|x l IH]; simpl; [reflexivity|].
  rewrite insertBy_perm. constructor. exact IH.
Qed.

Lemma insertBy_HdRel y x l :
  leP le y x -> HdRel (leP le) y l -> HdRel (leP le) y (insertBy le x l).
Proof.
  intros Hx Hl. destruct l as [|z l]; simpl; [constructor; exact Hx|].
  destruct (le x z); constructor; [exact Hx|].
  inversion Hl; assumption.
Qed.

Lemma insertBy_sorted x l : Sorted (leP le) l -> Sorted (leP le) (insertBy le x l).
Proof.
  induction 1 as [|y l S IH Hd]; simpl.
  - repeat constructor.
  - destruct (le x y) eqn:E.
    + constructor; [constructor; assumption | constructor; exact E].
    + constructor; [exact IH|].
      apply insertBy_HdRel; [apply le_total; exact E | exact Hd].
Qed.

Lemma sortBy_sorted l : Sorted (leP le) (sortBy le l).
Proof.
  induction l as [|x l IH]; simpl; [constructor|].
  apply insertBy_sorted; exact IH.
Qed.

End Sorting.

Lemma filter_split_perm {A} (p : A -> bool) l :
  Permutation (filter p l ++ filter (fun x => negb (p x)) l) l.
Proof.
  induction l as [|x l IH]; simpl; [reflexivity|].
  destruct (p x); simpl.
  - constructor; exact IH.
  - rewrite <- Permutation_middle. constructor; exact IH.
Qed.

Lemma objectEntries_perm jar : Permutation (objectEntries jar) jar.
Proof.
  unfold objectEntries. rewrite sortBy_perm.
  apply (filter_split_perm (fun e => isArrayIndex (fst e))).
Qed.

Lemma filter_all {A} (p : A -> bool) l :
  Forall (fun x => p x = true) l -> filter p l = l.
Proof.
  induction 1 as [|x l Hx F IH]; simpl; [reflexivity|].
  rewrite Hx, IH; reflexivity.
Qed.

Section Serialization.
Context `{Platform}.

Lemma nameLe_total a b : nameLe a b = false -> nameLe b a = true.
Proof.
  unfold nameLe. rewrite (localeCompare_antisym (fst a) (fst b)).
  destruct (localeCompare (fst a) (fst b)); simpl; congruence.
Qed.

Lemma sortedEntries_sorted jar : Sorted byName (sortedEntries jar).
Proof.
  unfold sortedEntries.
  pose proof (sortBy_sorted _ nameLe nameLe_total
                (filter (fun e => nonEmpty (snd e)) (objectEntries jar))) as S.
  induction S as [|x l S IH Hd]; constructor; auto.
  destruct Hd as [|y l Hy]; constructor.
  unfold leP, nameLe in Hy. unfold byName.
  destruct (localeCompare (fst x) (fst y)); congruence.
Qed.

Lemma sortedEntries_perm jar :
  Forall (fun e => snd e <> []) jar -> Permutation (sortedEntries jar) jar.
Proof.
  intros F. unfold sortedEntries. rewrite sortBy_perm.
  rewrite filter_all; [apply objectEntries_perm|].
  eapply Permutation_Forall; [symmetry; apply objectEntries_perm|].
  eapply Forall_impl; [|exact F].
  intros [n v] N; simpl in *. destruct v; [congruence | reflexivity].
Qed.

End Serialization.

(** ** The extractors *)

Section Extractors.
Context `{Platform}.

Lemma goodEnd_new : goodEnd newHeap.
Proof.
  unfold goodEnd; simpl. repeat split; auto. intros [N|N]; congruence.
Qed.

Lemma goodEnd_finished label h : heapInv h -> goodEnd (finished label h).
Proof.
  intros I. destruct (finished_fields label h I) as (Ej & Ea & Ec & Eh).
  destruct I as (_ & _ & _ & _ & Hj & Hv).
  unfold goodEnd. rewrite Ej, Ea, Ec, Eh. auto.
Qed.

(** A [try] block reads from the host, stores cookies and finishes. *)
Lemma tryBlock_end {A} (r : Result A) (Q : A -> M unit) label :
  (forall a, quiet (Q a)) ->
  goodEnd (snd (bind (call r) (fun x => bind (Q x) (fun _ => finishExtraction label))
                  newHeap)).
Proof.
  intros Qq. unfold bind at 1. unfold call. destruct r as [a|e].
  - destruct (Qq a newHeap) as ([] & h1 & E & S).
    unfold bind. rewrite E. rewrite finishExtraction_run. cbn [snd].
    apply goodEnd_finished. eapply stores_inv; [exact S | apply heapInv_new].
  - apply goodEnd_new.
Qed.

Lemma quiet_forEachRow output row :
  (forall line, quiet (row line)) -> quiet (forEachRow output row).
Proof.
  intros Q. unfold forEachRow. destruct (nonEmpty (trim output));
    [apply quiet_forEach; exact Q | apply quiet_ret].
Qed.

Lemma quiet_chromeRow w line : quiet (chromeRow w line).
Proof.
  intros h. rewrite chromeRow_entry.
  destruct (chromeEntry w line) as [[n v]|] eqn:E.
  - apply quiet_storeCookie.
    pose proof (chromeEntries_nonempty w [line]) as F.
    unfold chromeEntries in F; simpl in F. rewrite E in F.
    inversion F; assumption.
  - exists tt, h; split; [reflexivity | constructor].
Qed.

Lemma quiet_firefoxRow line : quiet (firefoxRow line).
Proof.
  unfold firefoxRow.
  destruct (split 124 line) as [|name [|value rest]]; try apply quiet_ret.
  destruct (nonEmpty name); simpl; [|apply quiet_ret].
  destruct value as [|c v]; simpl; [apply quiet_ret|].
  apply quiet_storeCookie; discriminate.
Qed.

Lemma tryBlockOf_goodEnd w options s body :
  tryBlockOf w options s = Some body -> goodEnd (snd (body newHeap)).
Proof.
  destruct s; simpl.
  - destruct (getSafariCookiesPath w) as [[|c p]|]; try discriminate.
    intros E; injection E as <-. unfold safariTry.
    apply (tryBlock_end (readCookieFile w (c :: p))
             (fun data => parseSafariCookies (safariFuel data) data)).
    intros data. apply quiet_parseSafariCookies. unfold safariFuel, blength. lia.
  - destruct (existsSync w _); [|discriminate].
    intros E; injection E as <-. unfold chromeTry.
    apply (tryBlock_end (chromeQuery w _)
             (fun output => forEachRow output (chromeRow w))).
    intros output. apply quiet_forEachRow, quiet_chromeRow.
  - destruct (getFirefoxCookiesPath w (firefoxProfile options)) as [[[|c p]|]|];
      try discriminate.
    intros E; injection E as <-. unfold firefoxTry.
    apply (tryBlock_end (firefoxQuery w _)
             (fun output => forEachRow output firefoxRow)).
    intros output. apply quiet_forEachRow, quiet_firefoxRow.
Qed.

Lemma runExtraction_cookies body failure nothingFound r :
  runExtraction body failure nothingFound = Done r ->
  cookies r = hCookies (snd (body newHeap)).
Proof.
  unfold runExtraction. destruct (body newHeap) as [[[]| |] h];
    try discriminate; intros E; injection E as <-; reflexivity.
Qed.

(** The cookies of an extraction are those of the heap its [try] block
    ends with. *)
Lemma extractFrom_cookies w options s r :
  extractFrom w options s = Done r ->
  match tryBlockOf w options s with
  | Some body => cookies r = hCookies (snd (body newHeap))
  | None => cookies r = noCookies
  end.
Proof.
  destruct s; simpl.
  - unfold extractCookiesFromSafari.
    destruct (getSafariCookiesPath w) as [[|c p]|];
      try (intros E; injection E as <-; reflexivity).
    apply runExtraction_cookies.
  - unfold extractCookiesFromChrome.
    destruct (existsSync w _); simpl;
      [apply runExtraction_cookies | intros E; injection E as <-; reflexivity].
  - unfold extractCookiesFromFirefox.
    destruct (getFirefoxCookiesPath w (firefoxProfile options)) as [[[|c p]|]|];
      try discriminate;
      try (intros E; injection E as <-; reflexivity).
    apply runExtraction_cookies.
Qed.

Lemma extractFrom_goodEnd w options s r :
  extractFrom w options s = Done r ->
  cookieHeader (cookies r) = jarHeader (discoveredJar w options s)
  /\ (authToken (cookies r) <> None \/ ct0 (cookies r) <> None ->
      discoveredJar w options s <> [])
  /\ Forall (fun e => snd e <> []) (discoveredJar w options s).
Proof.
  intros E. apply extractFrom_cookies in E. unfold discoveredJar.
  destruct (tryBlockOf w options s) as [body|] eqn:T.
  - rewrite E. apply (tryBlockOf_goodEnd _ _ _ _ T).
  - rewrite E. simpl. repeat split; auto. intros [N|N]; congruence.
Qed.

(** C2, amended.  The cookie header of an extraction is set exactly when
    its jar has an entry, which is the case whenever a token was found, and
    it is then the entries of the jar as name=value, in the order of their
    names, joined by "; ".  The cookie header of a resolution is set
    exactly when both tokens are, and is the header of a browser source or
    the two tokens in their fixed order. *)
Theorem cookieHeader_invariant (w : World) (options : Options) :
  (forall s r,
      extractFrom w options s = Done r ->
      (cookieHeader (cookies r) <> None <-> discoveredJar w options s <> [])
      /\ (authToken (cookies r) <> None \/ ct0 (cookies r) <> None ->
          cookieHeader (cookies r) <> None)
      /\ (forall header,
             cookieHeader (cookies r) = Some header ->
             exists entries,
               header = join (js "; ") (map cookiePair entries)
               /\ Permutation entries (discoveredJar w options s)
               /\ Sorted byName entries))
  /\ (forall res,
         outcome (resolveCredentials w options) = Done res ->
         (cookieHeader (cookies res) <> None <->
          authToken (cookies res) <> None /\ ct0 (cookies res) <> None)
         /\ (cookieHeader (cookies res) = None
             \/ cookieHeader (cookies res) = Some (directHeader (cookies res))
             \/ exists s,
                  In s (sourcesToTry options)
                  /\ discoveredJar w options s <> []
                  /\ cookieHeader (cookies res)
                     = Some (serializeCookieJar (discoveredJar w options s)))).
Proof.
  split.
  - intros s r E. destruct (extractFrom_goodEnd w options s r E) as (Eh & Ej & Ev).
    rewrite Eh. unfold jarHeader.
    destruct (discoveredJar w options s) as [|e jar] eqn:J.
    + repeat split; try congruence.
      intros T; specialize (Ej T); congruence.
    + repeat split; try congruence; try discriminate.
      intros header E'; injection E' as <-.
      exists (sortedEntries (e :: jar)). split; [reflexivity|].
      split; [apply sortedEntries_perm; exact Ev | apply sortedEntries_sorted].
  - intros res E.
    destruct (resolveCredentials_origin w options res E)
      as [(Ec & ->)|[(Ec & Er)|(Ec & s & r & I & Es & Ecr & Er)]].
    + apply isComplete_inv in Ec as (a & t & Ea & Et & _).
      cbn [cookies setCookieHeader cookieHeader authToken ct0].
      split; [split; [intros _; split; congruence | discriminate]|].
      right; left. unfold directHeader; simpl. reflexivity.
    + rewrite Er. rewrite beforeCascade_closed in *.
      cbn [cookieHeader authToken ct0] in *. split; [|left; reflexivity].
      split; [congruence|]. intros (Na & Nt). exfalso.
      unfold isComplete in Ec; cbn [authToken ct0] in Ec.
      destruct (tokenFrom_None_or_truthy w (optAuthToken options) envAuthKeys)
        as [E1|E1]; [congruence|].
      destruct (tokenFrom_None_or_truthy w (optCt0 options) envCt0Keys)
        as [E2|E2]; [congruence|].
      rewrite E1, E2 in Ec. discriminate.
    + rewrite Er. destruct (extractFrom_goodEnd w options s r Es) as (Eh & Ej & _).
      apply isComplete_inv in Ecr as (a & t & Ea & Et & _).
      assert (J : discoveredJar w options s <> []) by (apply Ej; left; congruence).
      rewrite Eh. unfold jarHeader.
      destruct (discoveredJar w options s) as [|e jar] eqn:D; [congruence|].
      split; [split; [intros _; split; congruence | discriminate]|].
      right; right. exists s. rewrite D. auto.
Qed.

End Extractors.

Lemma chromeTry_duplicates_witness :
  exists h,
    chromeTry (H := asciiPlatform) (chromeWorld duplicateRows) None
      (js "/Chrome/Default/Cookies") newHeap = (Done tt, h)
    /\ authToken (hCookies h) = Some (js "aaaa")
    /\ ct0 (hCookies h) = Some (js "ct00")
    /\ jarGet (js "auth_token") (hJar h) = Some (js "bbbb")
    /\ cookieHeader (hCookies h) = Some (js "auth_token=bbbb; ct0=ct00").
Proof.
  destruct (chromeTry_duplicates (H := asciiPlatform) (chromeWorld duplicateRows) None
              (js "/Chrome/Default/Cookies") duplicateRows eq_refl)
    as (h & E & Ea & Ec & Ej & _ & Eh).
  exists h. split; [exact E|].
  split; [rewrite Ea; vm_compute; reflexivity|].
  split; [rewrite Ec; vm_compute; reflexivity|].
  split; [rewrite Ej by (vm_compute; discriminate); vm_compute; reflexivity|].
  vm_compute in E. injection E as <-. vm_compute. reflexivity.
Defined.

(** C9 as stated fails: a later row of the same name leaves the token field
    as it is, and replaces the value in the jar and in the cookie header. *)
Lemma chromeTry_duplicates_counterexample :
  exists r1 r2,
    extractCookiesFromChrome (H := asciiPlatform) (chromeWorld plainRows) None = Done r1
    /\ extractCookiesFromChrome (H := asciiPlatform) (chromeWorld duplicateRows) None
       = Done r2
    /\ authToken (cookies r1) = Some (js "aaaa")
    /\ authToken (cookies r2) = Some (js "aaaa")
    /\ cookieHeader (cookies r1) = Some (js "auth_token=aaaa; ct0=ct00")
    /\ cookieHeader (cookies r2) = Some (js "auth_token=bbbb; ct0=ct00")
    /\ cookieHeader (cookies r2) <> cookieHeader (cookies r1).
Proof.
  eexists; eexists.
  split; [vm_compute; reflexivity|]. split; [vm_compute; reflexivity|].
  repeat split; try reflexivity. vm_compute; discriminate.
Qed.

(** A row named "__proto__" whose value decrypts adds nothing to the jar:
    there is no header. *)
Example extractCookiesFromChrome_proto_row :
  extractCookiesFromChrome (H := asciiPlatform) (chromeWorld (js "__proto__|61616161")) None
  = Done {| cookies := noCookies;
            warnings := [js "No Twitter cookies found in Chrome. Make sure you are logged into x.com in Chrome."] |}
  /\ chromeEntries (chromeWorld (js "__proto__|61616161")) [js "__proto__|61616161"]
     = [(js "__proto__", js "aaaa")].
Proof. split; vm_compute; reflexivity. Qed.

(** C2 as stated fails: an extraction that finds the session token alone
    sets the cookie header. *)
Lemma cookieHeader_invariant_counterexample :
  exists r,
    extractCookiesFromFirefox (H := asciiPlatform) firefoxPartialWorld None = Done r
    /\ authToken (cookies r) = Some (js "firefox_auth")
    /\ ct0 (cookies r) = None
    /\ cookieHeader (cookies r) = Some (js "auth_token=firefox_auth")
    /\ ~ (cookieHeader (cookies r) <> None <->
          authToken (cookies r) <> None /\ ct0 (cookies r) <> None).
Proof.
  eexists. split; [vm_compute; reflexivity|].
  repeat split; try reflexivity.
  intros [F _]. destruct F as [_ F]; [discriminate|]. apply F; reflexivity.
Qed.

(** C6 as stated fails: a record whose name is blank, hence empty once
    trimmed, contributes that name with its value. *)
Lemma safariCookieEntry_counterexample :
  trim (js " ") = []
  /\ safariCookieEntry (H := asciiPlatform)
       (Some (js ".x.com")) (Some (js " ")) (Some (js "v"))
     = Some (js " ", js "v")
  /\ parseSafariCookies (H := asciiPlatform) (safariFuel blankNameFile) blankNameFile
       newHeap
     = (Done tt, {| hJar := [(js " ", js "v")]; hCookies := noCookies; hOob := 0 |}).
Proof. repeat split; vm_compute; reflexivity. Qed.

(** The strings of the record of that file, and a record named "__proto__"
    on an allow-listed domain, which is not stored. *)
Example recordStrings_samples :
  recordStrings (skipn 12 blankNameFile) 16
  = Some (Some (js ".x.com"), Some (js " "), Some (js "v"))
  /\ recordStrings (skipn 12 protoNameFile) 16
     = Some (Some (js ".x.com"), Some (js "__proto__"), Some (js "v"))
  /\ parseSafariCookies (H := asciiPlatform) (safariFuel protoNameFile) protoNameFile
       newHeap
     = (Done tt, newHeap).
Proof. repeat split; vm_compute; reflexivity. Qed.

Lemma parseSafariCookies_safe_witness :
  exists h',
    parseSafariCookies (H := asciiPlatform) (safariFuel hugeCountFile) hugeCountFile
      newHeap = (Done tt, h')
    /\ hOob h' = hOob newHeap
    /\ stores newHeap h'
    /\ (firstn 4 hugeCountFile <> list_byte_of_string "cook" -> h' = newHeap).
Proof.
  exact (parseSafariCookies_safe (H := asciiPlatform) hugeCountFile newHeap).
Defined.

(** A file cut short inside its only page gives no cookie: the page no longer
    fits in the file.  A header that announces more pages than the file holds
    gives none either. *)
Example parseSafariCookies_truncated :
  parseSafariCookies (H := asciiPlatform) (safariFuel truncatedFile) truncatedFile newHeap
  = (Done tt, {| hJar := []; hCookies := noCookies; hOob := 0 |})
  /\ parseSafariCookies (H := asciiPlatform) (safariFuel hugeCountFile) hugeCountFile
       newHeap
     = (Done tt, newHeap)
  /\ hJar (snd (parseSafariCookies (H := asciiPlatform) (safariFuel sampleSafariFile)
                  sampleSafariFile newHeap))
     = [(js "auth_token", js "safari_auth"); (js "ct0", js "safari_ct0")].
Proof. repeat split; vm_compute; reflexivity. Qed.

Lemma safariCookieEntry_spec_witness :
  safariCookieEntry (H := asciiPlatform)
    (Some (js ".X.com")) (Some (js "auth_token")) (Some (js " abc "))
  = Some (js "auth_token", js "abc").
Proof.
  apply (proj1 (safariCookieEntry_spec (H := asciiPlatform))).
  split; [reflexivity|].
  split; [vm_compute; discriminate|].
  split; [exists (js " abc "); split; reflexivity|].
  split; [vm_compute; discriminate|].
  exists (js ".X.com"). split; [reflexivity|].
  split; [vm_compute; discriminate|].
  exists (js "x.com"). split; left; reflexivity.
Defined.

Lemma cookieHeader_invariant_witness :
  exists entries,
    cookieHeader (cookies chromeResult) <> None
    /\ cookieHeader (cookies chromeResult)
       = Some (join (js "; ") (map cookiePair entries))
    /\ Permutation entries
         (discoveredJar (H := asciiPlatform) cascadeWorld noOptions chrome)
    /\ Sorted (byName (H := asciiPlatform)) entries.
Proof.
  assert (Er : extractFrom (H := asciiPlatform) cascadeWorld noOptions chrome
               = Done chromeResult) by (vm_compute; reflexivity).
  destruct (proj1 (cookieHeader_invariant (H := asciiPlatform) cascadeWorld noOptions)
              chrome chromeResult Er) as (_ & Htok & Hser).
  destruct (Hser _ eq_refl) as (entries & E & P & S).
  exists entries. split; [apply Htok; left; discriminate|].
  split; [rewrite <- E; reflexivity|]. split; [exact P | exact S].
Defined.

(** * Further properties *)

(** ** The shape of an extraction *)

Section ExtractionShape.
Context `{Platform}.

Lemma finished_source label h :
  heapInv h ->
  source (hCookies (finished label h)) =
  if truthy (authToken (hCookies h)) || truthy (ct0 (hCookies h))
  then Some label else None.
Proof.
  intros (_ & Hs & _). unfold finished, finishExtraction. cbn [snd hCookies].
  destruct (hJar h) as [|e jar];
    cbn [setCookieHeader authToken ct0];
    destruct (truthy (authToken (hCookies h)) || truthy (ct0 (hCookies h)));
    cbn [setSource setCookieHeader source]; auto.
Qed.

Lemma absentOrTruthy_None v : absentOrTruthy v -> (truthy v = false <-> v = None).
Proof.
  intros [->|T]; [split; reflexivity|].
  split; [congruence | intros ->; discriminate].
Qed.

Lemma tryBlock_shape {A} (r : Result A) (Q : A -> M unit) label :
  (forall a, quiet (Q a)) ->
  (exists e,
      r = Thrown e
      /\ bind (call r) (fun x => bind (Q x) (fun _ => finishExtraction label)) newHeap
         = (Throw e, newHeap))
  \/ (exists a h1,
         r = Returned a
         /\ Q a newHeap = (Done tt, h1)
         /\ stores newHeap h1
         /\ bind (call r) (fun x => bind (Q x) (fun _ => finishExtraction label)) newHeap
            = (Done tt, finished label h1)).
Proof.
  intros Qq. destruct r as [a|e].
  - right. destruct (Qq a newHeap) as ([] & h1 & E & S).
    exists a, h1. repeat split; auto.
    unfold bind at 1. unfold call. unfold bind. rewrite E. apply finishExtraction_run.
  - left; exists e; split; reflexivity.
Qed.

(** The [try] block of a source throws before it stores anything, or stores
    cookies and finishes under the label of the source. *)
Lemma tryBlockOf_shape w options s body :
  tryBlockOf w options s = Some body ->
  (exists e, body newHeap = (Throw e, newHeap))
  \/ (exists h1, stores newHeap h1
                 /\ body newHeap = (Done tt, finished (sourceLabel options s) h1)).
Proof.
  destruct s; simpl.
  - destruct (getSafariCookiesPath w) as [[|c p]|]; try discriminate.
    intros E; injection E as <-. unfold safariTry.
    destruct (tryBlock_shape (readCookieFile w (c :: p))
                (fun data => parseSafariCookies (safariFuel data) data) (js "Safari"))
      as [(e & _ & E)|(a & h1 & _ & _ & S & E)]; eauto.
    intros data. apply quiet_parseSafariCookies. unfold safariFuel, blength. lia.
  - destruct (existsSync w _); [|discriminate].
    intros E; injection E as <-. unfold chromeTry.
    destruct (tryBlock_shape (chromeQuery w (getChromeCookiesPath w (chromeProfile options)))
                (fun output => forEachRow output (chromeRow w))
                (profileLabel (js "Chrome") (chromeProfile options)))
      as [(e & _ & E)|(a & h1 & _ & _ & S & E)]; eauto.
    intros output. apply quiet_forEachRow, quiet_chromeRow.
  - destruct (getFirefoxCookiesPath w (firefoxProfile options)) as [[[|c p]|]|];
      try discriminate.
    intros E; injection E as <-. unfold firefoxTry.
    destruct (tryBlock_shape (firefoxQuery w (c :: p))
                (fun output => forEachRow output firefoxRow)
                (profileLabel (js "Firefox") (firefoxProfile options)))
      as [(e & _ & E)|(a & h1 & _ & _ & S & E)]; eauto.
    intros output. apply quiet_forEachRow, quiet_firefoxRow.
Qed.

(** What the extractor of a source does with its [try] block, and what it
    returns when the store of the source is not found. *)
Lemma extractFrom_run w options s :
  match tryBlockOf w options s with
  | Some body =>
      extractFrom w options s
      = runExtraction body (failurePrefix s) (nothingFoundWarning s)
  | None =>
      (exists warning,
          extractFrom w options s
          = Done {| cookies := noCookies; warnings := [warning] |}
          /\ hd 0 warning <> 77)
      \/ (s = firefox
          /\ exists e, getFirefoxCookiesPath w (firefoxProfile options) = Thrown e
                       /\ extractFrom w options s = Throw e)
  end.
Proof.
  destruct s; simpl.
  - unfold extractCookiesFromSafari.
    destruct (getSafariCookiesPath w) as [[|c p]|]; try reflexivity;
      left; eexists; split; try reflexivity; simpl; lia.
  - unfold extractCookiesFromChrome.
    destruct (existsSync w _); simpl; [reflexivity|].
    left; eexists; split; [reflexivity|]. simpl; lia.
  - unfold extractCookiesFromFirefox.
    destruct (getFirefoxCookiesPath w (firefoxProfile options)) as [[[|c p]|]|e];
      try reflexivity;
      try (left; eexists; split; [reflexivity | simpl; lia]).
    right; split; [reflexivity|]. exists e; auto.
Qed.

Lemma failurePrefix_head s message : hd 0 (failurePrefix s ++ message) <> 77.
Proof. destruct s; simpl; lia. Qed.

Lemma nothingFoundWarning_head s : hd 0 (nothingFoundWarning s) <> 77.
Proof. destruct s; simpl; lia. Qed.

(** The results of an extractor: nothing and one warning when the store is
    not found or cannot be read, and otherwise the cookies of the finished
    heap, with a warning when no token is among them. *)
Lemma extractFrom_cases w options s r :
  extractFrom w options s = Done r ->
  (cookies r = noCookies /\ warnings r <> []
   /\ Forall (fun x => hd 0 x <> 77) (warnings r))
  \/ (exists h1,
         stores newHeap h1
         /\ cookies r = hCookies (finished (sourceLabel options s) h1)
         /\ warnings r
            = if negb (truthy (authToken (hCookies h1)))
                 && negb (truthy (ct0 (hCookies h1)))
              then [nothingFoundWarning s] else []).
Proof.
  intros E. pose proof (extractFrom_run w options s) as R.
  destruct (tryBlockOf w options s) as [body|] eqn:T.
  - rewrite R in E. unfold runExtraction in E.
    destruct (tryBlockOf_shape _ _ _ _ T) as [(e & B)|(h1 & S & B)].
    + rewrite B in E; injection E as <-.
      left. cbn. split; [reflexivity|]. split; [discriminate|].
      repeat constructor; auto using failurePrefix_head, nothingFoundWarning_head.
    + right. exists h1. split; [exact S|].
      assert (I : heapInv h1) by (eapply stores_inv; [exact S | apply heapInv_new]).
      destruct (finished_fields (sourceLabel options s) h1 I) as (_ & Ea & Ec & _).
      revert B E Ea Ec. generalize (finished (sourceLabel options s) h1) as hf.
      intros hf B E Ea Ec. rewrite B in E. injection E as <-.
      cbn [cookies warnings snd]. rewrite Ea, Ec. split; reflexivity.
  - destruct R as [(warning & R & N)|(_ & e & _ & R)]; rewrite R in E;
      [|discriminate].
    injection E as <-. left. cbn. split; [reflexivity|].
    split; [discriminate | repeat constructor; exact N].
Qed.

End ExtractionShape.

(** ** The runs of the cascade *)

Section CascadeRuns.
Context `{Platform}.
Variable w : World.
Variable options : Options.

(** An extractor returns, except that the extractor of Firefox throws what
    the search for its profile throws. *)
Lemma extractFrom_outcome s :
  (exists r, extractFrom w options s = Done r)
  \/ (s = firefox
      /\ exists e, getFirefoxCookiesPath w (firefoxProfile options) = Thrown e
                   /\ extractFrom w options s = Throw e).
Proof.
  pose proof (extractFrom_run w options s) as R.
  destruct (tryBlockOf w options s) as [body|] eqn:T.
  - left. rewrite R. unfold runExtraction.
    destruct (tryBlockOf_shape _ _ _ _ T) as [(e & B)|(h1 & _ & B)];
      rewrite B; eauto.
  - destruct R as [(warning & R & _)|R]; eauto.
Qed.

(** The three ways the loop over the sources ends. *)
Lemma cascade_cases c sources : forall ws calls,
  (Forall (incomplete w options) sources
   /\ cascade w options c sources ws calls
      = {| outcome := Done (validation c (ws ++ flat_map (warningsOf w options) sources));
           probed := calls ++ sources |})
  \/ (exists before s rest r,
         sources = before ++ s :: rest
         /\ Forall (incomplete w options) before
         /\ extractFrom w options s = Done r
         /\ isComplete (cookies r) = true
         /\ cascade w options c sources ws calls
            = {| outcome :=
                   Done {| cookies := cookies r;
                           warnings :=
                             ws ++ flat_map (warningsOf w options) before ++ warnings r |};
                 probed := calls ++ before ++ [s] |})
  \/ (exists before rest e,
         sources = before ++ firefox :: rest
         /\ Forall (incomplete w options) before
         /\ getFirefoxCookiesPath w (firefoxProfile options) = Thrown e
         /\ cascade w options c sources ws calls
            = {| outcome := Throw e; probed := calls ++ before ++ [firefox] |}).
Proof.
  induction sources as [|s sources IH]; intros ws calls.
  - left. split; [constructor|]. simpl. rewrite !app_nil_r. reflexivity.
  - destruct (extractFrom_outcome s) as [(r & Er)|(-> & e & Ef & Er)].
    + destruct (isComplete (cookies r)) eqn:Ec.
      * right; left. exists [], s, sources, r. repeat split; auto.
        simpl. rewrite Er, Ec. reflexivity.
      * assert (I : incomplete w options s) by (exists r; auto).
        assert (W : warningsOf w options s = warnings r)
          by (unfold warningsOf; rewrite Er; reflexivity).
        cbn [cascade]. rewrite Er, Ec.
        destruct (IH (ws ++ warnings r) (calls ++ [s]))
          as [(F & E)|[(before & s' & rest & r' & -> & F & Er' & Ec' & E)
                      |(before & rest & e & -> & F & Ef & E)]];
          rewrite E.
        -- left. split; [constructor; auto|].
           cbn [flat_map]. rewrite W, <- !app_assoc. reflexivity.
        -- right; left. exists (s :: before), s', rest, r'.
           repeat split; auto. cbn [flat_map app]. rewrite W, <- !app_assoc.
           reflexivity.
        -- right; right. exists (s :: before), rest, e.
           repeat split; auto. cbn [app]. rewrite <- !app_assoc. reflexivity.
    + right; right. exists [], sources, e. repeat split; auto.
      simpl in *. rewrite Er. reflexivity.
Qed.

End CascadeRuns.

Lemma Forall_removelast {A} (P : A -> Prop) l : Forall P l -> Forall P (removelast l).
Proof.
  induction 1 as [|x l Hx F IH]; simpl; [constructor|].
  destruct l; [constructor | constructor; auto].
Qed.

Lemma extractFrom_warnings_head `{Platform} w options s r :
  extractFrom w options s = Done r -> Forall (fun x => hd 0 x <> 77) (warnings r).
Proof.
  intros E. destruct (extractFrom_cases w options s r E) as [(_ & _ & F)|(h1 & _ & _ & ->)];
    [exact F|].
  destruct (negb _ && negb _); repeat constructor. apply nothingFoundWarning_head.
Qed.

Lemma warningsOf_head `{Platform} w options l :
  Forall (fun x => hd 0 x <> 77) (flat_map (warningsOf w options) l).
Proof.
  induction l as [|s l IH]; simpl; [constructor|].
  apply Forall_app; split; [|exact IH]. unfold warningsOf.
  destruct (extractFrom w options s) as [r| |] eqn:E; try constructor.
  eapply extractFrom_warnings_head; eauto.
Qed.

Lemma no_missing_warning ws warning :
  Forall (fun x => hd 0 x <> 77) ws -> hd 0 warning = 77 -> ~ In warning ws.
Proof.
  intros F Hw I. rewrite Forall_forall in F. apply (F _ I). exact Hw.
Qed.

(** X1.  resolveCredentials calls the extractors of an initial part of the
    requested sources, in their order, and each source it calls before the
    last one returned without both tokens. *)
Theorem resolveCredentials_probes_in_order `{Platform} (w : World) (options : Options) :
  (exists rest, sourcesToTry options = probed (resolveCredentials w options) ++ rest)
  /\ Forall (incomplete w options) (removelast (probed (resolveCredentials w options))).
Proof.
  unfold resolveCredentials.
  destruct (isComplete (beforeCascade w options)).
  - simpl. split; [eauto | constructor].
  - destruct (cascade_cases w options (beforeCascade w options) (sourcesToTry options) [] [])
      as [(F & E)|[(before & s & rest & r & Es & F & _ & _ & E)
                  |(before & rest & e & Es & F & _ & E)]];
      rewrite E; cbn [probed app].
    + split; [exists []; rewrite app_nil_r; reflexivity|].
      apply Forall_removelast; exact F.
    + rewrite removelast_last. split; [|exact F].
      exists rest. rewrite Es, <- app_assoc. reflexivity.
    + rewrite removelast_last. split; [|exact F].
      exists rest. rewrite Es, <- app_assoc. reflexivity.
Qed.


(** X3.  The result of resolveCredentials has the warning for a missing
    auth_token exactly when its authToken is null, and the warning for a
    missing ct0 exactly when its ct0 is null. *)
Theorem resolveCredentials_missing_warnings `{Platform} (w : World) (options : Options)
  (res : CookieExtractionResult) :
  outcome (resolveCredentials w options) = Done res ->
  (In missingAuthTokenWarning (warnings res) <-> authToken (cookies res) = None)
  /\ (In missingCt0Warning (warnings res) <-> ct0 (cookies res) = None).
Proof.
  unfold resolveCredentials.
  destruct (isComplete (beforeCascade w options)) eqn:Ec.
  - intros E; injection E as <-. apply isComplete_inv in Ec as (a & t & Ea & Et & _).
    cbn [cookies warnings setCookieHeader authToken ct0]. rewrite Ea, Et.
    split; (split; [intros [] | discriminate]).
  - destruct (cascade_cases w options (beforeCascade w options) (sourcesToTry options) [] [])
      as [(F & E)|[(before & s & rest & r & Es & F & Er & Ecr & E)
                  |(before & rest & e & Es & F & Ef & E)]];
      rewrite E; cbn [outcome]; intros E'; [| |discriminate]; injection E' as <-.
    + pose proof (warningsOf_head w options (sourcesToTry options)) as Hd.
      cbn [app] in *. unfold validation. cbn [cookies warnings]. rewrite Ec.
      rewrite beforeCascade_closed in *. cbn [authToken ct0] in *.
      pose proof (absentOrTruthy_None _
                    (tokenFrom_None_or_truthy w (optAuthToken options) envAuthKeys)) as Ta.
      pose proof (absentOrTruthy_None _
                    (tokenFrom_None_or_truthy w (optCt0 options) envCt0Keys)) as Tc.
      pose proof (no_missing_warning _ missingAuthTokenWarning Hd eq_refl) as Na.
      pose proof (no_missing_warning _ missingCt0Warning Hd eq_refl) as Nc.
      rewrite <- Ta, <- Tc.
      destruct (truthy (tokenFrom w (optAuthToken options) envAuthKeys));
        destruct (truthy (tokenFrom w (optCt0 options) envCt0Keys));
        cbn [negb]; rewrite ?in_app_iff; cbn [In];
        change (js "Missing auth_token - provide via --auth-token, AUTH_TOKEN env var, or login to x.com in Safari/Chrome/Firefox")
          with missingAuthTokenWarning;
        change (js "Missing ct0 - provide via --ct0, CT0 env var, or login to x.com in Safari/Chrome/Firefox")
          with missingCt0Warning;
        assert (D : missingAuthTokenWarning <> missingCt0Warning)
          by (vm_compute; discriminate);
        intuition congruence.
    + apply isComplete_inv in Ecr as (a & t & Ea & Et & _).
      cbn [cookies warnings app]. rewrite Ea, Et.
      pose proof (warningsOf_head w options before) as Hd.
      pose proof (extractFrom_warnings_head w options s r Er) as Hr.
      assert (Hall : Forall (fun x => hd 0 x <> 77)
                       (flat_map (warningsOf w options) before ++ warnings r))
        by (apply Forall_app; auto).
      split; (split; [intros I; exfalso; revert I; apply no_missing_warning;
                      [exact Hall | reflexivity]
                     | discriminate]).
Qed.

Lemma resolveCredentials_missing_warnings_witness :
  exists res,
    outcome (resolveCredentials (H := asciiPlatform) firefoxPartialWorld cliCt0Options)
    = Done res
    /\ In missingAuthTokenWarning (warnings res)
    /\ ~ In missingCt0Warning (warnings res).
Proof.
  eexists. split; [vm_compute; reflexivity|].
  destruct (resolveCredentials_missing_warnings (H := asciiPlatform)
              firefoxPartialWorld cliCt0Options _ eq_refl) as (Ha & Hc).
  split; [apply Ha; reflexivity|]. intros I. apply Hc in I. discriminate I.
Defined.

Lemma firstEnv_normalized w w' keys :
  (forall key, In key keys -> normalizeValue (env w key) = normalizeValue (env w' key)) ->
  firstEnv w keys = firstEnv w' keys.
Proof.
  induction keys as [|k keys IH]; intros E; simpl; [reflexivity|].
  rewrite <- (E k) by (left; reflexivity).
  rewrite IH by (intros key I; apply E; right; exact I). reflexivity.
Qed.

Lemma cascade_agree `{Platform} w1 w2 options c sources : forall ws calls,
  (forall s, In s sources -> extractFrom w1 options s = extractFrom w2 options s) ->
  cascade w1 options c sources ws calls = cascade w2 options c sources ws calls.
Proof.
  induction sources as [|s sources IH]; intros ws calls E; simpl; [reflexivity|].
  rewrite (E s) by (left; reflexivity).
  destruct (extractFrom w2 options s) as [r| |]; try reflexivity.
  destruct (isComplete (cookies r)); [reflexivity|].
  apply IH. intros s' I. apply E. right; exact I.
Qed.

(** X4.  resolveCredentials reads its host through normalizeValue of the
    four environment variables and through the results of the extractors it
    tries, and through nothing else: two hosts that agree on these give the
    same result, a blank or empty variable counting as an unset one.  When
    the arguments and the variables give both tokens, agreement on the
    variables is enough. *)
Theorem resolveCredentials_env_normalized `{Platform} (w1 w2 : World) (options : Options) :
  (forall key, In key (envAuthKeys ++ envCt0Keys) ->
               normalizeValue (env w1 key) = normalizeValue (env w2 key)) ->
  (isComplete (beforeCascade w1 options) = true
   \/ forall s, In s (sourcesToTry options) ->
                extractFrom w1 options s = extractFrom w2 options s) ->
  resolveCredentials w1 options = resolveCredentials w2 options.
Proof.
  intros E X.
  assert (B : beforeCascade w1 options = beforeCascade w2 options).
  { rewrite !beforeCascade_closed. unfold tokenFrom, labelFrom.
    rewrite (firstEnv_normalized w1 w2 envAuthKeys)
      by (intros key I; apply E, in_or_app; left; exact I).
    rewrite (firstEnv_normalized w1 w2 envCt0Keys)
      by (intros key I; apply E, in_or_app; right; exact I).
    reflexivity. }
  unfold resolveCredentials. rewrite <- B.
  destruct (isComplete (beforeCascade w1 options)) eqn:C; [reflexivity|].
  destruct X as [X|X]; [discriminate|].
  apply cascade_agree. exact X.
Qed.

Lemma resolveCredentials_env_normalized_witness :
  resolveCredentials (H := asciiPlatform) blankEnvWorld noOptions
  = resolveCredentials (H := asciiPlatform) cascadeWorld noOptions.
Proof.
  apply (resolveCredentials_env_normalized (H := asciiPlatform) blankEnvWorld cascadeWorld
           noOptions).
  - intros key I. simpl in I.
    repeat (destruct I as [<-|I]; [vm_compute; reflexivity|]). destruct I.
  - right. intros s I. simpl in I.
    repeat (destruct I as [<-|I]; [vm_compute; reflexivity|]). destruct I.
Defined.

Example resolveCredentials_blank_environment :
  outcome (resolveCredentials (H := asciiPlatform) blankEnvWorld noOptions)
  = Done chromeResult.
Proof. vm_compute; reflexivity. Qed.

(** X5.  A token that resolveCredentials returns is never an empty string,
    and when it returns both tokens it returns a cookie header and a label
    of their origin with them. *)
Theorem resolveCredentials_usable `{Platform} (w : World) (options : Options)
  (res : CookieExtractionResult) :
  outcome (resolveCredentials w options) = Done res ->
  absentOrTruthy (authToken (cookies res))
  /\ absentOrTruthy (ct0 (cookies res))
  /\ (authToken (cookies res) <> None -> ct0 (cookies res) <> None ->
      cookieHeader (cookies res) <> None /\ source (cookies res) <> None).
Proof.
  intros E.
  destruct (resolveCredentials_origin w options res E)
    as [(Ec & ->)|[(Ec & Er)|(Ec & s & r & I & Es & Ecr & Er)]].
  - cbn [cookies setCookieHeader authToken ct0 cookieHeader source].
    unfold isComplete in Ec. apply andb_true_iff in Ec as (Ta & Tc).
    split; [right; exact Ta|]. split; [right; exact Tc|].
    intros _ _. split; [discriminate|].
    rewrite beforeCascade_closed in *. cbn [authToken source] in *.
    unfold tokenFrom in Ta. unfold labelFrom.
    destruct (truthy (optAuthToken options)); [discriminate|].
    destruct (firstEnv w envAuthKeys) as [[k v]|]; [discriminate | discriminate Ta].
  - rewrite Er. rewrite beforeCascade_closed in *. cbn [authToken ct0] in *.
    pose proof (tokenFrom_None_or_truthy w (optAuthToken options) envAuthKeys) as Ta.
    pose proof (tokenFrom_None_or_truthy w (optCt0 options) envCt0Keys) as Tc.
    split; [exact Ta|]. split; [exact Tc|]. intros Na Nt. exfalso.
    unfold isComplete in Ec. cbn [authToken ct0] in Ec.
    destruct Ta as [Ta|Ta]; [congruence|]. destruct Tc as [Tc|Tc]; [congruence|].
    rewrite Ta, Tc in Ec. discriminate.
  - rewrite Er. unfold isComplete in Ecr. apply andb_true_iff in Ecr as (Ta & Tc).
    split; [right; exact Ta|]. split; [right; exact Tc|]. intros Na _.
    destruct (extractFrom_goodEnd w options s r Es) as (Eh & Ej & _).
    assert (J : discoveredJar w options s <> []) by (apply Ej; left; exact Na).
    split.
    + rewrite Eh. unfold jarHeader.
      destruct (discoveredJar w options s); [congruence | discriminate].
    + destruct (extractFrom_cases w options s r Es) as [(E0 & _)|(h1 & S & Ecs & _)].
      * rewrite E0 in Na. exfalso; apply Na; reflexivity.
      * assert (Ih : heapInv h1) by (eapply stores_inv; [exact S | apply heapInv_new]).
        rewrite Ecs, finished_source by exact Ih.
        destruct (finished_fields (sourceLabel options s) h1 Ih) as (_ & Fa & _).
        rewrite Ecs, Fa in Ta. rewrite Ta. discriminate.
Qed.

Lemma resolveCredentials_usable_witness :
  exists res,
    outcome (resolveCredentials (H := asciiPlatform) cascadeWorld noOptions) = Done res
    /\ cookieHeader (cookies res) <> None
    /\ source (cookies res) <> None.
Proof.
  eexists. split; [vm_compute; reflexivity|].
  destruct (resolveCredentials_usable (H := asciiPlatform) cascadeWorld noOptions
              {| cookies := cookies chromeResult; warnings := [] |})
    as (_ & _ & U).
  - vm_compute; reflexivity.
  - apply U; discriminate.
Defined.

(** X6.  An extractor that returns gives tokens that are absent or not
    empty; when it found a token it gives the label of its source and no
    warning, and when it found none it gives no label and at least one
    warning. *)
Theorem extractFrom_label_and_warnings `{Platform} (w : World) (options : Options)
  (s : CookieSource) (r : CookieExtractionResult) :
  extractFrom w options s = Done r ->
  absentOrTruthy (authToken (cookies r))
  /\ absentOrTruthy (ct0 (cookies r))
  /\ (tokenFound (cookies r) ->
      source (cookies r) = Some (sourceLabel options s) /\ warnings r = [])
  /\ (~ tokenFound (cookies r) -> source (cookies r) = None /\ warnings r <> []).
Proof.
  intros E. unfold tokenFound.
  destruct (extractFrom_cases w options s r E) as [(E0 & W & _)|(h1 & S & Ec & Ew)].
  - rewrite E0. cbn. split; [left; reflexivity|]. split; [left; reflexivity|].
    split; [intros [N|N]; congruence | auto].
  - assert (I : heapInv h1) by (eapply stores_inv; [exact S | apply heapInv_new]).
    destruct (finished_fields (sourceLabel options s) h1 I) as (_ & Fa & Fc & _).
    rewrite Ec, Fa, Fc, finished_source, Ew by exact I.
    destruct I as (_ & _ & Ta & Tc & _).
    pose proof (absentOrTruthy_None _ Ta) as Na.
    pose proof (absentOrTruthy_None _ Tc) as Nc.
    split; [exact Ta|]. split; [exact Tc|].
    destruct (truthy (authToken (hCookies h1)));
      destruct (truthy (ct0 (hCookies h1))); cbn [negb andb orb];
      split; try (intros _; split; [reflexivity | reflexivity || discriminate]);
      try (intros N; exfalso; apply N; intuition congruence);
      try (intros [N|N]; exfalso; apply N; intuition).
Qed.

Lemma extractFrom_label_and_warnings_witness :
  extractFrom (H := asciiPlatform) cascadeWorld noOptions chrome = Done chromeResult
  /\ source (cookies chromeResult) = Some (sourceLabel noOptions chrome)
  /\ warnings chromeResult = [].
Proof.
  assert (Er : extractFrom (H := asciiPlatform) cascadeWorld noOptions chrome
               = Done chromeResult) by (vm_compute; reflexivity).
  split; [exact Er|].
  destruct (extractFrom_label_and_warnings (H := asciiPlatform) cascadeWorld noOptions
              chrome chromeResult Er) as (_ & _ & F & _).
  apply F. left; discriminate.
Defined.

(** ** The decryptor on values that are not encrypted *)

Lemma hexDecode_length s : 2 * blength (hexDecode s) <= Z.of_nat (List.length s).
Proof.
  unfold blength.
  assert (G : forall n s, (List.length s <= n)%nat ->
                          2 * Z.of_nat (List.length (hexDecode s)) <= Z.of_nat (List.length s)).
  { induction n as [|n IH]; intros [|a [|b r]] L; cbn [hexDecode List.length] in *;
      try lia.
    assert (Lr : (List.length r <= n)%nat) by lia.
    specialize (IH r Lr).
    destruct (unhex (Z.land a 255)), (unhex (Z.land b 255)); cbn [List.length]; lia. }
  apply (G (List.length s)); lia.
Qed.

Lemma not_versionPrefixed_tag encryptedValue :
  3 <= blength encryptedValue ->
  ~ versionPrefixed encryptedValue ->
  isVersionTag (toStringUtf8 encryptedValue 0 3) = false.
Proof.
  intros L N. unfold isVersionTag.
  destruct (str_eqb (toStringUtf8 encryptedValue 0 3) (js "v10")) eqn:E0.
  - exfalso; apply N; left. apply str_eqb_eq in E0.
    apply (toStringUtf8_literal encryptedValue 3 "v10"); auto; try lia; try reflexivity.
    unfold js; simpl; repeat constructor.
  - destruct (str_eqb (toStringUtf8 encryptedValue 0 3) (js "v11")) eqn:E1;
      [|reflexivity].
    exfalso; apply N; right. apply str_eqb_eq in E1.
    apply (toStringUtf8_literal encryptedValue 3 "v11"); auto; try lia; try reflexivity.
    unfold js; simpl; repeat constructor.
Qed.

(** X7.  A value of four bytes or more that does not start with "v10" or
    "v11" is returned as its UTF-8 text, whatever the keychain and the cipher
    do; a value of fewer than four bytes, so any hexadecimal string of fewer
    than eight characters, gives null even when it is not encrypted. *)
Theorem decryptCookieValue_plain (w : World) (encryptedHex : jsstring) :
  (4 <= blength (hexDecode encryptedHex) ->
   ~ versionPrefixed (hexDecode encryptedHex) ->
   decryptCookieValue w encryptedHex = Returned (Some (utf8Decode (hexDecode encryptedHex))))
  /\ (blength (hexDecode encryptedHex) < 4 ->
      decryptCookieValue w encryptedHex = Returned None)
  /\ ((List.length encryptedHex < 8)%nat ->
      decryptCookieValue w encryptedHex = Returned None).
Proof.
  assert (S : blength (hexDecode encryptedHex) < 4 ->
              decryptCookieValue w encryptedHex = Returned None).
  { intros L. unfold decryptCookieValue, decryptCookieValueBody.
    destruct (Z.ltb_spec (blength (hexDecode encryptedHex)) 4); [reflexivity | lia]. }
  split; [|split; [exact S|]].
  - intros L N. unfold decryptCookieValue, decryptCookieValueBody.
    destruct (Z.ltb_spec (blength (hexDecode encryptedHex)) 4); [lia|].
    rewrite not_versionPrefixed_tag by (auto; lia). reflexivity.
  - intros L. apply S. pose proof (hexDecode_length encryptedHex). lia.
Qed.

Lemma decryptCookieValue_plain_witness :
  decryptCookieValue (decipheringWorld paddedPlaintext) legacyHex
  = Returned (Some (js "test_auth"))
  /\ decryptCookieValue (decipheringWorld paddedPlaintext) shortHex = Returned None.
Proof.
  destruct (decryptCookieValue_plain (decipheringWorld paddedPlaintext) legacyHex)
    as (P & _).
  destruct (decryptCookieValue_plain (decipheringWorld paddedPlaintext) shortHex)
    as (_ & _ & S).
  split.
  - refine (eq_trans (P _ _) _).
    + vm_compute; discriminate.
    + intros [V|V]; vm_compute in V; discriminate V.
    + vm_compute; reflexivity.
  - apply S. vm_compute. lia.
Defined.

(** A code unit above 255 counts by its low byte: U+0136 and U+0131 are
    read as the digits 6 and 1. *)
Example hexDecode_low_byte :
  hexDecode [310; 305; 54; 50; 54; 51; 54; 52] = list_byte_of_string "abcd"
  /\ decryptCookieValue emptyWorld [310; 305; 54; 50; 54; 51; 54; 52]
     = Returned (Some (js "abcd")).
Proof. split; vm_compute; reflexivity. Qed.

Lemma isHexDigit_printable c : isHexDigit c = true -> isPrintable c = true.
Proof.
  unfold isHexDigit, isPrintable, inRange. intros E.
  apply orb_true_iff in E as [E|E]; [apply orb_true_iff in E as [E|E]|];
    apply andb_true_iff in E as [E1 E2]; apply Z.leb_le in E1, E2;
    apply andb_true_iff; split; apply Z.leb_le; lia.
Qed.

Lemma forallb_impl {A} (p q : A -> bool) l :
  (forall x, p x = true -> q x = true) -> forallb p l = true -> forallb q l = true.
Proof.
  intros I. induction l as [|x l IH]; simpl; [reflexivity|].
  rewrite !andb_true_iff. intros [Hx Hl]; auto.
Qed.

Lemma filter_forallb {A} (p : A -> bool) l : forallb p (filter p l) = true.
Proof.
  induction l as [|x l IH]; simpl; [reflexivity|].
  destruct (p x) eqn:E; simpl; [rewrite E; exact IH | exact IH].
Qed.

(** X8.  What the decryptor returns for a value with the "v10" or "v11"
    prefix consists of printable ASCII only: no byte of key material or
    padding outside that range reaches a cookie. *)
Theorem decryptCookieValue_printable (w : World) (encryptedHex value : jsstring) :
  versionPrefixed (hexDecode encryptedHex) ->
  decryptCookieValue w encryptedHex = Returned (Some value) ->
  forallb isPrintable value = true.
Proof.
  intros V. unfold decryptCookieValue.
  destruct (Z.ltb_spec (blength (hexDecode encryptedHex)) 4) as [L|L].
  - unfold decryptCookieValueBody.
    destruct (Z.ltb_spec (blength (hexDecode encryptedHex)) 4); [discriminate | lia].
  - rewrite decryptCookieValueBody_prefixed by assumption.
    destruct (keychain w) as [output|e]; [|discriminate].
    destruct (negb (nonEmpty (trim output))); [discriminate|].
    destruct (decipher w (trim output) (skipn 3 (hexDecode encryptedHex)))
      as [decrypted|e]; [|discriminate].
    destruct (matchHexRun (utf8Decode decrypted)) as [run|] eqn:M; cbn [tryCatch];
      intros E; injection E as <-.
    + apply matchHexRun_Some in M as ((before & after & _ & F & _) & _).
      eapply forallb_impl; [apply isHexDigit_printable | exact F].
    + apply filter_forallb.
Qed.

Lemma decryptCookieValue_printable_witness :
  forallb isPrintable (js "0123456789abcdef0123456789abcdef01234567") = true.
Proof.
  apply (decryptCookieValue_printable (decipheringWorld paddedPlaintext) prefixedHex).
  - left; reflexivity.
  - vm_compute; reflexivity.
Defined.

(** ** Trimmed values *)

Lemma dropWhile_all {A} (p : A -> bool) l : forallb p l = true -> dropWhile p l = [].
Proof.
  induction l as [|x l IH]; simpl; [reflexivity|].
  rewrite andb_true_iff. intros [-> F]. auto.
Qed.

Lemma dropWhile_fixed {A} (p : A -> bool) x l : p x = false -> dropWhile p (x :: l) = x :: l.
Proof. intros E; simpl; rewrite E; reflexivity. Qed.

(** The parts of a string around its trimmed form. *)
Lemma trim_parts s :
  exists before after,
    s = before ++ trim s ++ after
    /\ forallb isWhiteSpace before = true
    /\ forallb isWhiteSpace after = true
    /\ (trim s = []
        \/ exists x middle y,
             trim s = x :: middle /\ rev (trim s) = y :: rev (removelast (trim s))
             /\ isWhiteSpace x = false /\ isWhiteSpace y = false).
Proof.
  unfold trim.
  pose proof (takeWhile_dropWhile isWhiteSpace s) as Es.
  pose proof (takeWhile_forallb isWhiteSpace s) as Fs.
  set (D := dropWhile isWhiteSpace s) in *.
  pose proof (takeWhile_dropWhile isWhiteSpace (rev D)) as Ed.
  pose proof (takeWhile_forallb isWhiteSpace (rev D)) as Fd.
  set (U := dropWhile isWhiteSpace (rev D)) in *.
  set (P := takeWhile isWhiteSpace (rev D)) in *.
  assert (ED : D = rev U ++ rev P).
  { rewrite <- (rev_involutive D), Ed, rev_app_distr. reflexivity. }
  exists (takeWhile isWhiteSpace s), (rev P).
  split; [rewrite Es at 1; rewrite ED; reflexivity|].
  split; [exact Fs|].
  split; [rewrite forallb_forall in *; intros x I; apply Fd, in_rev; exact I|].
  destruct U as [|u U'] eqn:EU; [left; reflexivity|]. right.
  assert (Hu : isWhiteSpace u = false) by (eapply dropWhile_head; exact EU).
  assert (HD : exists x middle, rev (u :: U') = x :: middle).
  { destruct (rev (u :: U')) eqn:R; eauto.
    apply (f_equal (@List.length Z)) in R. rewrite length_rev in R. discriminate. }
  destruct HD as (x & middle & R). exists x, middle, u.
  split; [exact R|]. split.
  - rewrite rev_involutive. f_equal. simpl. rewrite removelast_last, rev_involutive.
    reflexivity.
  - split; [|exact Hu].
    assert (Dx : D = x :: middle ++ rev P) by (rewrite ED, R; reflexivity).
    unfold D in Dx. eapply dropWhile_head; exact Dx.
Qed.

Lemma trim_idempotent s : trim (trim s) = trim s.
Proof.
  destruct (trim_parts s) as (_ & _ & _ & _ & _ & [E|(x & middle & y & E & R & Hx & Hy)]).
  - rewrite E; reflexivity.
  - unfold trim at 1. rewrite E at 1. rewrite dropWhile_fixed by exact Hx.
    rewrite <- E, R, dropWhile_fixed by exact Hy.
    rewrite <- R. apply rev_involutive.
Qed.

Lemma trim_blank s : trim s = [] <-> forallb isWhiteSpace s = true.
Proof.
  split.
  - intros E. destruct (trim_parts s) as (before & after & Es & Fb & Fa & _).
    rewrite E in Es. cbn [app] in Es. rewrite Es, forallb_app, Fb, Fa. reflexivity.
  - intros F. unfold trim. rewrite (dropWhile_all isWhiteSpace s F). reflexivity.
Qed.

(** X9.  normalizeValue gives null exactly for a value that is absent or
    made of white space only; otherwise it gives the value without the white
    space around it, which starts and ends with a character that is not
    white space, and which it leaves as it is when applied again. *)
Theorem normalizeValue_trimmed (s : jsstring) :
  (normalizeValue (Some s) = None <-> forallb isWhiteSpace s = true)
  /\ (forall t,
         normalizeValue (Some s) = Some t ->
         (exists before after,
             s = before ++ t ++ after
             /\ forallb isWhiteSpace before = true
             /\ forallb isWhiteSpace after = true)
         /\ isWhiteSpace (hd 0 t) = false
         /\ isWhiteSpace (last t 0) = false
         /\ normalizeValue (Some t) = Some t).
Proof.
  unfold normalizeValue. split.
  - rewrite <- trim_blank. destruct (trim s); split; congruence.
  - intros t E. assert (Et : trim s = t) by (destruct (trim s); congruence).
    assert (Nt : t <> []) by (destruct (trim s); congruence).
    destruct (trim_parts s) as (before & after & Es & Fb & Fa & [E0|G]);
      [congruence|].
    destruct G as (x & middle & y & Ex & R & Hx & Hy). rewrite Et in *.
    split; [exists before, after; auto|].
    split; [rewrite Ex; exact Hx|]. split.
    + assert (L : t = removelast t ++ [y]).
      { rewrite <- (rev_involutive t) at 1. rewrite R. simpl.
        rewrite rev_involutive. reflexivity. }
      rewrite L, last_last. exact Hy.
    + pose proof (trim_idempotent s) as I. rewrite Et in I. rewrite I.
      destruct t; congruence.
Qed.

(** ** Rows of Firefox *)

Lemma forEach_entries (row : jsstring -> M unit)
  (entry : jsstring -> option (jsstring * jsstring)) :
  (forall line h,
      row line h = match entry line with
                   | Some (n, v) => storeCookie n v h
                   | None => (Done tt, h)
                   end) ->
  forall lines h,
    forEach lines row h = (Done tt, storeAll (keep (map entry lines)) h).
Proof.
  intros R. induction lines as [|line lines IH]; intros h; [reflexivity|].
  cbn [forEach]. unfold bind at 1. rewrite R. cbn [map keep].
  destruct (entry line) as [[n v]|]; cbn [keep]; [|apply IH].
  change (storeCookie n v h) with (Done tt, snd (storeCookie n v h)).
  cbv iota beta. rewrite IH. reflexivity.
Qed.

Lemma firefoxRow_entry line h :
  firefoxRow line h =
  match firefoxEntry line with
  | Some (n, v) => storeCookie n v h
  | None => (Done tt, h)
  end.
Proof.
  unfold firefoxRow, firefoxEntry.
  destruct (split 124 line) as [|name [|value rest]]; try reflexivity.
  destruct (nonEmpty name); simpl; [|reflexivity].
  destruct (nonEmpty value); reflexivity.
Qed.

Lemma firefoxEntries_nonempty lines :
  Forall (fun e => snd e <> []) (firefoxEntries lines).
Proof.
  unfold firefoxEntries. induction lines as [|line lines IH]; simpl; [constructor|].
  destruct (firefoxEntry line) as [[n v]|] eqn:E; [|exact IH].
  constructor; [|exact IH]. unfold firefoxEntry in E.
  destruct (split 124 line) as [|name [|value rest]]; try discriminate.
  destruct (nonEmpty name); simpl in E; [|discriminate].
  destruct value; simpl in E; [discriminate|]. injection E as _ <-. discriminate.
Qed.

(** X10.  Among the rows of a Firefox answer that have a name and a value,
    the first row named auth_token, and the first named ct0, fill the token
    fields, and the jar holds for every name other than "__proto__" the
    value of the last row of that name; it has no entry named "__proto__",
    a row of that name adding nothing; a row without a value is left out. *)
Theorem firefoxTry_rows `{Platform} (w : World) (profile : option jsstring)
  (cookiesPath output : jsstring) :
  firefoxQuery w cookiesPath = Returned output ->
  exists h,
    firefoxTry w profile cookiesPath newHeap = (Done tt, h)
    /\ authToken (hCookies h)
       = option_map snd (find (named (js "auth_token")) (firefoxEntries (rowsOf output)))
    /\ ct0 (hCookies h)
       = option_map snd (find (named (js "ct0")) (firefoxEntries (rowsOf output)))
    /\ (forall name, name <> js "__proto__" ->
          jarGet name (hJar h)
          = option_map snd (find (named name) (rev (firefoxEntries (rowsOf output)))))
    /\ jarGet (js "__proto__") (hJar h) = None.
Proof.
  intros Q. set (entries := firefoxEntries (rowsOf output)).
  assert (F : Forall (fun e => snd e <> []) entries) by apply firefoxEntries_nonempty.
  assert (I : heapInv (storeAll entries newHeap)).
  { eapply stores_inv; [apply stores_storeAll; exact F | apply heapInv_new]. }
  exists (finished (profileLabel (js "Firefox") profile) (storeAll entries newHeap)).
  destruct (finished_fields (profileLabel (js "Firefox") profile) _ I)
    as (Ej & Ea & Ec & _).
  split.
  - unfold firefoxTry. unfold bind at 1. unfold call. rewrite Q.
    unfold bind at 1.
    assert (R : forEachRow output firefoxRow newHeap
                = (Done tt, storeAll entries newHeap)).
    { unfold forEachRow, entries, rowsOf.
      destruct (nonEmpty (trim output));
        [apply (forEach_entries firefoxRow firefoxEntry firefoxRow_entry) | reflexivity]. }
    rewrite R. apply finishExtraction_run.
  - rewrite Ea, Ec, Ej.
    rewrite storeAll_authToken, storeAll_ct0 by exact F. cbn.
    split; [destruct (find _ entries); reflexivity|].
    split; [destruct (find _ entries); reflexivity|].
    split; [|rewrite storeAll_proto; reflexivity].
    intros name N. rewrite storeAll_jar by exact N.
    destruct (find _ (rev entries)); reflexivity.
Qed.

Lemma firefoxTry_rows_witness :
  exists h,
    firefoxTry (H := asciiPlatform) (firefoxWorld firefoxRows) None
      (js "/firefox/cookies.sqlite") newHeap = (Done tt, h)
    /\ authToken (hCookies h) = Some (js "token")
    /\ ct0 (hCookies h) = Some (js "first")
    /\ jarGet (js "ct0") (hJar h) = Some (js "second")
    /\ jarGet (js "guest_id") (hJar h) = None.
Proof.
  destruct (firefoxTry_rows (H := asciiPlatform) (firefoxWorld firefoxRows) None
              (js "/firefox/cookies.sqlite") firefoxRows eq_refl)
    as (h & E & Ea & Ec & Ej & _).
  exists h. split; [exact E|].
  split; [rewrite Ea; vm_compute; reflexivity|].
  split; [rewrite Ec; vm_compute; reflexivity|].
  split; rewrite Ej by (vm_compute; discriminate); vm_compute; reflexivity.
Defined.

(** ** The names of a jar *)

Lemma jarNames_jarUpdate name value jar :
  (In name (jarNames jar) /\ jarNames (jarUpdate name value jar) = jarNames jar)
  \/ (~ In name (jarNames jar)
      /\ jarNames (jarUpdate name value jar) = jarNames jar ++ [name]).
Proof.
  unfold jarNames. induction jar as [|[k x] jar IH]; simpl.
  - right; auto.
  - destruct (str_eqb k name) eqn:E.
    + apply str_eqb_eq in E; subst k. left; simpl; auto.
    + assert (N : k <> name) by (intros ->; rewrite str_eqb_refl in E; discriminate).
      simpl. destruct IH as [(I & ->)|(I & ->)].
      * left; auto.
      * right; split; [intros [G|G]; auto | reflexivity].
Qed.

Lemma NoDup_snoc {A} (l : list A) x : NoDup l -> ~ In x l -> NoDup (l ++ [x]).
Proof.
  induction 1 as [|y l Hy N IH]; intros I; simpl.
  - constructor; [intros [] | constructor].
  - constructor.
    + rewrite in_app_iff; simpl. intros [G|[G|[]]]; [auto | subst; apply I; left; auto].
    + apply IH. intros G; apply I; right; exact G.
Qed.

Lemma jarNames_jarSet name value jar :
  (forall n, In n (jarNames jar) -> In n (jarNames (jarSet name value jar)))
  /\ (NoDup (jarNames jar) -> NoDup (jarNames (jarSet name value jar)))
  /\ (~ In (js "__proto__") (jarNames jar) ->
      ~ In (js "__proto__") (jarNames (jarSet name value jar)))
  /\ (name <> js "__proto__" -> In name (jarNames (jarSet name value jar))).
Proof.
  unfold jarSet. destruct (str_eqb name (js "__proto__")) eqn:E.
  - apply str_eqb_eq in E. repeat split; auto. congruence.
  - assert (N : name <> js "__proto__")
      by (intros ->; rewrite str_eqb_refl in E; discriminate).
    destruct (jarNames_jarUpdate name value jar) as [(I & ->)|(I & ->)].
    + repeat split; auto.
    + split; [intros n G; apply in_or_app; left; exact G|].
      split; [intros D; apply NoDup_snoc; assumption|].
      split.
      * intros P G. apply in_app_or in G as [G|[G|[]]]; auto.
      * intros _. apply in_or_app; right; left; reflexivity.
Qed.

Lemma namesInv_new : namesInv newHeap.
Proof.
  unfold namesInv; simpl. repeat split; auto; try constructor; intros N; congruence.
Qed.

Lemma namesInv_store name value h :
  namesInv h -> namesInv (snd (storeCookie name value h)).
Proof.
  intros (D & P & Ia & Ic). unfold namesInv. cbn [storeCookie snd hJar hCookies].
  destruct (jarNames_jarSet name value (hJar h)) as (Sub & ND & NP & In').
  split; [auto|]. split; [auto|].
  destruct (str_eqb name (js "auth_token") && negb (truthy (authToken (hCookies h)))) eqn:Ea;
    [|destruct (str_eqb name (js "ct0") && negb (truthy (ct0 (hCookies h)))) eqn:Ec];
    cbn [setAuthToken setCt0 authToken ct0]; split; auto.
  - intros _. apply andb_true_iff in Ea as [Ea _]. apply str_eqb_eq in Ea; subst.
    apply In'. vm_compute; discriminate.
  - intros _. apply andb_true_iff in Ec as [Ec _]. apply str_eqb_eq in Ec; subst.
    apply In'. vm_compute; discriminate.
Qed.

Lemma stores_namesInv h h' : stores h h' -> namesInv h -> namesInv h'.
Proof.
  induction 1 as [|h name value h' V S IH]; auto.
  intros I. apply IH. apply namesInv_store; assumption.
Qed.

(** The jar and the tokens of an extraction are those of a heap reached by
    stores. *)
Lemma discoveredJar_cases `{Platform} w options s r :
  extractFrom w options s = Done r ->
  exists h1,
    stores newHeap h1
    /\ discoveredJar w options s = hJar h1
    /\ authToken (cookies r) = authToken (hCookies h1)
    /\ ct0 (cookies r) = ct0 (hCookies h1).
Proof.
  intros E. pose proof (extractFrom_cookies w options s r E) as C.
  unfold discoveredJar.
  destruct (tryBlockOf w options s) as [body|] eqn:T.
  - destruct (tryBlockOf_shape _ _ _ _ T) as [(e & B)|(h1 & S & B)]; rewrite B in *.
    + exists newHeap. rewrite C. repeat split; constructor.
    + exists h1. assert (I : heapInv h1) by (eapply stores_inv; [exact S | apply heapInv_new]).
      destruct (finished_fields (sourceLabel options s) h1 I) as (Ej & Ea & Ec & _).
      cbn [snd] in *. rewrite C. auto.
  - exists newHeap. rewrite C. repeat split; constructor.
Qed.

(** X11.  The jar of an extraction has no name twice and no name
    "__proto__", and it has the name of each token the extraction returns:
    a token is always the value of a stored cookie of its name. *)
Theorem extractFrom_jar_names `{Platform} (w : World) (options : Options)
  (s : CookieSource) (r : CookieExtractionResult) :
  extractFrom w options s = Done r ->
  NoDup (jarNames (discoveredJar w options s))
  /\ ~ In (js "__proto__") (jarNames (discoveredJar w options s))
  /\ (authToken (cookies r) <> None ->
      In (js "auth_token") (jarNames (discoveredJar w options s)))
  /\ (ct0 (cookies r) <> None ->
      In (js "ct0") (jarNames (discoveredJar w options s))).
Proof.
  intros E. destruct (discoveredJar_cases w options s r E) as (h1 & S & -> & -> & ->).
  exact (stores_namesInv _ _ S namesInv_new).
Qed.

Lemma extractFrom_jar_names_witness :
  NoDup (jarNames (discoveredJar (H := asciiPlatform) (chromeWorld duplicateRows)
                     noOptions chrome))
  /\ In (js "auth_token")
        (jarNames (discoveredJar (H := asciiPlatform) (chromeWorld duplicateRows)
                     noOptions chrome)).
Proof.
  assert (E : exists r, extractFrom (H := asciiPlatform) (chromeWorld duplicateRows)
                          noOptions chrome = Done r
                        /\ authToken (cookies r) <> None).
  { eexists. split; [vm_compute; reflexivity | discriminate]. }
  destruct E as (r & E & N).
  destruct (extractFrom_jar_names (H := asciiPlatform) (chromeWorld duplicateRows)
              noOptions chrome r E) as (D & _ & Ia & _).
  split; [exact D | exact (Ia N)].
Defined.

(** ** The header of the two tokens *)

(** X12.  When localeCompare puts "auth_token" before "ct0", a jar that
    holds the two tokens only is serialized as "auth_token=<a>; ct0=<t>",
    whichever of the two was stored first: the header of such an extraction
    is the header resolveCredentials composes from the two tokens. *)
Theorem serializeCookieJar_two_tokens `{Platform} (a t : jsstring) :
  localeCompare (js "auth_token") (js "ct0") = Lt ->
  a <> [] -> t <> [] ->
  serializeCookieJar (jarSet (js "ct0") t (jarSet (js "auth_token") a []))
  = js "auth_token=" ++ a ++ js "; ct0=" ++ t
  /\ serializeCookieJar (jarSet (js "auth_token") a (jarSet (js "ct0") t []))
     = js "auth_token=" ++ a ++ js "; ct0=" ++ t.
Proof.
  intros L Na Nt.
  assert (G : localeCompare (js "ct0") (js "auth_token") = Gt)
    by (rewrite localeCompare_antisym, L; reflexivity).
  destruct a as [|x a]; [congruence|]. destruct t as [|y t]; [congruence|].
  cbn in L, G.
  split; unfold serializeCookieJar, sortedEntries, objectEntries, sortBy, nameLe;
    cbn; rewrite ?L, ?G; cbn; rewrite <- ?app_assoc; reflexivity.
Qed.

Lemma serializeCookieJar_two_tokens_witness :
  serializeCookieJar (H := asciiPlatform)
    (jarSet (js "auth_token") (js "a") (jarSet (js "ct0") (js "b") []))
  = js "auth_token=a; ct0=b".
Proof.
  refine (eq_trans
            (proj2 (serializeCookieJar_two_tokens (H := asciiPlatform) (js "a") (js "b")
                      eq_refl _ _)) _).
  - vm_compute; discriminate.
  - vm_compute; discriminate.
  - reflexivity.
Defined.

(** ** The order of the entries *)

Lemma sorted_head {A} (R : A -> A -> Prop) l : forall x,
  (forall a b c, In a (x :: l) -> In b (x :: l) -> In c (x :: l) ->
                 R a b -> R b c -> R a c) ->
  Sorted R (x :: l) -> Forall (R x) l.
Proof.
  induction l as [|y l IH]; intros x T S; [constructor|].
  inversion S as [|? ? S' Hd]; subst. inversion Hd as [|? ? Rxy]; subst.
  constructor; [exact Rxy|].
  assert (Fy : Forall (R y) l).
  { apply IH; [|exact S']. intros a b c Ia Ib Ic. apply T; right; assumption. }
  rewrite Forall_forall in *. intros z Iz.
  apply (T x y z); [left; auto | right; left; auto | right; right; exact Iz
                   | exact Rxy | apply Fy; exact Iz].
Qed.

Lemma sorted_unique {A} (R : A -> A -> Prop) : forall l1 l2,
  (forall a b c, In a l1 -> In b l1 -> In c l1 -> R a b -> R b c -> R a c) ->
  (forall a b, In a l1 -> In b l1 -> R a b -> R b a -> a = b) ->
  Sorted R l1 -> Sorted R l2 -> Permutation l1 l2 -> l1 = l2.
Proof.
  induction l1 as [|x l1 IH]; intros l2 T Anti S1 S2 P.
  - symmetry. apply Permutation_nil. exact P.
  - destruct l2 as [|y l2].
    + symmetry in P. apply Permutation_nil in P. discriminate.
    + assert (F1 : Forall (R x) l1) by (apply sorted_head; assumption).
      assert (F2 : Forall (R y) l2).
      { apply sorted_head; [|exact S2]. intros a b c Ia Ib Ic.
        apply T; eapply Permutation_in; try (symmetry; exact P); assumption. }
      rewrite Forall_forall in F1, F2.
      assert (E : x = y).
      { assert (Ix : In x (y :: l2)) by (eapply Permutation_in; [exact P | left; auto]).
        assert (Iy : In y (x :: l1))
          by (eapply Permutation_in; [symmetry; exact P | left; auto]).
        destruct Ix as [Ix|Ix]; [auto|]. destruct Iy as [Iy|Iy]; [auto|].
        apply Anti; [left; auto | right; auto | apply F1; exact Iy | apply F2; exact Ix]. }
      subst y. f_equal. apply IH.
      * intros a b c Ia Ib Ic. apply T; right; assumption.
      * intros a b Ia Ib. apply Anti; right; assumption.
      * inversion S1; assumption.
      * inversion S2; assumption.
      * eapply Permutation_cons_inv; exact P.
Qed.

Lemma filter_perm {A} (p : A -> bool) l1 l2 :
  Permutation l1 l2 -> Permutation (filter p l1) (filter p l2).
Proof.
  induction 1 as [|x l1 l2 P IH|x y l|l1 l2 l3 P1 IH1 P2 IH2]; simpl.
  - constructor.
  - destruct (p x); [constructor|]; exact IH.
  - destruct (p x), (p y); try reflexivity. apply perm_swap.
  - etransitivity; eassumption.
Qed.

Lemma filter_names_NoDup {A B} (p : A * B -> bool) l :
  NoDup (map fst l) -> NoDup (map fst (filter p l)).
Proof.
  induction l as [|e l IH]; simpl; intros D; [constructor|].
  inversion D as [|? ? N D']; subst. destruct (p e); simpl; [|auto].
  constructor; [|auto]. intros I. apply N.
  apply in_map_iff in I as (e' & E & I). apply in_map_iff. exists e'.
  split; [exact E|]. apply filter_In in I. tauto.
Qed.

Lemma names_injective {A B} (l : list (A * B)) a b :
  NoDup (map fst l) -> In a l -> In b l -> fst a = fst b -> a = b.
Proof.
  induction l as [|e l IH]; simpl; intros D Ia Ib E; [destruct Ia|].
  inversion D as [|? ? N D']; subst.
  destruct Ia as [->|Ia], Ib as [->|Ib]; auto.
  - exfalso; apply N. rewrite E. apply in_map; exact Ib.
  - exfalso; apply N. rewrite <- E. apply in_map; exact Ia.
Qed.

(** X13.  When localeCompare tells apart the names of a jar and is
    transitive on them, the serialization of the jar depends on its entries
    only, not on the order in which they were stored.  (Two names that
    localeCompare takes for equal keep the order in which they were
    stored.) *)
Theorem serializeCookieJar_order_independent `{Platform} (jar1 jar2 : Jar) :
  tellsApart (jarNames jar1) -> transitiveOn (jarNames jar1) ->
  NoDup (jarNames jar1) ->
  Permutation jar1 jar2 ->
  serializeCookieJar jar1 = serializeCookieJar jar2.
Proof.
  intros Strict Trans D P. unfold serializeCookieJar. f_equal. f_equal.
  assert (PE : Permutation (filter (fun e => nonEmpty (snd e)) (objectEntries jar1))
                           (filter (fun e => nonEmpty (snd e)) (objectEntries jar2))).
  { apply filter_perm. rewrite !objectEntries_perm. exact P. }
  assert (DE : NoDup (map fst (sortedEntries jar1))).
  { unfold sortedEntries.
    eapply Permutation_NoDup;
      [apply Permutation_map; symmetry; apply sortBy_perm|].
    apply filter_names_NoDup.
    eapply Permutation_NoDup;
      [apply Permutation_map; symmetry; apply objectEntries_perm | exact D]. }
  assert (N : forall e, In e (sortedEntries jar1) -> In (fst e) (jarNames jar1)).
  { intros e I. unfold sortedEntries in I.
    apply (Permutation_in _ (sortBy_perm _ _ _)) in I.
    apply filter_In in I as (I & _).
    apply (Permutation_in _ (objectEntries_perm jar1)) in I.
    apply in_map. exact I. }
  apply (sorted_unique (leP nameLe)).
  - unfold leP, nameLe. intros x y z Ix Iy Iz Rxy Ryz.
    pose proof (Trans (fst x) (fst y) (fst z) (N x Ix) (N y Iy) (N z Iz)) as T.
    destruct (localeCompare (fst x) (fst y)); try discriminate;
      destruct (localeCompare (fst y) (fst z)); try discriminate;
      destruct (localeCompare (fst x) (fst z)); try reflexivity;
      exfalso; apply T; discriminate || reflexivity.
  - intros a b Ia Ib Rab Rba. apply (names_injective (sortedEntries jar1)); auto.
    apply Strict; [apply N; exact Ia | apply N; exact Ib |].
    unfold leP, nameLe in Rab, Rba.
    rewrite (localeCompare_antisym (fst a) (fst b)) in Rba.
    destruct (localeCompare (fst a) (fst b)); simpl in *; congruence.
  - apply sortBy_sorted, nameLe_total.
  - apply sortBy_sorted, nameLe_total.
  - unfold sortedEntries. rewrite !sortBy_perm. exact PE.
Qed.

Lemma codeUnitCompare_strict a : forall b, codeUnitCompare a b = Eq -> a = b.
Proof.
  induction a as [|x a IH]; intros [|y b]; simpl; try discriminate; auto.
  destruct (Z.compare_spec x y); try discriminate.
  intros E. subst. f_equal. apply IH; exact E.
Qed.

Lemma codeUnitCompare_transitive a : forall b c,
  codeUnitCompare a b <> Gt -> codeUnitCompare b c <> Gt -> codeUnitCompare a c <> Gt.
Proof.
  induction a as [|x a IH]; intros [|y b] [|z c]; simpl; try congruence.
  destruct (Z.compare_spec x y), (Z.compare_spec y z), (Z.compare_spec x z);
    subst; try lia; try congruence.
  apply IH.
Qed.

Lemma serializeCookieJar_order_independent_witness :
  serializeCookieJar (H := asciiPlatform) fourCookies
  = serializeCookieJar (H := asciiPlatform) fourCookiesShuffled.
Proof.
  apply (serializeCookieJar_order_independent (H := asciiPlatform)).
  - intros a b _ _. apply codeUnitCompare_strict.
  - intros a b c _ _ _. apply codeUnitCompare_transitive.
  - vm_compute. repeat constructor; simpl; intuition discriminate.
  - unfold fourCookies, fourCookiesShuffled.
    apply Permutation_sym.
    apply (Permutation_app_comm [(js "kdt", js "k"); (js "7", js "n")]
             [(js "ct0", js "c"); (js "auth_token", js "a")]).
Defined.

Example serializeCookieJar_fourCookies :
  serializeCookieJar (H := asciiPlatform) fourCookies = js "7=n; auth_token=a; ct0=c; kdt=k".
Proof. vm_compute; reflexivity. Qed.

(** ** C strings *)

(** X14.  readSafariCString returns a text exactly when its start is not
    negative and the region from start to end holds a NUL byte: the text is
    the UTF-8 decoding of the bytes before the first NUL.  It returns null
    otherwise, and reads nothing outside the buffer. *)
Theorem readSafariCString_spec fuel buffer start end_ h :
  end_ <= blength buffer -> blength buffer <= Z.of_nat fuel ->
  exists r,
    readSafariCString fuel buffer start end_ h = (Done r, h)
    /\ forall text,
         r = Some text <->
         0 <= start
         /\ exists bytes rest,
              subarray buffer start end_ = bytes ++ x00 :: rest
              /\ ~ In x00 bytes
              /\ text = utf8Decode bytes.
Proof.
  intros He Hf. eexists. split; [apply readSafariCString_run; assumption|].
  intros text. destruct (Z.ltb_spec start 0) as [L|L].
  - split; [discriminate | intros (G & _); lia].
  - split.
    + destruct (untilNul (subarray buffer start end_)) as [bytes|] eqn:U; [|discriminate].
      intros E; injection E as <-. split; [exact L|].
      apply untilNul_spec in U as (rest & E & N). exists bytes, rest. auto.
    + intros (_ & bytes & rest & E & N & ->).
      rewrite (proj2 (untilNul_spec _ bytes)); [reflexivity|]. eauto.
Qed.


Lemma readSafariCString_spec_witness :
  exists r,
    readSafariCString 8 twoCStrings 4 8 newHeap = (Done r, newHeap)
    /\ forall text,
         r = Some text <->
         0 <= 4
         /\ exists bytes rest,
              subarray twoCStrings 4 8 = bytes ++ x00 :: rest
              /\ ~ In x00 bytes
              /\ text = utf8Decode bytes.
Proof.
  apply (readSafariCString_spec 8 twoCStrings 4 8 newHeap); vm_compute; discriminate.
Defined.

(** ** Files made by the builders of the tests *)

Lemma byteZ_byteOfZ z : 0 <= z < 256 -> byteZ (byteOfZ z) = z.
Proof.
  intros Hz. unfold byteZ, byteOfZ.
  destruct (Byte.of_N (Z.to_N z)) as [b|] eqn:E.
  - apply Byte.to_of_N in E. rewrite E. lia.
  - apply Byte.of_N_None_iff in E. lia.
Qed.

Lemma blength_app (a b : Buffer) : blength (a ++ b) = blength a + blength b.
Proof. unfold blength. rewrite length_app. lia. Qed.

Lemma blength_nonneg (a : Buffer) : 0 <= blength a.
Proof. unfold blength. lia. Qed.

Lemma byteAt_app pre l i :
  0 <= i -> byteAt (pre ++ l) (blength pre + i) = byteAt l i.
Proof.
  intros Hi. unfold byteAt, blength.
  destruct (Z.ltb_spec (Z.of_nat (List.length pre) + i) 0); [lia|].
  destruct (Z.ltb_spec i 0); [lia|].
  rewrite nth_error_app2 by lia. f_equal. lia.
Qed.

Lemma byteAt_app_l l post i :
  i < blength l -> byteAt (l ++ post) i = byteAt l i.
Proof.
  intros Hi. unfold byteAt, blength in *.
  destruct (Z.ltb_spec i 0); [reflexivity|].
  apply nth_error_app1. lia.
Qed.

Lemma placed_byteAt buffer o l i :
  placed buffer o l -> 0 <= i < blength l -> byteAt buffer (o + i) = byteAt l i.
Proof.
  intros (pre & post & -> & <-) Hi.
  rewrite byteAt_app by lia. apply byteAt_app_l. lia.
Qed.

Lemma placed_bound buffer o l :
  placed buffer o l -> 0 <= o /\ o + blength l <= blength buffer.
Proof.
  intros (pre & post & -> & <-). rewrite !blength_app.
  pose proof (blength_nonneg pre). pose proof (blength_nonneg post). lia.
Qed.

Lemma placed_app_l buffer o l1 l2 : placed buffer o (l1 ++ l2) -> placed buffer o l1.
Proof.
  intros (pre & post & -> & <-). exists pre, (l2 ++ post).
  rewrite <- app_assoc. auto.
Qed.

Lemma placed_app_r buffer o l1 l2 :
  placed buffer o (l1 ++ l2) -> placed buffer (o + blength l1) l2.
Proof.
  intros (pre & post & -> & <-). exists (pre ++ l1), post.
  rewrite blength_app, <- !app_assoc. auto.
Qed.

Lemma placed_subarray buffer o l :
  placed buffer o l -> subarray buffer o (o + blength l) = l.
Proof.
  intros P. pose proof (placed_bound _ _ _ P) as B.
  destruct P as (pre & post & -> & <-).
  pose proof (blength_nonneg l).
  rewrite subarray_in by lia.
  replace (blength pre + blength l - blength pre) with (blength l) by lia.
  unfold blength. rewrite !Nat2Z.id.
  rewrite skipn_app, skipn_all, Nat.sub_diag. simpl.
  rewrite firstn_app, Nat.sub_diag, firstn_all. simpl. apply app_nil_r.
Qed.

Lemma le32_value n :
  0 <= n < 4294967296 ->
  n mod 256 + (n / 256) mod 256 * 256 + (n / 65536) mod 256 * 65536
  + (n / 16777216) mod 256 * 16777216 = n.
Proof. intros Hn. Z.div_mod_to_equations. lia. Qed.

Lemma byteRange n : 0 <= n mod 256 < 256.
Proof. apply Z.mod_pos_bound. lia. Qed.

Lemma readUInt32LE_placed buffer o n :
  placed buffer o (le32 n) -> 0 <= n < 4294967296 ->
  readUInt32LE buffer o = Returned n.
Proof.
  intros P Hn. unfold readUInt32LE.
  rewrite <- (Z.add_0_r o) at 1.
  rewrite !(placed_byteAt _ _ _ _ P) by (unfold blength; simpl; lia).
  unfold le32, byteAt. simpl.
  rewrite !byteZ_byteOfZ by apply byteRange.
  f_equal. apply le32_value. exact Hn.
Qed.

Lemma readUInt32BE_placed buffer o n :
  placed buffer o (be32 n) -> 0 <= n < 4294967296 ->
  readUInt32BE buffer o = Returned n.
Proof.
  intros P Hn. unfold readUInt32BE.
  rewrite <- (Z.add_0_r o) at 1.
  rewrite !(placed_byteAt _ _ _ _ P) by (unfold blength; simpl; lia).
  unfold be32, le32, byteAt. simpl.
  rewrite !byteZ_byteOfZ by apply byteRange.
  f_equal. pose proof (le32_value n Hn). lia.
Qed.

Lemma placed_mid buffer o a l :
  placed buffer o (a ++ l) -> placed buffer (o + blength a) l.
Proof. apply placed_app_r. Qed.

Lemma untilNul_terminated bytes rest :
  ~ In x00 bytes -> untilNul (bytes ++ x00 :: rest) = Some bytes.
Proof. intros N. apply untilNul_spec. eauto. Qed.

Lemma readSafariCString_placed fuel page o bytes rest end_ h :
  placed page o (bytes ++ x00 :: rest) ->
  end_ = o + blength (bytes ++ x00 :: rest) ->
  ~ In x00 bytes -> blength page <= Z.of_nat fuel ->
  readSafariCString fuel page o end_ h = (Done (Some (utf8Decode bytes)), h).
Proof.
  intros P -> N Hf. pose proof (placed_bound _ _ _ P) as B.
  rewrite readSafariCString_run by lia.
  destruct (Z.ltb_spec o 0); [lia|].
  rewrite (placed_subarray _ _ _ P), untilNul_terminated by exact N. reflexivity.
Qed.

Lemma blength_le32 n : blength (le32 n) = 4.
Proof. reflexivity. Qed.

Lemma blength_builtRecord c : blength (builtRecord c) = recordSize c.
Proof.
  unfold builtRecord, buildSafariCookieRecord, recordSize.
  cbv zeta. rewrite !blength_app, !blength_le32.
  change (blength (repeat x00 24)) with 24.
  change (blength [x00]) with 1.
  change (blength (list_byte_of_string "/")) with 1.
  lia.
Qed.

Lemma placed_le32_next buffer o n l :
  placed buffer o (le32 n ++ l) -> placed buffer (o + 4) l.
Proof. intros P. apply placed_mid in P. exact P. Qed.

Lemma placed_nul_next buffer o l :
  placed buffer o (x00 :: l) -> placed buffer (o + 1) l.
Proof. intros P. apply (placed_mid buffer o [x00] l) in P. exact P. Qed.

Lemma placed_shift buffer o o' l : placed buffer o l -> o = o' -> placed buffer o' l.
Proof. intros P <-. exact P. Qed.

Lemma blength_cons (x : byte) l : blength (x :: l) = 1 + blength l.
Proof. unfold blength. cbn [List.length]. lia. Qed.

Ltac blen :=
  repeat (rewrite blength_app || rewrite blength_cons);
  change (blength (@nil byte)) with 0;
  change (blength (list_byte_of_string "/")) with 1.

Section Built.
Context `{Platform}.

Lemma parseSafariCookieRecord_built fuel page o c h :
  placed page o (builtRecord c) ->
  nulFree (fst (fst c)) -> nulFree (snd (fst c)) -> nulFree (snd c) ->
  blength page < 4294967296 -> blength page <= Z.of_nat fuel ->
  parseSafariCookieRecord fuel page o h = (Done tt, storeAll (keep [recordEntry c]) h).
Proof.
  intros P Nd Nn Nv Hp Hf.
  pose proof (placed_bound _ _ _ P) as B. rewrite blength_builtRecord in B.
  unfold recordEntry. unfold recordSize in B.
  destruct c as [[d n] v]. cbn [fst snd] in *.
  unfold builtRecord, buildSafariCookieRecord, nulFree, decoded in *.
  cbv zeta in P. cbn [fst snd] in P.
  change (blength (list_byte_of_string "/")) with 1 in P.
  set (D := list_byte_of_string d) in *.
  set (N := list_byte_of_string n) in *.
  set (V := list_byte_of_string v) in *.
  pose proof (blength_nonneg D) as HD.
  pose proof (blength_nonneg N) as HN.
  pose proof (blength_nonneg V) as HV.
  set (size := 56 + blength D + 1 + blength N + 1 + 1 + 1 + blength V + 1) in *.
  assert (Es : size = 56 + blength D + 1 + blength N + 1 + 2 + blength V + 1)
    by (unfold size; lia).
  pose proof (placed_app_l _ _ _ _ P) as P0.
  apply placed_le32_next, placed_le32_next, placed_le32_next, placed_le32_next in P.
  pose proof (placed_app_l _ _ _ _ P) as Pd.
  apply placed_le32_next in P.
  pose proof (placed_app_l _ _ _ _ P) as Pn.
  apply placed_le32_next, placed_le32_next in P.
  pose proof (placed_app_l _ _ _ _ P) as Pv.
  apply placed_le32_next in P.
  apply placed_mid in P. change (blength (repeat x00 24)) with 24 in P.
  assert (SD : placed page (o + 56) (D ++ x00 :: N ++ [x00] ++ list_byte_of_string "/" ++ [x00] ++ V ++ [x00])).
  { eapply placed_shift; [exact P | lia]. }
  pose proof (placed_nul_next _ _ _ (placed_mid _ _ _ _ SD)) as SN.
  pose proof (placed_nul_next _ _ _ (placed_mid _ _ _ _ SN)) as SP.
  pose proof (placed_nul_next _ _ _ (placed_mid _ _ _ _ SP)) as SV.
  change (blength (list_byte_of_string "/")) with 1 in SV.
  unfold parseSafariCookieRecord.
  destruct (Z.ltb_spec o 0); [lia|]. cbn [orb].
  destruct (Z.ltb_spec (blength page) (o + 4)); [lia|].
  unfold bind at 1. unfold call at 1.
  rewrite (readUInt32LE_placed _ _ _ P0) by lia.
  destruct (Z.leb_spec size 0); [lia|]. cbn [orb].
  destruct (Z.ltb_spec (blength page) (o + size)); [lia|].
  cbv zeta.
  destruct (Z.ltb_spec (o + size) (o + 4 + (4 + 4 + 4 + 4 + 4 + 4 + 4))); [lia|].
  unfold bind at 1. unfold call at 1.
  rewrite (readUInt32LE_placed page (o + 4 + 12) 56)
    by (lia || (eapply placed_shift; [exact Pd | lia])).
  unfold bind at 1. unfold call at 1.
  rewrite (readUInt32LE_placed page (o + 4 + 16) (56 + blength D + 1))
    by (lia || (eapply placed_shift; [exact Pn | lia])).
  unfold bind at 1. unfold call at 1.
  rewrite (readUInt32LE_placed page (o + 4 + 24) (56 + blength D + 1 + blength N + 1 + 1 + 1))
    by (lia || (eapply placed_shift; [exact Pv | lia])).
  unfold bind at 1.
  rewrite (readSafariCString_placed fuel page (o + 56) D _ (o + size) h SD);
    [| cbn [app]; blen; lia | exact Nd | exact Hf].
  unfold bind at 1.
  rewrite (readSafariCString_placed fuel page (o + (56 + blength D + 1)) N
             (list_byte_of_string "/" ++ [x00] ++ V ++ [x00]) (o + size) h);
    [| eapply placed_shift; [exact SN | lia]
     | cbn [app]; blen; lia | exact Nn | exact Hf].
  unfold bind at 1.
  rewrite (readSafariCString_placed fuel page (o + (56 + blength D + 1 + blength N + 1 + 1 + 1)) V [] (o + size) h);
    [| eapply placed_shift; [exact SV | lia]
     | cbn [app]; blen; lia | exact Nv | exact Hf].
  cbn [map keep].
  destruct (safariCookieEntry (Some (utf8Decode D)) (Some (utf8Decode N)) (Some (utf8Decode V)))
    as [[nm vl]|]; reflexivity.
Qed.

Lemma forEach_built fuel page cs : forall cursor h,
  placed page cursor (List.concat (map builtRecord cs)) ->
  Forall (fun c => nulFree (fst (fst c)) /\ nulFree (snd (fst c)) /\ nulFree (snd c)) cs ->
  blength page < 4294967296 -> blength page <= Z.of_nat fuel ->
  forEach (recordOffsets cursor (map builtRecord cs)) (parseSafariCookieRecord fuel page) h
  = (Done tt, storeAll (keep (map recordEntry cs)) h).
Proof.
  induction cs as [|c cs IH]; intros cursor h P F Hp Hf; [reflexivity|].
  inversion F as [|? ? (Nd & Nn & Nv) F']; subst.
  cbn [map recordOffsets forEach List.concat] in *.
  unfold bind at 1.
  rewrite (parseSafariCookieRecord_built fuel page cursor c h)
    by (assumption || (eapply placed_app_l; exact P)).
  rewrite IH; [| apply placed_mid in P; exact P | exact F' | exact Hp | exact Hf].
  cbn [keep]. destruct (recordEntry c); reflexivity.
Qed.

End Built.

Lemma length_recordOffsets records : forall cursor,
  List.length (recordOffsets cursor records) = List.length records.
Proof. induction records as [|r rs IH]; intros cursor; simpl; [reflexivity | rewrite IH; reflexivity]. Qed.

Lemma recordOffsets_bounds records : forall cursor,
  Forall (fun x => cursor <= x <= cursor + blength (List.concat records))
         (recordOffsets cursor records).
Proof.
  induction records as [|r rs IH]; intros cursor; cbn [recordOffsets List.concat];
    [constructor|].
  rewrite blength_app. pose proof (blength_nonneg r). pose proof (blength_nonneg (List.concat rs)).
  constructor; [lia|].
  eapply Forall_impl; [|apply IH]. cbv beta. intros x Hx. lia.
Qed.

Lemma blength_offsets (offs : list Z) :
  blength (List.concat (map le32 offs)) = 4 * Z.of_nat (List.length offs).
Proof.
  induction offs as [|x offs IH]; [reflexivity|].
  cbn [map List.concat List.length]. rewrite blength_app, blength_le32, IH. lia.
Qed.

Lemma readRecordOffsets_built page cookieCount : forall offs fuel i cursor acc h,
  placed page cursor (List.concat (map le32 offs)) ->
  Forall (fun x => 0 <= x < 4294967296) offs ->
  i + Z.of_nat (List.length offs) = cookieCount ->
  (List.length offs <= fuel)%nat ->
  readRecordOffsets fuel page cookieCount i cursor acc h = (Done (Some (acc ++ offs)), h).
Proof.
  induction offs as [|x offs IH]; intros fuel i cursor acc h P F Hi Hf;
    rewrite readRecordOffsets_eq; cbn [List.length map List.concat] in *.
  - destruct (Z.ltb_spec i cookieCount); [lia|]. rewrite app_nil_r. reflexivity.
  - destruct (Z.ltb_spec i cookieCount); [|lia].
    pose proof (placed_bound _ _ _ P) as B.
    rewrite blength_app, blength_le32 in B.
    pose proof (blength_nonneg (List.concat (map le32 offs))).
    destruct (Z.ltb_spec (blength page) (cursor + 4)); [lia|].
    destruct fuel as [|fuel]; [lia|].
    inversion F as [|? ? Hx F']; subst.
    unfold bind at 1. unfold call at 1.
    rewrite (readUInt32LE_placed page cursor x) by (assumption || (eapply placed_app_l; exact P)).
    rewrite (IH fuel (i + 1) (cursor + 4) (acc ++ [x]) h);
      [rewrite <- app_assoc; reflexivity | eapply placed_le32_next; exact P | exact F' | lia | lia].
Qed.

Section BuiltFile.
Context `{Platform}.

Lemma placed_whole (l : Buffer) : placed l 0 l.
Proof. exists [], []. rewrite app_nil_r. split; reflexivity. Qed.

Lemma parseSafariCookiePage_built fuel cs h :
  let records := map builtRecord cs in
  let cookieCount := Z.of_nat (List.length records) in
  let headerSize := 4 + 4 + 4 * cookieCount + 4 in
  let page :=
    be32 256 ++ le32 cookieCount
    ++ List.concat (map le32 (recordOffsets headerSize records))
    ++ le32 0 ++ List.concat records in
  Forall (fun c => nulFree (fst (fst c)) /\ nulFree (snd (fst c)) /\ nulFree (snd c)) cs ->
  blength page < 4294967296 -> blength page <= Z.of_nat fuel ->
  parseSafariCookiePage fuel page h = (Done tt, storeAll (keep (map recordEntry cs)) h).
Proof.
  intros records cookieCount headerSize page F Hp Hf.
  pose proof (placed_whole page) as P.
  assert (L : blength page = headerSize + blength (List.concat records)).
  { unfold page. rewrite !blength_app, blength_offsets, length_recordOffsets, !blength_le32.
    change (blength (be32 256)) with 4. unfold headerSize, cookieCount. lia. }
  pose proof (blength_nonneg (List.concat records)) as Lr.
  assert (Hc : 0 <= cookieCount) by (unfold cookieCount; lia).
  unfold page in P.
  pose proof (placed_app_l _ _ _ _ P) as Psig.
  apply (placed_mid _ _ (be32 256)) in P. change (0 + blength (be32 256)) with 4 in P.
  pose proof (placed_app_l _ _ _ _ P) as Pcount.
  apply placed_le32_next in P. change (4 + 4) with 8 in P.
  pose proof (placed_app_l _ _ _ _ P) as Poffs.
  apply placed_mid in P. rewrite blength_offsets, length_recordOffsets in P.
  apply placed_le32_next in P.
  fold page in Psig, Pcount, Poffs, P.
  unfold parseSafariCookiePage.
  destruct (Z.ltb_spec (blength page) 12); [unfold headerSize in L; lia|].
  change 4 with (0 + blength (be32 256)) at 1.
  rewrite (placed_subarray _ _ _ Psig).
  change (negb (buffer_eqb (be32 256) SAFARI_PAGE_SIGNATURE)) with false. cbv iota.
  unfold bind at 1. unfold call at 1.
  rewrite (readUInt32LE_placed page 4 cookieCount Pcount) by (unfold headerSize in L; lia).
  destruct (Z.eqb_spec cookieCount 0) as [Z0|Z0].
  - unfold cookieCount, records in Z0. rewrite length_map in Z0.
    destruct cs; [reflexivity | simpl in Z0; lia].
  - unfold bind at 1.
    rewrite (readRecordOffsets_built page cookieCount (recordOffsets headerSize records)
               fuel 0 8 [] h).
    + cbn [app]. apply forEach_built; assumption.
    + exact Poffs.
    + eapply Forall_impl; [|apply recordOffsets_bounds]. cbv beta.
      intros x Hx. unfold headerSize in *. lia.
    + rewrite length_recordOffsets. unfold cookieCount. lia.
    + rewrite length_recordOffsets. unfold headerSize, cookieCount in *. lia.
Qed.

End BuiltFile.

Lemma parseSafariCookies_of_built `{Platform} fuel cs h :
  Forall wellFormed cs ->
  blength (buildSafariCookiesFile (map builtRecord cs)) < 4294967296 ->
  blength (buildSafariCookiesFile (map builtRecord cs)) <= Z.of_nat fuel ->
  parseSafariCookies fuel (buildSafariCookiesFile (map builtRecord cs)) h
  = (Done tt, storeAll (builtEntries cs) h).
Proof.
  intros F Hp Hf. set (file := buildSafariCookiesFile (map builtRecord cs)) in *.
  unfold builtEntries.
  pose proof (placed_whole file) as P.
  unfold file at 2 in P. unfold buildSafariCookiesFile in P. cbv zeta in P.
  set (page := be32 256 ++ _) in P.
  assert (L : blength file = 12 + blength page).
  { unfold file, buildSafariCookiesFile. cbv zeta. fold page.
    rewrite !blength_app.
    change (blength (list_byte_of_string "cook")) with 4.
    change (blength (be32 1)) with 4.
    change (blength (be32 (blength page))) with 4. lia. }
  pose proof (blength_nonneg page) as Lp.
  pose proof (placed_app_l _ _ _ _ P) as Pmagic.
  apply placed_mid in P. change (0 + blength (list_byte_of_string "cook")) with 4 in P.
  pose proof (placed_app_l _ _ _ _ P) as Pcount.
  apply (placed_mid _ _ (be32 1)) in P. change (4 + blength (be32 1)) with 8 in P.
  pose proof (placed_app_l _ _ _ _ P) as Psize.
  apply (placed_mid _ _ (be32 (blength page))) in P.
  change (8 + blength (be32 (blength page))) with 12 in P.
  unfold parseSafariCookies.
  destruct (Z.ltb_spec (blength file) 8); [lia|].
  unfold toStringUtf8.
  change 4 with (0 + blength (list_byte_of_string "cook")) at 1.
  rewrite (placed_subarray _ _ _ Pmagic).
  change (negb (str_eqb (utf8Decode (list_byte_of_string "cook")) (js "cook"))) with false.
  cbv iota.
  unfold bind at 1. unfold call at 1.
  rewrite (readUInt32BE_placed file 4 1 Pcount) by lia.
  unfold bind at 1.
  rewrite readPageSizes_eq.
  change (0 <? 1) with true. cbv iota.
  destruct (Z.ltb_spec (blength file) (8 + 4)); [lia|].
  destruct fuel as [|fuel'] eqn:Ef; [lia|]. rewrite <- Ef in *.
  unfold bind at 1. unfold call at 1.
  rewrite (readUInt32BE_placed file 8 (blength page) Psize) by lia.
  rewrite readPageSizes_eq.
  change (0 + 1 <? 1) with false. cbv iota. unfold ret at 1.
  cbn [app parsePages].
  destruct (Z.ltb_spec (blength file) (8 + 4 + blength page)); [lia|].
  change (8 + 4) with 12.
  rewrite (placed_subarray _ _ _ P).
  unfold bind at 1.
  unfold page.
  rewrite (parseSafariCookiePage_built fuel cs h F).
  - reflexivity.
  - fold page. lia.
  - fold page. lia.
Qed.

Lemma builtEntries_nonempty `{Platform} cs :
  Forall (fun e => snd e <> []) (builtEntries cs).
Proof.
  unfold builtEntries. induction cs as [|c cs IH]; simpl; [constructor|].
  destruct (recordEntry c) as [[n v]|] eqn:E; [|exact IH].
  constructor; [|exact IH]. unfold recordEntry, safariCookieEntry in E.
  destruct (negb _ || negb _ || negb _); [discriminate|].
  destruct (normalizeValue _) eqn:N; [|discriminate].
  injection E as _ <-. eapply normalizeValue_nonempty; eauto.
Qed.

(** X15.  On a file that buildSafariCookiesFile makes of records that
    buildSafariCookieRecord makes, the parser stores, first record to last,
    what safariCookieEntry yields of the decoded domain, name and value of
    each record, and nothing else. *)
Theorem parseSafariCookies_built `{Platform} cs h :
  Forall wellFormed cs ->
  blength (buildSafariCookiesFile (map builtRecord cs)) < 4294967296 ->
  parseSafariCookies (safariFuel (buildSafariCookiesFile (map builtRecord cs)))
                     (buildSafariCookiesFile (map builtRecord cs)) h
  = (Done tt, storeAll (builtEntries cs) h).
Proof.
  intros F Hp. apply parseSafariCookies_of_built; [exact F | exact Hp |].
  unfold safariFuel, blength. lia.
Qed.

Lemma parseSafariCookies_built_witness :
  parseSafariCookies (H := asciiPlatform)
    (safariFuel (buildSafariCookiesFile (map builtRecord sampleCookies)))
    (buildSafariCookiesFile (map builtRecord sampleCookies)) newHeap
  = (Done tt, storeAll (builtEntries (H := asciiPlatform) sampleCookies) newHeap).
Proof.
  apply (parseSafariCookies_built (H := asciiPlatform) sampleCookies newHeap).
  - repeat constructor; unfold nulFree; simpl; intuition discriminate.
  - vm_compute; reflexivity.
Defined.

Example builtEntries_sampleCookies :
  builtEntries (H := asciiPlatform) sampleCookies
  = [(js "auth_token", js "safari_auth"); (js "ct0", js "safari_ct0")].
Proof. vm_compute; reflexivity. Qed.

(** X16.  When the Safari store is a file made by the builders, the
    extractor returns as tokens the values of the first records named
    auth_token and ct0 among those that contribute, and as header the
    serialization of the jar of all that contribute. *)
Theorem extractCookiesFromSafari_built `{Platform} (w : World) path cs :
  getSafariCookiesPath w = Some path -> path <> [] ->
  readCookieFile w path = Returned (buildSafariCookiesFile (map builtRecord cs)) ->
  Forall wellFormed cs ->
  blength (buildSafariCookiesFile (map builtRecord cs)) < 4294967296 ->
  exists r,
    extractCookiesFromSafari w = Done r
    /\ authToken (cookies r)
       = option_map snd (find (named (js "auth_token")) (builtEntries cs))
    /\ ct0 (cookies r)
       = option_map snd (find (named (js "ct0")) (builtEntries cs))
    /\ cookieHeader (cookies r)
       = match hJar (storeAll (builtEntries cs) newHeap) with
         | [] => None
         | jar => Some (serializeCookieJar jar)
         end.
Proof.
  intros Ep Np Er F Hp. unfold extractCookiesFromSafari. rewrite Ep.
  destruct path as [|c p]; [congruence|].
  pose proof (builtEntries_nonempty cs) as Fe.
  assert (I : heapInv (storeAll (builtEntries cs) newHeap)).
  { eapply stores_inv; [apply stores_storeAll; exact Fe | apply heapInv_new]. }
  destruct (finished_fields (js "Safari") _ I) as (Ej & Ea & Ec & Eh).
  unfold runExtraction, safariTry. unfold bind at 1 2. unfold call. rewrite Er.
  rewrite (parseSafariCookies_of_built _ cs newHeap F Hp)
    by (unfold safariFuel, blength; lia).
  rewrite finishExtraction_run.
  eexists. split; [reflexivity|]. cbn [cookies].
  rewrite Ea, Ec, Eh.
  rewrite storeAll_authToken, storeAll_ct0 by exact Fe. cbn.
  split; [destruct (find _ (builtEntries cs)); reflexivity|].
  split; [destruct (find _ (builtEntries cs)); reflexivity|].
  destruct (hJar (storeAll (builtEntries cs) newHeap)); reflexivity.
Qed.

Lemma extractCookiesFromSafari_built_witness :
  exists r,
    extractCookiesFromSafari (H := asciiPlatform) cascadeWorld = Done r
    /\ authToken (cookies r)
       = option_map snd (find (named (js "auth_token"))
                              (builtEntries (H := asciiPlatform) authOnlyCookies))
    /\ ct0 (cookies r)
       = option_map snd (find (named (js "ct0"))
                              (builtEntries (H := asciiPlatform) authOnlyCookies))
    /\ cookieHeader (cookies r)
       = match hJar (storeAll (builtEntries (H := asciiPlatform) authOnlyCookies) newHeap) with
         | [] => None
         | jar => Some (serializeCookieJar (H := asciiPlatform) jar)
         end.
Proof.
  apply (extractCookiesFromSafari_built (H := asciiPlatform) cascadeWorld
           (js "/Library/Cookies/Cookies.binarycookies") authOnlyCookies).
  - reflexivity.
  - discriminate.
  - reflexivity.
  - repeat constructor; unfold nulFree; simpl; intuition discriminate.
  - vm_compute; reflexivity.
Defined.

(** ** The places of the browser stores *)

Lemma hostWorld_chrome fs w profile :
  getChromeCookiesPath (hostWorld fs w) profile = Paths.getChromeCookiesPath w fs profile.
Proof. reflexivity. Qed.

Lemma includes_nonempty s sub : sub <> [] -> includes s sub = true -> s <> [].
Proof.
  intros N I ->. simpl in I. destruct sub; [congruence | discriminate].
Qed.

Lemma cookiesIn_exists w fs root dir p :
  Paths.cookiesIn w fs root dir = Some p ->
  existsSync w p = true /\ p = Paths.join fs [root; dir; js "cookies.sqlite"].
Proof.
  unfold Paths.cookiesIn. cbv zeta.
  destruct (existsSync w _) eqn:E; [|discriminate].
  intros X; injection X as <-. auto.
Qed.

Lemma find_app_first {A} (p : A -> bool) before x after :
  Forall (fun y => p y = false) before -> p x = true ->
  find p (before ++ x :: after) = Some x.
Proof.
  intros F Px. induction F as [|y before Py F IH]; simpl.
  - rewrite Px. reflexivity.
  - rewrite Py. exact IH.
Qed.

Lemma find_all_false {A} (p : A -> bool) l :
  Forall (fun y => p y = false) l -> find p l = None.
Proof.
  intros F. induction F as [|y l Py F IH]; simpl; [reflexivity|].
  rewrite Py. exact IH.
Qed.

Lemma getFirefoxCookiesPath_exists w fs profile p :
  Paths.getFirefoxCookiesPath w fs profile = Returned (Some p) -> existsSync w p = true.
Proof.
  unfold Paths.getFirefoxCookiesPath.
  destruct (Paths.getFirefoxProfilesRoot w fs) as [[|c root]|]; try discriminate.
  destruct (existsSync w (c :: root)); [|discriminate].
  unfold Paths.pickFirefoxProfile.
  assert (G : forall dir, Returned (Paths.cookiesIn w fs (c :: root) dir) = Returned (Some p) ->
                          existsSync w p = true).
  { intros dir E; injection E as E. apply cookiesIn_exists in E as (E & _). exact E. }
  destruct profile as [[|x profile]|]; [| apply G |];
    (destruct (Paths.readdirSync fs (c :: root)) as [entries|e]; [|discriminate]);
    cbv zeta;
    match goal with
    | |- match ?t with _ => _ end = _ -> _ =>
        destruct t as [[|y dir]|]; try discriminate; apply G
    end.
Qed.

(** X17.  A path that getFirefoxCookiesPath returns was reported as
    existing, and is cookies.sqlite in a directory of the profiles root,
    which exists too: the directory of the given profile, or without a
    profile one that readdirSync listed as a directory. *)
Theorem getFirefoxCookiesPath_found w fs profile p :
  Paths.getFirefoxCookiesPath w fs profile = Returned (Some p) ->
  existsSync w p = true
  /\ exists root dir,
       Paths.getFirefoxProfilesRoot w fs = Some root
       /\ existsSync w root = true
       /\ dir <> []
       /\ p = Paths.join fs [root; dir; js "cookies.sqlite"]
       /\ (truthy profile = true -> profile = Some dir)
       /\ (truthy profile = false ->
           exists entries entry,
             Paths.readdirSync fs root = Returned entries
             /\ In entry entries
             /\ Paths.isDirectory entry = true
             /\ Paths.name entry = dir).
Proof.
  unfold Paths.getFirefoxCookiesPath.
  destruct (Paths.getFirefoxProfilesRoot w fs) as [[|c root]|]; try discriminate.
  destruct (existsSync w (c :: root)) eqn:Er; [|discriminate].
  unfold Paths.pickFirefoxProfile.
  destruct profile as [[|x profile]|].
  2:{ intros E; injection E as E. apply cookiesIn_exists in E as (E1 & E2).
      split; [exact E1|]. exists (c :: root), (x :: profile).
      repeat split; auto; discriminate. }
  all: destruct (Paths.readdirSync fs (c :: root)) as [entries|e] eqn:Rd; [|discriminate];
    cbv zeta;
    destruct (find Paths.isDefaultRelease entries) as [entry|] eqn:Fd;
    [ apply find_some in Fd as (I & D); apply andb_true_iff in D as (D & _)
    | destruct (find Paths.isDirectory entries) as [entry|] eqn:Fe;
      [apply find_some in Fe as (I & D) | discriminate] ];
    cbn [option_map];
    (destruct (Paths.name entry) as [|y dir] eqn:En; [discriminate|]);
    intros E; injection E as E; apply cookiesIn_exists in E as (E1 & E2);
    (split; [exact E1|]); exists (c :: root), (y :: dir);
    repeat split; auto; try discriminate;
    intros _; exists entries, entry; auto.
Qed.

Lemma getFirefoxCookiesPath_found_witness :
  existsSync linuxWorld (js "/home/u/.mozilla/firefox/xyz.default-release/cookies.sqlite")
  = true
  /\ exists root dir,
       Paths.getFirefoxProfilesRoot linuxWorld linuxFiles = Some root
       /\ existsSync linuxWorld root = true
       /\ dir <> []
       /\ js "/home/u/.mozilla/firefox/xyz.default-release/cookies.sqlite"
          = Paths.join linuxFiles [root; dir; js "cookies.sqlite"]
       /\ (truthy None = true -> None = Some dir)
       /\ (truthy None = false ->
           exists entries entry,
             Paths.readdirSync linuxFiles root = Returned entries
             /\ In entry entries
             /\ Paths.isDirectory entry = true
             /\ Paths.name entry = dir).
Proof.
  apply (getFirefoxCookiesPath_found linuxWorld linuxFiles None).
  vm_compute; reflexivity.
Defined.

Lemma getFirefoxCookiesPath_thrown w fs profile e :
  Paths.getFirefoxCookiesPath w fs profile = Thrown e ->
  truthy profile = false
  /\ exists root,
       Paths.getFirefoxProfilesRoot w fs = Some root
       /\ root <> []
       /\ existsSync w root = true
       /\ Paths.readdirSync fs root = Thrown e.
Proof.
  unfold Paths.getFirefoxCookiesPath.
  destruct (Paths.getFirefoxProfilesRoot w fs) as [[|c root]|]; try discriminate.
  destruct (existsSync w (c :: root)) eqn:Er; [|discriminate].
  unfold Paths.pickFirefoxProfile.
  destruct profile as [[|x profile]|]; [| discriminate |];
    (destruct (Paths.readdirSync fs (c :: root)) as [entries|e0] eqn:Rd;
     [ cbv zeta;
       match goal with
       | |- match ?t with _ => _ end = _ -> _ => destruct t as [[|y dir]|]; discriminate
       end
     | intros E; injection E as ->; split; [reflexivity|];
       exists (c :: root); repeat split; auto; discriminate ]).
Qed.

(** X18.  getFirefoxCookiesPath throws exactly when no profile is given,
    the profiles root exists and readdirSync throws on it; the error is
    that of readdirSync. *)
Theorem getFirefoxCookiesPath_throws w fs profile e :
  Paths.getFirefoxCookiesPath w fs profile = Thrown e <->
  truthy profile = false
  /\ exists root,
       Paths.getFirefoxProfilesRoot w fs = Some root
       /\ root <> []
       /\ existsSync w root = true
       /\ Paths.readdirSync fs root = Thrown e.
Proof.
  split; [apply getFirefoxCookiesPath_thrown|].
  intros (T & root & Er & Nr & Ex & Rd).
  unfold Paths.getFirefoxCookiesPath. rewrite Er.
  destruct root as [|c root]; [congruence|]. rewrite Ex.
  unfold Paths.pickFirefoxProfile. rewrite Rd.
  destruct profile as [[|x profile]|]; [reflexivity | discriminate | reflexivity].
Qed.

(** X19.  Without a profile, pickFirefoxProfile looks in the first listed
    directory whose name includes default-release, wherever it is listed;
    when there is none, in the first listed directory; and returns null when
    nothing listed is a directory.  It looks in no other directory when the
    chosen one has no cookies.sqlite. *)
Theorem pickFirefoxProfile_choice w fs root profile entries :
  truthy profile = false ->
  Paths.readdirSync fs root = Returned entries ->
  (forall before entry after,
      entries = before ++ entry :: after ->
      Paths.isDefaultRelease entry = true ->
      Forall (fun e => Paths.isDefaultRelease e = false) before ->
      Paths.pickFirefoxProfile w fs root profile
      = Returned (Paths.cookiesIn w fs root (Paths.name entry)))
  /\ (Forall (fun e => Paths.isDefaultRelease e = false) entries ->
      forall before entry after,
        entries = before ++ entry :: after ->
        Paths.isDirectory entry = true ->
        Forall (fun e => Paths.isDirectory e = false) before ->
        Paths.name entry <> [] ->
        Paths.pickFirefoxProfile w fs root profile
        = Returned (Paths.cookiesIn w fs root (Paths.name entry)))
  /\ (Forall (fun e => Paths.isDirectory e = false) entries ->
      Paths.pickFirefoxProfile w fs root profile = Returned None).
Proof.
  intros T R.
  assert (E : Paths.pickFirefoxProfile w fs root profile
              = match
                  match find Paths.isDefaultRelease entries with
                  | Some entry => Some (Paths.name entry)
                  | None => option_map Paths.name (find Paths.isDirectory entries)
                  end
                with
                | Some (c :: d) => Returned (Paths.cookiesIn w fs root (c :: d))
                | _ => Returned None
                end).
  { unfold Paths.pickFirefoxProfile. rewrite R.
    destruct profile as [[|x profile]|]; try reflexivity. discriminate. }
  rewrite E. split; [|split].
  - intros before entry after -> D F.
    rewrite (find_app_first _ _ _ _ F D).
    apply andb_true_iff in D as (_ & D).
    apply includes_nonempty in D; [|discriminate].
    destruct (Paths.name entry); [congruence | reflexivity].
  - intros N before entry after -> D F Nm.
    rewrite (find_all_false _ _ N), (find_app_first _ _ _ _ F D). cbn [option_map].
    destruct (Paths.name entry); [congruence | reflexivity].
  - intros N.
    assert (N' : Forall (fun e => Paths.isDefaultRelease e = false) entries).
    { eapply Forall_impl; [|exact N]. cbv beta. intros e He.
      unfold Paths.isDefaultRelease. rewrite He. reflexivity. }
    rewrite (find_all_false _ _ N'), (find_all_false _ _ N). reflexivity.
Qed.

Lemma pickFirefoxProfile_choice_witness :
  (forall before entry after,
      linuxProfiles = before ++ entry :: after ->
      Paths.isDefaultRelease entry = true ->
      Forall (fun e => Paths.isDefaultRelease e = false) before ->
      Paths.pickFirefoxProfile linuxWorld linuxFiles (js "/home/u/.mozilla/firefox") None
      = Returned (Paths.cookiesIn linuxWorld linuxFiles (js "/home/u/.mozilla/firefox")
                                  (Paths.name entry)))
  /\ (Forall (fun e => Paths.isDefaultRelease e = false) linuxProfiles ->
      forall before entry after,
        linuxProfiles = before ++ entry :: after ->
        Paths.isDirectory entry = true ->
        Forall (fun e => Paths.isDirectory e = false) before ->
        Paths.name entry <> [] ->
        Paths.pickFirefoxProfile linuxWorld linuxFiles (js "/home/u/.mozilla/firefox") None
        = Returned (Paths.cookiesIn linuxWorld linuxFiles (js "/home/u/.mozilla/firefox")
                                    (Paths.name entry)))
  /\ (Forall (fun e => Paths.isDirectory e = false) linuxProfiles ->
      Paths.pickFirefoxProfile linuxWorld linuxFiles (js "/home/u/.mozilla/firefox") None
      = Returned None).
Proof.
  apply (pickFirefoxProfile_choice linuxWorld linuxFiles (js "/home/u/.mozilla/firefox") None
           linuxProfiles);
    reflexivity.
Defined.

Example pickFirefoxProfile_linux :
  Paths.getFirefoxCookiesPath linuxWorld linuxFiles None
  = Returned (Some (js "/home/u/.mozilla/firefox/xyz.default-release/cookies.sqlite")).
Proof. vm_compute; reflexivity. Qed.

(** X20.  On a host whose stores are found by the functions above, the
    resolver returns whenever a Firefox profile is given; and an error it
    throws is the error of readdirSync on the Firefox profiles root, thrown
    when Firefox is among the sources to try. *)
Theorem resolveCredentials_host_errors `{Platform} fs w options :
  (truthy (firefoxProfile options) = true ->
   exists res, outcome (resolveCredentials (hostWorld fs w) options) = Done res)
  /\ (forall e,
        outcome (resolveCredentials (hostWorld fs w) options) = Throw e ->
        In firefox (sourcesToTry options)
        /\ exists root,
             Paths.getFirefoxProfilesRoot w fs = Some root
             /\ existsSync w root = true
             /\ Paths.readdirSync fs root = Thrown e).
Proof.
  assert (G : forall e,
             outcome (resolveCredentials (hostWorld fs w) options) = Throw e ->
             In firefox (sourcesToTry options)
             /\ Paths.getFirefoxCookiesPath w fs (firefoxProfile options) = Thrown e).
  { unfold resolveCredentials.
    destruct (isComplete (beforeCascade (hostWorld fs w) options)); [discriminate|].
    destruct (cascade_cases (hostWorld fs w) options
                (beforeCascade (hostWorld fs w) options) (sourcesToTry options) [] [])
      as [(F & E)|[(before & s & rest & r & Es & F & _ & _ & E)
                  |(before & rest & e & Es & F & Ef & E)]];
      rewrite E; cbn [outcome]; try discriminate.
    intros e' E'; injection E' as <-. split; [|exact Ef].
    rewrite Es. apply in_or_app. right; left; reflexivity. }
  split.
  - intros T.
    destruct (outcome (resolveCredentials (hostWorld fs w) options)) as [res|e|] eqn:O.
    + eauto.
    + destruct (G e eq_refl) as (_ & E).
      apply getFirefoxCookiesPath_thrown in E as (T' & _). congruence.
    + exfalso. revert O. unfold resolveCredentials.
      destruct (isComplete (beforeCascade (hostWorld fs w) options)); [discriminate|].
      destruct (cascade_cases (hostWorld fs w) options
                  (beforeCascade (hostWorld fs w) options) (sourcesToTry options) [] [])
        as [(F & E)|[(before & s & rest & r & Es & F & _ & _ & E)
                    |(before & rest & e & Es & F & Ef & E)]];
        rewrite E; discriminate.
  - intros e O. destruct (G e O) as (I & E). split; [exact I|].
    apply getFirefoxCookiesPath_thrown in E as (_ & root & Er & _ & Ex & Rd).
    eauto.
Qed.

Example resolveCredentials_throws :
  outcome (resolveCredentials (H := asciiPlatform) firefoxThrowingWorld noOptions)
  = Throw (js "EACCES: permission denied, scandir").
Proof. vm_compute; reflexivity. Qed.

(** X21.  On such a host, an extractor that goes on to read a store runs
    its [try] block on a path that existsSync reported as existing; for
    Safari this happens on darwin only. *)
Theorem tryBlockOf_existing `{Platform} fs w options s body :
  tryBlockOf (hostWorld fs w) options s = Some body ->
  extractFrom (hostWorld fs w) options s
  = runExtraction body (failurePrefix s) (nothingFoundWarning s)
  /\ exists path,
       existsSync w path = true
       /\ body = match s with
                 | safari => safariTry (hostWorld fs w) path
                 | chrome => chromeTry (hostWorld fs w) (chromeProfile options) path
                 | firefox => firefoxTry (hostWorld fs w) (firefoxProfile options) path
                 end
       /\ (s = safari -> Paths.platform fs = js "darwin").
Proof.
  intros T. split.
  { pose proof (extractFrom_run (hostWorld fs w) options s) as R.
    rewrite T in R. exact R. }
  revert T. destruct s; cbn [tryBlockOf].
  - cbn [getSafariCookiesPath hostWorld]. unfold Paths.getSafariCookiesPath.
    destruct (str_eqb (Paths.platform fs) (js "darwin")) eqn:D; [|discriminate].
    cbn [negb]. cbv zeta.
    match goal with
    | |- match find ?p ?l with _ => _ end = _ -> _ =>
        destruct (find p l) as [[|c path]|] eqn:F; try discriminate
    end.
    intros E; injection E as <-. apply find_some in F as (_ & F).
    exists (c :: path). repeat split; auto. intros _. apply str_eqb_eq; exact D.
  - change (existsSync (hostWorld fs w)) with (existsSync w).
    destruct (existsSync w (getChromeCookiesPath (hostWorld fs w) (chromeProfile options)))
      eqn:E; [|discriminate].
    intros X; injection X as <-.
    exists (getChromeCookiesPath (hostWorld fs w) (chromeProfile options)).
    repeat split; auto. discriminate.
  - cbn [getFirefoxCookiesPath hostWorld].
    destruct (Paths.getFirefoxCookiesPath w fs (firefoxProfile options))
      as [[[|c path]|]|e] eqn:E; try discriminate.
    intros X; injection X as <-.
    pose proof (getFirefoxCookiesPath_exists w fs _ _ E) as Ex.
    exists (c :: path). repeat split; auto. discriminate.
Qed.

Lemma tryBlockOf_existing_witness :
  extractFrom (H := asciiPlatform) (hostWorld linuxFiles linuxWorld) noOptions firefox
  = runExtraction
      (firefoxTry (H := asciiPlatform) (hostWorld linuxFiles linuxWorld) None
                  (js "/home/u/.mozilla/firefox/xyz.default-release/cookies.sqlite"))
      (failurePrefix firefox) (nothingFoundWarning firefox)
  /\ exists path,
       existsSync linuxWorld path = true
       /\ firefoxTry (H := asciiPlatform) (hostWorld linuxFiles linuxWorld) None
                     (js "/home/u/.mozilla/firefox/xyz.default-release/cookies.sqlite")
          = firefoxTry (H := asciiPlatform) (hostWorld linuxFiles linuxWorld)
                       (firefoxProfile noOptions) path
       /\ (firefox = safari -> Paths.platform linuxFiles = js "darwin").
Proof.
  apply (tryBlockOf_existing (H := asciiPlatform) linuxFiles linuxWorld noOptions firefox).
  reflexivity.
Defined.
